(** * Video composer: timeline, filtergraph and clean-up

    A shallow embedding of [src/video_composer.py]: the media prober
    [get_video_info], the clean-up helper [cleanup_temp_files] and the
    composition job [compose_video_ffmpeg_with_crossfade] (input filtering,
    master timeline, filtergraph construction, background music, encoding);
    and of the asset sequence that [run_commentary_pipeline] ([main.py])
    hands to that job.

    Conventions of the embedding.
    - Python floats are the type class [PyFloat], and the program (module
      [Composer]) is written once, over any instance.  The instance
      [binary64] (the kernel's IEEE 754 floats) is the arithmetic Python
      runs; the instance [exact] (rationals) is the same program without
      rounding.  After the program, [state], [world], [config] and the
      other types are abbreviations of their instances at the rationals: a
      statement that names no arithmetic is about the run in exact
      arithmetic.  Statements made for every instance, or for [binary64],
      say so.
    - The file system is a finite map from paths to file sizes (directories
      are not tracked, so [ensure_dir] has no counterpart); paths are
      absolute and normalised, so that [os.path.abspath] is the identity,
      and file names are ASCII, where a byte is a character.
    - The ffprobe and ffmpeg processes, and whether [os.remove] succeeds, are
      oracles of a [world] record: every theorem quantifies over what those
      processes answer.
    - Python exceptions are values of [exn]; they arise where the code calls
      a process or converts a value.  A computation is a function from the
      mutable state (disk, console, processes started) to an [outcome] and
      a state. *)

From Stdlib Require Import ZArith QArith Qround Qminmax Lqa Lia Bool List String Ascii.
From Stdlib Require Import PrimFloat Floats.
From stdpp Require Import gmap strings pretty.
Import ListNotations.

Set Default Proof Using "Type".

(** ** Exceptions and outcomes *)

Inductive exn :=
| FfmpegError (stderr : string)     (* ffmpeg.Error *)
| PyException (what : string)       (* any other subclass of Exception *)
| KeyboardInterrupt.                (* a BaseException outside Exception *)

(** [isinstance(e, Exception)]: what an [except Exception] clause catches. *)
Definition is_Exception (e : exn) : bool :=
  match e with
  | KeyboardInterrupt => false
  | _ => true
  end.

Inductive outcome (A : Type) :=
| Returned (a : A)
| Raised (e : exn).
Arguments Returned {A} a.
Arguments Raised {A} e.

(** Binding in [outcome] alone, for the pure code inside a [try]. *)
Definition obind {A B} (o : outcome A) (k : A -> outcome B) : outcome B :=
  match o with
  | Returned a => k a
  | Raised e => Raised e
  end.

(** ** Numbers *)

(** The operations the composer performs on Python floats. *)
Class PyFloat (T : Type) := {
  fzero : T;                (* 0.0, and the int 0 where a float is expected *)
  ffloor : T;               (* the literal 0.01 *)
  fadd : T -> T -> T;
  fsub : T -> T -> T;
  fgt : T -> T -> bool;     (* a > b *)
  fle : T -> T -> bool;     (* a <= b *)
  fmul : T -> T -> T;
  flit : Q -> T;            (* a decimal or integer literal, as a float *)
  ftruthy : T -> bool;      (* bool(x), that is x != 0 *)
  ftrunc : T -> outcome Z;  (* int(x) *)
  fvalue : T -> Q;          (* the number a finite x stands for *)
}.

(** [int(x)] on a rational: truncation toward zero. *)
Definition py_int (x : Q) : Z := Z.quot (Qnum x) (Z.pos (Qden x)).

#[global] Instance exact : PyFloat Q := {|
  fzero := 0%Q;
  ffloor := 0.01%Q;
  fadd := Qplus;
  fsub := Qminus;
  fgt := fun a b => negb (Qle_bool a b);
  fle := Qle_bool;
  fmul := Qmult;
  flit := fun q => q;
  ftruthy := fun a => negb (Qeq_bool a 0);
  ftrunc := fun a => Returned (py_int a);
  fvalue := fun a => a;
|}.

(** [float(z)] for an integer [z]; exact below 2^53. *)
Definition float_of_Z (z : Z) : float :=
  match z with
  | Z0 => 0%float
  | Zpos _ => PrimFloat.of_uint63 (Uint63.of_Z z)
  | Zneg p => PrimFloat.opp (PrimFloat.of_uint63 (Uint63.of_Z (Zpos p)))
  end.

(** A literal [n/d] with [n] and [d] below 2^53: the double nearest to it,
    which is the correctly rounded quotient of the two integers. *)
Definition float_of_literal (q : Q) : float :=
  PrimFloat.div (float_of_Z (Qnum q)) (float_of_Z (Z.pos (Qden q))).

(** [int(x)] on a double: the integer part of a finite [x];
    [OverflowError] on an infinity and [ValueError] on a NaN. *)
Definition float_trunc (x : float) : outcome Z :=
  match Prim2SF x with
  | S754_zero _ => Returned 0%Z
  | S754_finite s m e =>
      let magnitude :=
        if (0 <=? e)%Z then (Z.pos m * 2 ^ e)%Z
        else (Z.pos m / 2 ^ (- e))%Z in
      Returned (if s then (- magnitude)%Z else magnitude)
  | S754_infinity _ => Raised (PyException "OverflowError")
  | S754_nan => Raised (PyException "ValueError")
  end.

(** The rational a finite double stands for ([0] for an infinity or a
    NaN). *)
Definition float_value (x : float) : Q :=
  match Prim2SF x with
  | S754_finite s m e =>
      let magnitude :=
        if (0 <=? e)%Z then inject_Z (Z.pos m * 2 ^ e)
        else (Z.pos m # 2 ^ Z.to_pos (- e))%Q in
      if s then Qopp magnitude else magnitude
  | _ => 0%Q
  end.

#[global] Instance binary64 : PyFloat float := {|
  fzero := 0%float;
  ffloor := 0x1.47ae147ae147bp-7%float;   (* the double nearest to 0.01 *)
  fadd := PrimFloat.add;
  fsub := PrimFloat.sub;
  fgt := fun a b => PrimFloat.ltb b a;
  fle := PrimFloat.leb;
  fmul := PrimFloat.mul;
  flit := float_of_literal;
  ftruthy := fun a => negb (PrimFloat.eqb a 0%float);
  ftrunc := float_trunc;
  fvalue := float_value;
|}.

(** ** Values read from a probe *)

(** A value of a probed JSON object read with [float(..)] or [int(..)]:
    the key may be absent, and the conversion may raise [ValueError]
    (ffprobe prints ["N/A"] for what it cannot tell). *)
Inductive field (A : Type) :=
| Missing
| Unreadable
| Value (a : A).
Arguments Missing {A}.
Arguments Unreadable {A}.
Arguments Value {A} a.

(** * The program *)

Declare Scope comp_scope.
Delimit Scope comp_scope with comp.

Module Composer.
Section Program.
Context {T : Type} `{PyFloat T}.

(** [for i, x in enumerate(l): s = body(s, i, x)], counting from [i]. *)
Fixpoint for_enumerate {A St : Type} (body : St -> nat -> A -> St)
    (i : nat) (l : list A) (s : St) : St :=
  match l with
  | [] => s
  | x :: l' => for_enumerate body (S i) l' (body s i x)
  end.

(** ** Timeline scheduler (video_composer.py, lines 209-224) *)

(** Python's [max(a, b)] on two arguments: [b] only when [b > a]. *)
Definition py_max (a b : T) : T := if fgt b a then b else a.

(** What a clip adds to the running offset: its duration minus the
    transition (not for the last of the [n] clips), floored at 0.01. *)
Definition clip_effective_duration (n : nat) (transition_duration : T)
    (i : nat) (duration : T) : T :=
  py_max ffloor
    (fsub duration (if (i <? n - 1)%nat then transition_duration else fzero)).

(** The body of the loop over [inputs_info]; the state is
    [(clip_start_times, current_offset_s)]. *)
Definition timeline_step (n : nat) (transition_duration : T)
    (st : list T * T) (i : nat) (duration : T) : list T * T :=
  let '(clip_start_times, current_offset_s) := st in
  (clip_start_times ++ [current_offset_s],
   fadd current_offset_s
        (clip_effective_duration n transition_duration i duration)).

Definition master_timeline (durations : list T) (transition_duration : T)
    : list T * T :=
  for_enumerate (timeline_step (length durations) transition_duration)
                0 durations ([], fzero).

Definition clip_start_times (durations : list T) (transition_duration : T)
    : list T :=
  fst (master_timeline durations transition_duration).

Definition final_duration_estimate (durations : list T)
    (transition_duration : T) : T :=
  snd (master_timeline durations transition_duration).

(** ** The filtergraph handed to ffmpeg

    One constructor per node the composer builds with [ffmpeg.input] and
    [.filter]; an argument that is the same literal at every call site is part
    of the constructor's meaning and named in its comment. *)

Inductive vstream :=
| VInput (path : string) (t : T)                 (* ffmpeg.input(path, t=t)['v'] *)
| VScale (w h : Z) (s : vstream)                 (* scale, aspect kept, size=WxH *)
| VPad (w h : Z) (s : vstream)                   (* pad, centred, black *)
| VFps (fps : Z) (s : vstream)                   (* fps, round='near' *)
| VSetsar (s : vstream)                          (* setsar 1/1 *)
| VFormat (s : vstream)                          (* format yuv420p *)
| VXfade (duration offset : T) (a b : vstream).  (* xfade, transition='fade' *)

(** The [duration] option of [amix]. *)
Inductive mix_duration := Longest | First.

Inductive astream :=
| AInput (path : string) (t : T)                 (* ffmpeg.input(path, t=t)['a'] *)
| ASilence (t : T)                               (* anullsrc, stereo, 44100 Hz, t=t *)
| ALooped (path : string) (stream_loop : Z)      (* ffmpeg.input(path, stream_loop=..)['a'] *)
| AFormat (s : astream)                          (* aformat fltp, 44100, stereo *)
| AResample (s : astream)                        (* aresample *)
| ADelay (left right : Z) (s : astream)          (* adelay, delays='left|right' in ms *)
| ATrim (duration : T) (s : astream)             (* atrim *)
| AVolume (volume : T) (s : astream)             (* volume *)
| AMix (inputs : nat) (duration : mix_duration)
       (dropout_transition : option T) (ss : list astream).   (* amix *)

(** ** State and computations *)

(** What the functions print, one constructor per message that reports a
    decision; banners and progress lines are not recorded. *)
Inductive message :=
(* get_video_info *)
| WarnFileNotFound (path : string)
| WarnFileTooSmall (path : string)
| WarnInvalidDuration (path : string) (duration : T)
| ErrFfprobe (path : string) (stderr : string)
| ErrProbePython (path : string)
(* cleanup_temp_files *)
| WarnRemoveFailed (path : string)
| InfoCleanedUp (cleaned_count : nat)
(* compose_video_ffmpeg_with_crossfade *)
| ErrNoClipPaths
| WarnSkipMissing (path : string)
| InfoCreatedTemp (path : string) (duration : T)
| ErrProbeTemp (path : string)
| WarnFallbackDuration (path : string) (duration : T)
| ErrTempNotCreated (path : string)
| ErrConvertFfmpeg (path : string) (stderr : string)
| ErrConvertPython (path : string)
| InfoFirstResolution (w h : Z)
| WarnSkipVideo (path : string)
| ErrNoValidInputs
| WarnNoDimensions
| InfoTargetResolution (w h fps : Z)
| ErrProcessingStream
| ErrNoProcessedInputs
| InfoBgmPrepared
| WarnBgmSkipped
| InfoExecuting (output : string)
| InfoSuccess (output : string)
| ErrOutputMissing (output : string)
| FatalFfmpeg (stderr : string)
| FatalPython.

(** An ffmpeg process the composer started. *)
Inductive ffmpeg_run :=
| RunConvert (image temp_video : string)
| RunEncode (video : vstream) (audio : astream) (output : string).

(** The mutable environment: files (path to size in bytes), what was
    printed, and the ffmpeg processes started, oldest first. *)
Record state := {
  disk : gmap string Z;
  console : list message;
  ffmpeg_runs : list ffmpeg_run;
}.

Definition M (A : Type) : Type := state -> outcome A * state.

Definition ret {A} (a : A) : M A := fun s => (Returned a, s).

Definition bind {A B} (m : M A) (k : A -> M B) : M B :=
  fun s =>
    match m s with
    | (Returned a, s') => k a s'
    | (Raised e, s') => (Raised e, s')
    end.

Definition raise {A} (e : exn) : M A := fun s => (Raised e, s).

Definition lift {A} (o : outcome A) : M A := fun s => (o, s).

Notation "x <- m ;; k" := (bind m (fun x => k))
  (at level 100, m at next level, right associativity) : comp_scope.
Notation "m ;;; k" := (bind m (fun _ => k))
  (at level 100, right associativity) : comp_scope.

(** [try: body / except Exception as e: handler(e)]; anything that is not
    an [Exception] passes through. *)
Definition try_except {A} (body : M A) (handler : exn -> M A) : M A :=
  fun s =>
    match body s with
    | (Raised e, s') =>
        if is_Exception e then handler e s' else (Raised e, s')
    | r => r
    end.

(** [try: body / finally: final]. *)
Definition try_finally {A} (body : M A) (final : M unit) : M A :=
  fun s =>
    match body s with
    | (r, s') =>
        match final s' with
        | (Returned _, s'') => (r, s'')
        | (Raised e, s'') => (Raised e, s'')
        end
    end.

Definition print (m : message) : M unit :=
  fun s => (Returned tt,
            {| disk := disk s; console := console s ++ [m];
               ffmpeg_runs := ffmpeg_runs s |}).

(** [os.path.exists] and [os.path.getsize] (the latter on an existing file). *)
Definition path_size (p : string) : M (option Z) :=
  fun s => (Returned (disk s !! p), s).

Definition path_exists (p : string) : M bool :=
  fun s => (Returned (bool_decide (is_Some (disk s !! p))), s).

(** The monadic [for i, x in enumerate(l)]. *)
Fixpoint for_enumerateM {A St : Type} (body : St -> nat -> A -> M St)
    (i : nat) (l : list A) (s : St) : M St :=
  match l with
  | [] => ret s
  | x :: l' => bind (body s i x) (for_enumerateM body (S i) l')
  end.


(** ** Paths (POSIX [os.path], on absolute normalised paths)

    The composer resolves every path with [os.path.abspath] first; the
    embedding starts from resolved paths, on which [abspath] is the
    identity. *)

Definition slash : ascii := "/"%char.
Definition dot : ascii := "."%char.

Definition is_slash (c : ascii) : bool := Ascii.eqb c slash.
Definition is_dot (c : ascii) : bool := Ascii.eqb c dot.

(** The part after the last occurrence of a character satisfying [sep]
    (everything when there is none), and the part before it, last [sep]
    included. *)
Fixpoint after_last (sep : ascii -> bool) (l : list ascii) : list ascii :=
  match l with
  | [] => []
  | c :: l' => if existsb sep l' then after_last sep l'
               else if sep c then l' else c :: l'
  end.

Fixpoint upto_last (sep : ascii -> bool) (l : list ascii) : list ascii :=
  match l with
  | [] => []
  | c :: l' => if existsb sep l then c :: upto_last sep l' else []
  end.

Fixpoint drop_while (f : ascii -> bool) (l : list ascii) : list ascii :=
  match l with
  | [] => []
  | c :: l' => if f c then drop_while f l' else l
  end.

(** [s.rstrip('/')]. *)
Definition rstrip_slash (l : list ascii) : list ascii :=
  rev (drop_while is_slash (rev l)).

Definition basename (p : string) : string :=
  string_of_list_ascii (after_last is_slash (list_ascii_of_string p)).

Definition dirname (p : string) : string :=
  let head := upto_last is_slash (list_ascii_of_string p) in
  string_of_list_ascii
    (if forallb is_slash head then head else rstrip_slash head).

Definition join (a b : string) : string :=
  let la := list_ascii_of_string a in
  if existsb is_slash (take 1 (list_ascii_of_string b)) then b
  else if (bool_decide (la = []) || existsb is_slash (take 1 (rev la)))%bool
       then a +:+ b
       else a +:+ "/" +:+ b.

(** The extension [os.path.splitext(p)[1]]: from the last dot of the base
    name on, provided a character other than a dot precedes that dot. *)
Definition extension (p : string) : string :=
  let b := list_ascii_of_string (basename p) in
  if existsb is_dot b then
    if existsb (fun c => negb (is_dot c)) (removelast (upto_last is_dot b))
    then string_of_list_ascii (dot :: after_last is_dot b)
    else ""
  else "".

Definition lower_char (c : ascii) : ascii :=
  let n := nat_of_ascii c in
  if ((65 <=? n) && (n <=? 90))%nat then ascii_of_nat (n + 32) else c.

Definition lower (s : string) : string :=
  string_of_list_ascii (map lower_char (list_ascii_of_string s)).

(** [c.isalnum()] on an ASCII character (a byte below 128); the bytes of
    any other character count as not alphanumeric. *)
Definition isalnum (c : ascii) : bool :=
  let n := nat_of_ascii c in
  (((48 <=? n) && (n <=? 57)) || ((65 <=? n) && (n <=? 90))
   || ((97 <=? n) && (n <=? 122)))%nat%bool.

Definition is_image_path (abs_input_path : string) : bool :=
  let ext := extension (lower abs_input_path) in
  existsb (String.eqb ext) [".png"; ".jpg"; ".jpeg"; ".bmp"; ".gif"].

(** [temp_img_{i}_{safe_base}.mp4] in the output directory. *)
Definition temp_video_path_of (output_dir : string) (i : nat)
    (base_name : string) : string :=
  let safe_base :=
    string_of_list_ascii
      (take 50 (map (fun c => if isalnum c then c else "_"%char)
                    (list_ascii_of_string base_name))) in
  join output_dir ("temp_img_" +:+ pretty i +:+ "_" +:+ safe_base +:+ ".mp4").

(** ** The external processes *)

Record stream_json := {
  stream_duration : field T;
  stream_width : field Z;
  stream_height : field Z;
}.

(** The answer of [ffmpeg.probe]: the selected streams and the ['format']
    object, of which only ['duration'] is read. *)
Record probe_json := {
  streams : list stream_json;
  format_duration : field T;
}.

Inductive select_streams := select_v | select_a | select_all.

(** What an ffmpeg process did: the size of the file it left at its output
    path (if any), and how the call [.run(..)] ended. *)
Record run_result := {
  written : option Z;
  ended : outcome string;        (* the captured stderr, or the exception *)
}.

Record world := {
  probe : string -> select_streams -> outcome probe_json;
  convert_image : string -> string -> run_result;
  encode : vstream -> astream -> string -> run_result;
  removable : string -> bool;    (* false: [os.remove] raises OSError *)
}.

(** Start a process: record it, let it write its file, return or raise. *)
Definition run (what : ffmpeg_run) (output : string) (r : run_result)
    : M string :=
  fun s =>
    (ended r,
     {| disk := match written r with
                | Some size => <[output := size]> (disk s)
                | None => disk s
                end;
        console := console s;
        ffmpeg_runs := ffmpeg_runs s ++ [what] |}).

Definition remove (p : string) : M unit :=
  fun s => (Returned tt,
            {| disk := delete p (disk s); console := console s;
               ffmpeg_runs := ffmpeg_runs s |}).

(** ** Media prober: [get_video_info] *)

(** The returned tuple [(duration, width, height, has_audio)]. *)
Definition video_info : Type := option T * option Z * option Z * bool.

Definition unusable : video_info := (None, None, None, false).

Definition py_float (f : field T) : outcome T :=
  match f with
  | Value q => Returned q
  | _ => Raised (PyException "ValueError")
  end.

(** [int(d.get(key, 0))]. *)
Definition py_int_or_0 (f : field Z) : outcome Z :=
  match f with
  | Value z => Returned z
  | Missing => Returned 0%Z
  | Unreadable => Raised (PyException "ValueError")
  end.

(** ['duration' in d and float(d['duration']) > 0], with the value read. *)
Definition positive_duration (f : field T) : outcome (option T) :=
  match f with
  | Missing => Returned None
  | _ => obind (py_float f) (fun q =>
           Returned (if fgt q fzero then Some q else None))
  end.

(** The three-way choice of the duration: video stream, audio stream,
    container; [0] when none is positive.  Later sources are read only when
    the earlier ones gave nothing. *)
Definition probed_duration (video_stream audio_stream : option stream_json)
    (format_info : field T) : outcome T :=
  obind (match video_stream with
         | Some v => positive_duration (stream_duration v)
         | None => Returned None
         end) (fun dv =>
  match dv with
  | Some d => Returned d
  | None =>
    obind (match audio_stream with
           | Some a => positive_duration (stream_duration a)
           | None => Returned None
           end) (fun da =>
    match da with
    | Some d => Returned d
    | None =>
      obind (positive_duration format_info) (fun df =>
      Returned (match df with Some d => d | None => fzero end))
    end)
  end).

(** [width, height] of the video stream, [None, None] unless both are
    positive. *)
Definition probed_dimensions (video_stream : option stream_json)
    : outcome (option Z * option Z) :=
  match video_stream with
  | None => Returned (None, None)
  | Some v =>
    obind (py_int_or_0 (stream_width v)) (fun width =>
    obind (py_int_or_0 (stream_height v)) (fun height =>
    Returned (if ((width <=? 0) || (height <=? 0))%Z%bool then (None, None)
              else (Some width, Some height))))
  end.

Local Open Scope comp_scope.

Definition get_video_info (w : world) (filepath : string) : M video_info :=
  size <- path_size filepath ;;
  match (if bool_decide (filepath = "") then None else size) with
  | None => print (WarnFileNotFound filepath) ;;; ret unusable
  | Some size =>
    if (size <? 100)%Z then
      print (WarnFileTooSmall filepath) ;;; ret unusable
    else
      try_except
        (probe_v <- lift (probe w filepath select_v) ;;
         let video_stream := head (streams probe_v) in
         probe_a <- lift (probe w filepath select_a) ;;
         let audio_stream := head (streams probe_a) in
         probe_f <- lift (probe w filepath select_all) ;;
         let format_info := format_duration probe_f in
         let has_audio := bool_decide (is_Some audio_stream) in
         duration <- lift (probed_duration video_stream audio_stream
                                           format_info) ;;
         dims <- lift (probed_dimensions video_stream) ;;
         if fle duration ffloor then
           print (WarnInvalidDuration filepath duration) ;;; ret unusable
         else
           ret (Some duration, fst dims, snd dims, has_audio))
        (fun e =>
           match e with
           | FfmpegError stderr =>
               print (ErrFfprobe filepath stderr) ;;; ret unusable
           | _ => print (ErrProbePython filepath) ;;; ret unusable
           end)
  end.

(** ** [cleanup_temp_files] *)

Definition cleanup_step (w : world) (cleaned_count : nat)
    (temp_path : string) : M nat :=
  present <- path_exists temp_path ;;
  if present then
    if removable w temp_path then
      remove temp_path ;;; ret (S cleaned_count)
    else
      print (WarnRemoveFailed temp_path) ;;; ret cleaned_count
  else ret cleaned_count.

Definition cleanup_temp_files (w : world) (temp_files : list string)
    : M unit :=
  match temp_files with
  | [] => ret tt
  | _ =>
    cleaned_count <-
      for_enumerateM (fun n (_ : nat) p => cleanup_step w n p) 0 temp_files 0%nat ;;
    print (InfoCleanedUp cleaned_count)
  end.

(** ** The composition job: [compose_video_ffmpeg_with_crossfade] *)

(** The keyword arguments, with their defaults in [default_config]. *)
Record config := {
  transition_duration : T;
  default_chart_duration : T;
  target_width : Z;
  target_height : Z;
  target_fps : Z;
  bg_music_path : option string;
  bg_music_volume : T;
}.

Definition default_config : config := {|
  transition_duration := flit 0.6;
  default_chart_duration := flit 5.0;
  target_width := 1280;
  target_height := 720;
  target_fps := 25;
  bg_music_path := None;
  bg_music_volume := flit 0.08;
|}.

(** An entry of [inputs_info]. *)
Record clip_info := {
  info_path : string;
  info_duration : T;
  info_width : Z;
  info_height : Z;
  info_has_audio : bool;
  info_is_temp : bool;
}.

(** The variables the pre-processing loop updates. *)
Record filtered := {
  inputs_info : list clip_info;
  temp_files : list string;
  final_video_width : Z;
  final_video_height : Z;
  valid_clips_exist : bool;
  first_video_dims_found : bool;
}.

Definition nothing_filtered (cfg : config) : filtered := {|
  inputs_info := [];
  temp_files := [];
  final_video_width := target_width cfg;
  final_video_height := target_height cfg;
  valid_clips_exist := false;
  first_video_dims_found := false;
|}.

(** The image branch when the wrapper exists and its probe gave a positive
    duration (lines 158-164). *)
Definition keep_probed_wrapper (cfg : config) (st : filtered)
    (temp_video_path : string) (temp_duration : T) : filtered := {|
  inputs_info := inputs_info st ++
    [{| info_path := temp_video_path; info_duration := temp_duration;
        info_width := target_width cfg; info_height := target_height cfg;
        info_has_audio := false; info_is_temp := true |}];
  temp_files := temp_files st ++ [temp_video_path];
  final_video_width :=
    if first_video_dims_found st then final_video_width st
    else target_width cfg;
  final_video_height :=
    if first_video_dims_found st then final_video_height st
    else target_height cfg;
  valid_clips_exist := true;
  first_video_dims_found := true;
|}.

(** The image branch when the probe of the wrapper failed: the nominal
    duration is used (lines 166-171). *)
Definition keep_fallback_wrapper (cfg : config) (st : filtered)
    (temp_video_path : string) : filtered := {|
  inputs_info := inputs_info st ++
    [{| info_path := temp_video_path;
        info_duration := default_chart_duration cfg;
        info_width := target_width cfg; info_height := target_height cfg;
        info_has_audio := false; info_is_temp := true |}];
  temp_files := temp_files st ++ [temp_video_path];
  final_video_width := final_video_width st;
  final_video_height := final_video_height st;
  valid_clips_exist := true;
  first_video_dims_found := first_video_dims_found st;
|}.

(** [x if x and x > 0 else target]. *)
Definition dimension_or (x : option Z) (target : Z) : Z :=
  match x with
  | Some x => if (0 <? x)%Z then x else target
  | None => target
  end.

(** The video branch for a usable probe (lines 185-193). *)
Definition keep_video (cfg : config) (st : filtered) (abs_input_path : string)
    (duration : T) (width height : option Z) (has_audio : bool)
    : filtered * bool :=
  let clip_width := dimension_or width (target_width cfg) in
  let clip_height := dimension_or height (target_height cfg) in
  let sets := (negb (first_video_dims_found st)
               && negb (clip_width =? 0)%Z && negb (clip_height =? 0)%Z)%bool in
  ({| inputs_info := inputs_info st ++
        [{| info_path := abs_input_path; info_duration := duration;
            info_width := clip_width; info_height := clip_height;
            info_has_audio := has_audio; info_is_temp := false |}];
      temp_files := temp_files st;
      final_video_width := if sets then clip_width else final_video_width st;
      final_video_height :=
        if sets then clip_height else final_video_height st;
      valid_clips_exist := true;
      first_video_dims_found := (first_video_dims_found st || sets)%bool |},
   sets).

Definition normalize_image (w : world) (cfg : config) (output_dir : string)
    (st : filtered) (i : nat) (abs_input_path : string) : M filtered :=
  let base_name := basename abs_input_path in
  let temp_video_path := temp_video_path_of output_dir i base_name in
  try_except
    (run (RunConvert abs_input_path temp_video_path) temp_video_path
         (convert_image w abs_input_path temp_video_path) ;;;
     present <- path_exists temp_video_path ;;
     if present then
       info <- get_video_info w temp_video_path ;;
       let '(temp_duration, _, _, _) := info in
       match temp_duration with
       | Some d =>
         if fgt d fzero then
           print (InfoCreatedTemp temp_video_path d) ;;;
           ret (keep_probed_wrapper cfg st temp_video_path d)
         else
           print (ErrProbeTemp base_name) ;;;
           print (WarnFallbackDuration base_name
                    (default_chart_duration cfg)) ;;;
           ret (keep_fallback_wrapper cfg st temp_video_path)
       | None =>
         print (ErrProbeTemp base_name) ;;;
         print (WarnFallbackDuration base_name
                  (default_chart_duration cfg)) ;;;
         ret (keep_fallback_wrapper cfg st temp_video_path)
       end
     else
       print (ErrTempNotCreated base_name) ;;; ret st)
    (fun e =>
       match e with
       | FfmpegError stderr =>
           print (ErrConvertFfmpeg base_name stderr) ;;; ret st
       | _ => print (ErrConvertPython base_name) ;;; ret st
       end).

Definition admit_video (w : world) (cfg : config) (st : filtered)
    (abs_input_path : string) : M filtered :=
  info <- get_video_info w abs_input_path ;;
  let '(duration, width, height, has_audio) := info in
  match duration with
  | Some d =>
    if fgt d fzero then
      let '(st', sets) :=
        keep_video cfg st abs_input_path d width height has_audio in
      (if sets
       then print (InfoFirstResolution (final_video_width st')
                                       (final_video_height st'))
       else ret tt) ;;;
      ret st'
    else print (WarnSkipVideo (basename abs_input_path)) ;;; ret st
  | None => print (WarnSkipVideo (basename abs_input_path)) ;;; ret st
  end.

(** The body of the loop over [enumerate(clip_paths)] (lines 112-195). *)
Definition preprocess_step (w : world) (cfg : config) (output_dir : string)
    (st : filtered) (i : nat) (path : string) : M filtered :=
  present <- path_exists path ;;
  if (bool_decide (path = "") || negb present)%bool then
    print (WarnSkipMissing path) ;;; ret st
  else if is_image_path path then
    normalize_image w cfg output_dir st i path
  else
    admit_video w cfg st path.

Definition preprocess (w : world) (cfg : config) (output_dir : string)
    (clip_paths : list string) : M filtered :=
  for_enumerateM (preprocess_step w cfg output_dir) 0 clip_paths
                 (nothing_filtered cfg).

(** *** Building the filtergraph (lines 227-308) *)

(** [l[i]], raising [IndexError] out of range. *)
Definition index {A} (l : list A) (i : nat) : outcome A :=
  match l !! i with
  | Some x => Returned x
  | None => Raised (PyException "IndexError")
  end.

Fixpoint for_enumerateO {A St : Type} (body : St -> nat -> A -> outcome St)
    (i : nat) (l : list A) (s : St) : outcome St :=
  match l with
  | [] => Returned s
  | x :: l' => obind (body s i x) (for_enumerateO body (S i) l')
  end.

(** The processed video stream of one clip: scaled and padded when its
    size differs from the target, then fps, setsar, format. *)
Definition processed_video_of (target_width target_height target_fps : Z)
    (info : clip_info) : vstream :=
  let v_stream := VInput (info_path info) (info_duration info) in
  let v_stream :=
    if (negb (info_width info =? target_width)%Z
        || negb (info_height info =? target_height)%Z)%bool
    then VPad target_width target_height
              (VScale target_width target_height v_stream)
    else v_stream in
  VFormat (VSetsar (VFps target_fps v_stream)).

(** The audio source of one clip: its own track reformatted, or silence of
    [actual_duration = info['duration']]. *)
Definition audio_source_of (info : clip_info) : astream :=
  let actual_duration := info_duration info in
  if info_has_audio info
  then AResample (AFormat (AInput (info_path info) (info_duration info)))
  else ASilence actual_duration.

(** [int(start_time_s * 1000)]. *)
Definition start_time_ms_of (start_time_s : T) : outcome Z :=
  ftrunc (fmul start_time_s (flit 1000)).

(** The body of the loop that fills [video_inputs_processed] and
    [audio_streams_for_mixing]. *)
Definition build_step (target_width target_height target_fps : Z)
    (clip_start_times : list T) (acc : list vstream * list astream)
    (i : nat) (info : clip_info) : outcome (list vstream * list astream) :=
  let '(video_inputs_processed, audio_streams_for_mixing) := acc in
  let v_stream :=
    processed_video_of target_width target_height target_fps info in
  let a_stream := audio_source_of info in
  obind (index clip_start_times i) (fun start_time_s =>
  obind (start_time_ms_of start_time_s) (fun start_time_ms =>
  let delayed_audio := ADelay start_time_ms start_time_ms a_stream in
  Returned (video_inputs_processed ++ [v_stream],
            audio_streams_for_mixing ++ [delayed_audio]))).

Definition build_streams (target_width target_height target_fps : Z)
    (clip_start_times : list T) (inputs_info : list clip_info)
    : outcome (list vstream * list astream) :=
  for_enumerateO
    (build_step target_width target_height target_fps clip_start_times)
    0 inputs_info ([], []).

(** [for i in range(1, n): processed_video = xfade(processed_video,
    video_inputs_processed[i], offset=clip_start_times[i])]. *)
Definition xfade_step (transition_duration : T) (clip_start_times : list T)
    (video_inputs_processed : list vstream)
    (processed_video : outcome vstream) (i : nat) : outcome vstream :=
  obind processed_video (fun pv =>
  obind (index clip_start_times i) (fun offset_s =>
  obind (index video_inputs_processed i) (fun vi =>
  Returned (VXfade transition_duration offset_s pv vi)))).

(** The transition stage; [None] is the branch that reports that no
    processed input is available. *)
Definition apply_transitions (transition_duration : T) (n : nat)
    (clip_start_times : list T) (video_inputs_processed : list vstream)
    (audio_streams_for_mixing : list astream)
    : outcome (option (vstream * astream)) :=
  if (1 <? n)%nat then
    obind (fold_left
             (xfade_step transition_duration clip_start_times
                         video_inputs_processed)
             (seq 1 (n - 1)) (index video_inputs_processed 0))
          (fun processed_video =>
    Returned (Some (processed_video,
                    AMix (length audio_streams_for_mixing) Longest None
                         audio_streams_for_mixing)))
  else if (n =? 1)%nat then
    obind (index video_inputs_processed 0) (fun processed_video =>
    obind (index audio_streams_for_mixing 0) (fun processed_audio =>
    Returned (Some (processed_video, processed_audio))))
  else Returned None.

(** *** Background music (lines 310-338) *)

Definition bgm_audio_of (cfg : config) (final_duration_estimate : T)
    (abs_bgm_path : string) (bgm_duration : option T) : astream :=
  let loop_needed :=
    match bgm_duration with
    | Some d => (ftruthy d && fgt d fzero
                 && fgt final_duration_estimate d)%bool
    | None => false
    end in
  AResample (AFormat (AVolume (bg_music_volume cfg)
    (ATrim final_duration_estimate
       (ALooped abs_bgm_path (if loop_needed then (-1)%Z else 0%Z))))).

Definition add_background_music (w : world) (cfg : config)
    (final_duration_estimate : T) (processed_audio : astream) : M astream :=
  match bg_music_path cfg with
  | None => ret processed_audio
  | Some abs_bgm_path =>
    present <- path_exists abs_bgm_path ;;
    if (negb (bool_decide (abs_bgm_path = "")) && present)%bool then
      try_except
        (info <- get_video_info w abs_bgm_path ;;
         let '(bgm_duration, _, _, has_bgm_audio) := info in
         if negb has_bgm_audio then raise (PyException "ValueError")
         else
           print InfoBgmPrepared ;;;
           ret (AMix 2 First (Some (fmul (transition_duration cfg) (flit 2)))
                  [processed_audio;
                   bgm_audio_of cfg final_duration_estimate abs_bgm_path
                                bgm_duration]))
        (fun _ => print WarnBgmSkipped ;;; ret processed_audio)
    else ret processed_audio
  end.

(** *** Encoding (lines 340-391) *)

(** The final [try / except ffmpeg.Error / except Exception / finally].
    The echo of the engine's stderr (keyword scan) only prints and is
    left out.  [encode] answers for the whole call [.run(..)]: when
    ffmpeg-python refuses to compile the graph, as it does when two clips
    read the same file, the call raises before any process exists, and the
    refusal counts here as a run that raises. *)
Definition encode_output (w : world) (temp_files : list string)
    (processed_video : vstream) (final_audio_stream : astream)
    (output_abs_filepath : string) : M bool :=
  try_finally
    (try_except
       (print (InfoExecuting output_abs_filepath) ;;;
        run (RunEncode processed_video final_audio_stream output_abs_filepath)
            output_abs_filepath
            (encode w processed_video final_audio_stream
                    output_abs_filepath) ;;;
        size <- path_size output_abs_filepath ;;
        match size with
        | Some n =>
          if (1000 <? n)%Z
          then print (InfoSuccess output_abs_filepath) ;;; ret true
          else print (ErrOutputMissing output_abs_filepath) ;;; ret false
        | None => print (ErrOutputMissing output_abs_filepath) ;;; ret false
        end)
       (fun e =>
          match e with
          | FfmpegError stderr => print (FatalFfmpeg stderr) ;;; ret false
          | _ => print FatalPython ;;; ret false
          end))
    (cleanup_temp_files w temp_files).

(** [try: x = body / except Exception: return handler] and then [k x]. *)
Definition try_or_return {A B} (body : M A) (handler : exn -> M B)
    (k : A -> M B) : M B :=
  fun s =>
    match body s with
    | (Returned a, s') => k a s'
    | (Raised e, s') =>
        if is_Exception e then handler e s' else (Raised e, s')
    end.

Definition is_empty {A} (l : list A) : bool :=
  match l with [] => true | _ => false end.

(** Everything after the pre-processing loop (from line 198 on). *)
Definition compose_filtered (w : world) (cfg : config) (st : filtered)
    (output_filepath : string) : M bool :=
  if (negb (valid_clips_exist st) || is_empty (inputs_info st))%bool then
    print ErrNoValidInputs ;;;
    cleanup_temp_files w (temp_files st) ;;;
    ret false
  else
    (if first_video_dims_found st then ret tt
     else print WarnNoDimensions) ;;;
    let target_width := final_video_width st in
    let target_height := final_video_height st in
    print (InfoTargetResolution target_width target_height
                                (target_fps cfg)) ;;;
    let '(clip_start_times, final_duration_estimate) :=
      master_timeline (map info_duration (inputs_info st))
                      (transition_duration cfg) in
    try_or_return
      (lift (build_streams target_width target_height (target_fps cfg)
                           clip_start_times (inputs_info st)))
      (fun _ =>
         print ErrProcessingStream ;;;
         cleanup_temp_files w (temp_files st) ;;;
         ret false)
      (fun '(video_inputs_processed, audio_streams_for_mixing) =>
         joined <- lift (apply_transitions (transition_duration cfg)
                           (length (inputs_info st)) clip_start_times
                           video_inputs_processed
                           audio_streams_for_mixing) ;;
         match joined with
         | None =>
           print ErrNoProcessedInputs ;;;
           cleanup_temp_files w (temp_files st) ;;;
           ret false
         | Some (processed_video, processed_audio) =>
           final_audio_stream <-
             add_background_music w cfg final_duration_estimate
                                  processed_audio ;;
           encode_output w (temp_files st) processed_video
                         final_audio_stream output_filepath
         end).

Definition compose_video_ffmpeg_with_crossfade (w : world) (cfg : config)
    (clip_paths : list string) (output_filepath : string) : M bool :=
  let output_dir := dirname output_filepath in
  if is_empty clip_paths then
    print ErrNoClipPaths ;;; ret false
  else
    st <- preprocess w cfg output_dir clip_paths ;;
    compose_filtered w cfg st output_filepath.

(** ** The caller: the asset sequence of [run_commentary_pipeline]
    (main.py, lines 188-217) *)

(** [[s for s in segment_order if s != "00_intro" and s != "99_conclusion"]]. *)
Definition event_segments_in_order (segment_order : list string)
    : list string :=
  List.filter (fun s => (negb (String.eqb s "00_intro")
                         && negb (String.eqb s "99_conclusion"))%bool)
              segment_order.

(** The body of the loop over [enumerate(event_segments_in_order)]; the
    state is [(final_sequence_paths, added_manhattan,
    added_event_clips_count)]. *)
Definition sequence_step (avatar_clip_paths chart_paths : gmap string string)
    (insert_manhattan_at_index : nat) (st : list string * bool * nat)
    (i : nat) (segment_name : string) : list string * bool * nat :=
  let '(final_sequence_paths, added_manhattan, added_event_clips_count) :=
    st in
  let '(final_sequence_paths, added_manhattan) :=
    match (if (i =? insert_manhattan_at_index)%nat
           then chart_paths !! "manhattan" else None) with
    | Some chart => (final_sequence_paths ++ [chart], true)
    | None => (final_sequence_paths, added_manhattan)
    end in
  match avatar_clip_paths !! segment_name with
  | Some clip =>
      (final_sequence_paths ++ [clip], added_manhattan,
       S added_event_clips_count)
  | None =>
      (final_sequence_paths, added_manhattan, added_event_clips_count)
  end.

Definition final_sequence_paths (segment_order : list string)
    (avatar_clip_paths chart_paths : gmap string string) : list string :=
  let paths := option_list (avatar_clip_paths !! "00_intro") in
  let paths := paths ++ option_list (chart_paths !! "run_rate") in
  let events := event_segments_in_order segment_order in
  let insert_manhattan_at_index := (length events / 2)%nat in
  let '(paths, added_manhattan, _) :=
    for_enumerate
      (sequence_step avatar_clip_paths chart_paths insert_manhattan_at_index)
      0 events (paths, false, 0%nat) in
  let paths :=
    if negb added_manhattan
    then paths ++ option_list (chart_paths !! "manhattan")
    else paths in
  paths ++ option_list (avatar_clip_paths !! "99_conclusion").

(** The avatar clips that exist for the given segments, in order. *)
Definition clips_of (avatar_clip_paths : gmap string string)
    (segments : list string) : list string :=
  omap (fun s => avatar_clip_paths !! s) segments.

(** ** When an audio stream ends

    The instant, in seconds from the start of the output, at which a stream
    of the graph ends ([None]: it never does), as the filters act on
    durations: the [t] option cuts an input, [adelay] shifts a stream by its
    delay, [atrim] cuts it, and [amix] lasts as long as its longest or its
    first input.  [audio_length p] is the length of the audio track stored in
    file [p]; a float option counts for the number it stands for. *)


Section AudioExtent.
Variable audio_length : string -> Q.
Local Open Scope Q_scope.

End AudioExtent.

(** Whether a stream contains a cross-fade, respectively a mix. *)
Fixpoint has_xfade (v : vstream) : bool :=
  match v with
  | VInput _ _ => false
  | VScale _ _ s | VPad _ _ s | VFps _ s | VSetsar s | VFormat s => has_xfade s
  | VXfade _ _ _ _ => true
  end.

Fixpoint has_amix (a : astream) : bool :=
  match a with
  | AInput _ _ | ASilence _ | ALooped _ _ => false
  | AFormat s | AResample s | AVolume _ s | ADelay _ _ s | ATrim _ s =>
      has_amix s
  | AMix _ _ _ _ => true
  end.

End Program.
End Composer.
Import Composer.

(** ** What the arithmetic is expected to do

    [int(x)] is the integer part of the number [x] stands for: both
    instances do so ([exact_truncates] and [binary64_truncates] below). *)
Definition truncates (T : Type) `{PyFloat T} : Prop :=
  forall (x : T) (k : Z),
    ftrunc x = Returned k -> (0 <= fvalue x)%Q ->
    (inject_Z k <= fvalue x)%Q /\ (fvalue x < inject_Z k + 1)%Q.

(** [int(start * 1000)] returns for every start time of the list; it does
    as long as no start time is an infinity or a NaN. *)
Definition delays_defined {T : Type} `{PyFloat T} (starts : list T) : Prop :=
  forall (i : nat) (start_time_s : T),
    starts !! i = Some start_time_s ->
    exists ms, start_time_ms_of start_time_s = Returned ms.

(** ** The timeline, by recursion on the clips

    [starts_from] and [total_from] describe what the loop leaves in
    [clip_start_times] and [current_offset_s] when it enters clip [i] with
    offset [cur]; [timeline_unfold] below proves that the loop computes
    them. *)

Section TimelineRec.
Context {T : Type} `{PyFloat T}.

Fixpoint starts_from (n : nat) (t : T) (i : nat) (cur : T) (ds : list T)
    : list T :=
  match ds with
  | [] => []
  | d :: ds' =>
      cur :: starts_from n t (S i) (fadd cur (clip_effective_duration n t i d)) ds'
  end.

Fixpoint total_from (n : nat) (t : T) (i : nat) (cur : T) (ds : list T) : T :=
  match ds with
  | [] => cur
  | d :: ds' =>
      total_from n t (S i) (fadd cur (clip_effective_duration n t i d)) ds'
  end.
End TimelineRec.

(** * The program in exact arithmetic

    From here on the types of the program stand for their instances at the
    rationals. *)

Abbreviation vstream := (@Composer.vstream Q).
Abbreviation astream := (@Composer.astream Q).
Abbreviation message := (@Composer.message Q).
Abbreviation ffmpeg_run := (@Composer.ffmpeg_run Q).
Abbreviation state := (@Composer.state Q).
Abbreviation M := (@Composer.M Q).
Abbreviation stream_json := (@Composer.stream_json Q).
Abbreviation probe_json := (@Composer.probe_json Q).
Abbreviation world := (@Composer.world Q).
Abbreviation video_info := (@Composer.video_info Q).
Abbreviation config := (@Composer.config Q).
Abbreviation clip_info := (@Composer.clip_info Q).
Abbreviation filtered := (@Composer.filtered Q).

Notation "x <- m ;; k" := (bind m (fun x => k))
  (at level 100, m at next level, right associativity) : comp_scope.
Notation "m ;;; k" := (bind m (fun _ => k))
  (at level 100, right associativity) : comp_scope.
Local Open Scope comp_scope.

(** ** The per-clip audio streams, by recursion on the clips *)

(** The delayed stream the loop appends for clip [i], the delay being
    [int(start * 1000)] without rounding. *)
Definition delayed_audio_at (clip_start_times : list Q) (i : nat)
    (info : clip_info) : astream :=
  let start_time_ms :=
    py_int (default 0%Q (clip_start_times !! i) * 1000) in
  ADelay start_time_ms start_time_ms (audio_source_of info).

Fixpoint delayed_from (clip_start_times : list Q) (i : nat)
    (infos : list clip_info) : list astream :=
  match infos with
  | [] => []
  | info :: infos' =>
      delayed_audio_at clip_start_times i info
      :: delayed_from clip_start_times (S i) infos'
  end.


(** A duration a probe object reports under the key ['duration']. *)
Definition reports_duration (pj : probe_json) (d : Q) : Prop :=
  format_duration pj = Value d
  \/ exists st, head (streams pj) = Some st /\ stream_duration st = Value d.



(** ** Classes of messages and of processes *)

(** The messages of the input filter (pre-processing and the prober). *)
Definition is_filter_message (m : message) : bool :=
  match m with
  | WarnFileNotFound _ | WarnFileTooSmall _ | WarnInvalidDuration _ _
  | ErrFfprobe _ _ | ErrProbePython _ | WarnSkipMissing _
  | InfoCreatedTemp _ _ | ErrProbeTemp _ | WarnFallbackDuration _ _
  | ErrTempNotCreated _ | ErrConvertFfmpeg _ _ | ErrConvertPython _
  | InfoFirstResolution _ _ | WarnSkipVideo _ => true
  | _ => false
  end.

(** The messages of the encoding stage. *)
Definition is_encode_message (m : message) : bool :=
  match m with
  | InfoExecuting _ | InfoSuccess _ | ErrOutputMissing _ | FatalFfmpeg _
  | FatalPython => true
  | _ => false
  end.

Definition is_convert (r : ffmpeg_run) : bool :=
  match r with
  | RunConvert _ _ => true
  | RunEncode _ _ _ => false
  end.

(** The messages of [cleanup_temp_files]. *)
Definition is_cleanup_message (m : message) : bool :=
  match m with
  | WarnRemoveFailed _ | InfoCleanedUp _ => true
  | _ => false
  end.

Definition no_run (r : ffmpeg_run) : bool := false.

(** [s'] is [s] after printing only messages of class [okm] and starting
    only processes of class [okr]. *)
Definition extends (okm : message -> bool) (okr : ffmpeg_run -> bool)
    (s s' : state) : Prop :=
  exists msgs runs,
    console s' = console s ++ msgs
    /\ forallb okm msgs = true
    /\ ffmpeg_runs s' = ffmpeg_runs s ++ runs
    /\ forallb okr runs = true.

(** The trace of the input filter: its own messages, and image
    conversions only. *)
Definition filter_trace : state -> state -> Prop :=
  extends is_filter_message is_convert.

(** [temp_files] lists the wrappers among [inputs_info], and a clip was
    kept exactly when [valid_clips_exist] says so. *)
Definition filtered_consistent (st : filtered) : Prop :=
  temp_files st
  = map info_path (List.filter info_is_temp (inputs_info st))
  /\ valid_clips_exist st = negb (is_empty (inputs_info st)).

Definition dims_of (c : clip_info) : Z * Z := (info_width c, info_height c).

Definition final_dims (st : filtered) : Z * Z :=
  (final_video_width st, final_video_height st).

Definition target_dims (cfg : config) : Z * Z :=
  (target_width cfg, target_height cfg).

(** How the job-wide resolution relates to the clips kept so far. *)
Definition resolution_invariant (cfg : config) (st : filtered) : Prop :=
  (first_video_dims_found st = false -> final_dims st = target_dims cfg)
  /\ (final_dims st = target_dims cfg
      \/ exists c, c ∈ inputs_info st /\ info_is_temp c = false
                   /\ final_dims st = dims_of c)
  /\ match inputs_info st with
     | c :: _ =>
         info_is_temp c = false -> info_width c <> 0%Z ->
         info_height c <> 0%Z ->
         first_video_dims_found st = true /\ final_dims st = dims_of c
     | [] => first_video_dims_found st = false
     end.

(** What the filter guarantees of a kept clip: a wrapper is silent, has the
    configured size, and lasts what its probe said or the nominal duration;
    a probed duration exceeds 0.01 s. *)
Definition clip_ok (cfg : config) (c : clip_info) : Prop :=
  (info_is_temp c = true ->
   dims_of c = target_dims cfg /\ info_has_audio c = false)
  /\ ((0.01 < info_duration c)%Q
      \/ (info_is_temp c = true
          /\ info_duration c = default_chart_duration cfg)).


(** What [get_video_info w filepath] guarantees when, started in [s], it
    ends with [r] in [s']. *)
Definition prober_contract (w : world) (filepath : string) (s : state)
    (r : outcome video_info) (s' : state) : Prop :=
  (s' = s
   \/ exists m, is_filter_message m = true /\ r = Returned unusable
                /\ s' = {| disk := disk s; console := console s ++ [m];
                           ffmpeg_runs := ffmpeg_runs s |})
  /\ disk s' = disk s /\ ffmpeg_runs s' = ffmpeg_runs s
  /\ (forall info, r = Returned info ->
        (info = unusable /\ exists m, console s' = console s ++ [m])
        \/ (exists d wd ht a,
              info = (Some d, wd, ht, a) /\ (0.01 < d)%Q
              /\ console s' = console s
              /\ exists sel pj, probe w filepath sel = Returned pj
                                /\ reports_duration pj d))
  /\ (filepath = "" \/ disk s !! filepath = None -> r = Returned unusable)
  /\ (forall size, disk s !! filepath = Some size -> (size < 100)%Z ->
                   r = Returned unusable)
  /\ (forall e, r = Raised e ->
                is_Exception e = false
                /\ exists sel, probe w filepath sel = Raised e)
  /\ ((forall sel e, probe w filepath sel = Raised e ->
                     is_Exception e = true) ->
      exists info, r = Returned info).



(** [n] as a rational. *)
Definition Qnat (n : nat) : Q := inject_Z (Z.of_nat n).


(** The trace of the clean-up: its own messages, no process. *)
Definition cleanup_trace : state -> state -> Prop :=
  extends is_cleanup_message no_run.


(** ** Sample inputs

    A small studio: an intro with sound (640x480, 6 s), a silent outro
    (1280x720, 4 s), two chart images and a music file; wrappers written to
    [/out] probe as 5 s clips.  The variants differ in what the image
    converter and the probe of a wrapper do. *)

Definition video_stream (d : Q) (wd ht : Z) : stream_json :=
  {| stream_duration := Value d; stream_width := Value wd;
     stream_height := Value ht |}.

Definition audio_stream (d : Q) : stream_json :=
  {| stream_duration := Value d; stream_width := Missing;
     stream_height := Missing |}.

Definition probe_of (video audio : list stream_json) (fmt : field Q)
    (sel : select_streams) : outcome probe_json :=
  Returned {| streams := match sel with
                         | select_v => video
                         | select_a => audio
                         | select_all => video ++ audio
                         end;
              format_duration := fmt |}.

Definition is_wrapper_path (p : string) : bool :=
  String.prefix "/out/temp_img_" p.

(** [wrapper] is what probing a wrapper answers. *)
Definition studio_probe (wrapper : select_streams -> outcome probe_json)
    (p : string) (sel : select_streams) : outcome probe_json :=
  if String.eqb p "/in/intro.mp4" then
    probe_of [video_stream 6 640 480] [audio_stream 6] (Value 6%Q) sel
  else if String.eqb p "/in/outro.mp4" then
    probe_of [video_stream 4 1280 720] [] (Value 4%Q) sel
  else if String.eqb p "/in/music.mp3" then
    probe_of [] [audio_stream 30] (Value 30%Q) sel
  else if is_wrapper_path p then wrapper sel
  else Raised (FfmpegError "Invalid data found when processing input").

Definition wrote (size : Z) : run_result :=
  {| written := Some size; ended := Returned "" |}.

(** Every conversion and the encoding succeed; wrappers probe as 5 s. *)
Definition studio : world := {|
  probe := studio_probe (probe_of [video_stream 5 1280 720] [] (Value 5%Q));
  convert_image := fun _ _ => wrote 20000;
  encode := fun _ _ _ => wrote 90000;
  removable := fun _ => true;
|}.

(** The probe of a wrapper finds no duration. *)
Definition studio_unprobed : world := {|
  probe := studio_probe
             (probe_of [{| stream_duration := Missing;
                           stream_width := Value 1280%Z;
                           stream_height := Value 720%Z |}] [] Missing);
  convert_image := fun _ _ => wrote 20000;
  encode := fun _ _ _ => wrote 90000;
  removable := fun _ => true;
|}.

(** The user interrupts the conversion of [/in/b.png]. *)
Definition studio_interrupted : world := {|
  probe := studio_probe (probe_of [video_stream 5 1280 720] [] (Value 5%Q));
  convert_image := fun image _ =>
    if String.eqb image "/in/b.png"
    then {| written := None; ended := Raised KeyboardInterrupt |}
    else wrote 20000;
  encode := fun _ _ _ => wrote 90000;
  removable := fun _ => true;
|}.

(** The conversion of [/in/b.png] fails and leaves an empty file. *)
Definition studio_failed_conversion : world := {|
  probe := studio_probe (probe_of [video_stream 5 1280 720] [] (Value 5%Q));
  convert_image := fun image _ =>
    if String.eqb image "/in/b.png"
    then {| written := Some 0%Z;
            ended := Raised (FfmpegError "Conversion failed!") |}
    else wrote 20000;
  encode := fun _ _ _ => wrote 90000;
  removable := fun _ => true;
|}.

Definition studio_files : state := {|
  disk := {[ "/in/intro.mp4" := 250000%Z; "/in/outro.mp4" := 180000%Z;
             "/in/a.png" := 40000%Z; "/in/b.png" := 40000%Z;
             "/in/music.mp3" := 900000%Z ]};
  console := [];
  ffmpeg_runs := [];
|}.


(** Charts are to be shown for 5 ms. *)
Definition flash_config : config := {|
  transition_duration := 0.6%Q;
  default_chart_duration := 0.005%Q;
  target_width := 1280;
  target_height := 720;
  target_fps := 25;
  bg_music_path := None;
  bg_music_volume := 0.08%Q;
|}.

Definition music_config : config := {|
  transition_duration := 0.6%Q;
  default_chart_duration := 5.0%Q;
  target_width := 1280;
  target_height := 720;
  target_fps := 25;
  bg_music_path := Some "/in/music.mp3";
  bg_music_volume := 0.08%Q;
|}.

(** An intro, a chart and an outro. *)
Definition three_assets : list string :=
  ["/in/intro.mp4"; "/in/a.png"; "/in/outro.mp4"].

(** The clips a run of the filter kept (none if it was interrupted). *)
Definition kept (cfg : config) (r : outcome filtered * state) : filtered :=
  match fst r with
  | Returned st => st
  | Raised _ => nothing_filtered cfg
  end.




(** A silent clip of the given name and duration, of the default size. *)
Definition silent_clip {T : Type} (path : string) (duration : T)
    : @Composer.clip_info T :=
  {| info_path := path; info_duration := duration;
     info_width := 1280; info_height := 720;
     info_has_audio := false; info_is_temp := false |}.


(** A silent clip of 0.717 s followed by one of 4 s. *)
Definition brief_then_long (T : Type) `{PyFloat T}
    : list (@Composer.clip_info T) :=
  [silent_clip "/clips/brief.mp4" (flit 0.717);
   silent_clip "/clips/long.mp4" (flit 4)].

(** The outro as the filter records it. *)
Definition outro_clip : clip_info :=
  {| info_path := "/in/outro.mp4"; info_duration := 4%Q;
     info_width := 1280; info_height := 720;
     info_has_audio := false; info_is_temp := false |}.


(** ** Notions used by the further properties *)

(** *** What the prober read *)

(** A ['duration'] entry that gives no positive duration. *)
Definition lacks_duration (f : field Q) : bool :=
  match f with
  | Missing => true
  | Value q => Qle_bool q 0
  | Unreadable => false
  end.

Definition stream_lacks_duration (o : option stream_json) : bool :=
  match o with
  | None => true
  | Some st => lacks_duration (stream_duration st)
  end.

(** *** The effect of the clean-up *)

(** A listed path that is on disk and that [os.remove] cannot remove. *)
Definition stuck (w : world) (d : gmap string Z) (p : string) : bool :=
  (bool_decide (is_Some (d !! p)) && negb (removable w p))%bool.

(** The disk once the removable ones of the listed files are gone. *)
Definition swept (w : world) (l : list string) (d : gmap string Z)
    (q : string) : option Z :=
  if (bool_decide (q ∈ l) && removable w q)%bool then None else d !! q.

(** *** Wrapper paths *)

(** [c.isdigit()] on ASCII. *)
Definition is_digit (c : ascii) : bool :=
  let n := nat_of_ascii c in ((48 <=? n) && (n <=? 57))%nat.

(** A character that is neither a path separator nor a dot. *)
Definition plain (c : ascii) : bool :=
  (negb (is_slash c) && negb (is_dot c))%bool.

(** [safe_base] of a base name, as in [temp_video_path_of]. *)
Definition safe_base_of (base_name : string) : list ascii :=
  take 50 (map (fun c => if isalnum c then c else "_"%char)
               (list_ascii_of_string base_name)).

(** The file name of a wrapper. *)
Definition temp_video_name (i : nat) (base_name : string) : list ascii :=
  list_ascii_of_string "temp_img_" ++ list_ascii_of_string (pretty i)
  ++ ["_"%char] ++ safe_base_of base_name ++ list_ascii_of_string ".mp4".

(** What [join] puts before a relative file name. *)
Definition dir_prefix (output_dir : string) : list ascii :=
  let la := list_ascii_of_string output_dir in
  if (bool_decide (la = []) || existsb is_slash (take 1 (rev la)))%bool
  then la else la ++ [slash].

(** The part of a wrapper's name before its extension. *)
Definition temp_video_stem (i : nat) (base_name : string) : list ascii :=
  list_ascii_of_string "temp_img_" ++ list_ascii_of_string (pretty i)
  ++ ["_"%char] ++ safe_base_of base_name.

(** A directory prefix is empty or ends with a separator. *)
Definition closed_prefix (P : list ascii) : Prop :=
  P = [] \/ exists P', P = P' ++ [slash].

(** What [dirname] returns: separators only, or a path that does not end
    with one. *)
Definition normal_dir (la : list ascii) : Prop :=
  forallb is_slash la = true
  \/ exists la' c, la = la' ++ [c] /\ is_slash c = false.

(** *** Where a kept clip comes from *)

(** [abs_input_path and os.path.exists(abs_input_path)] in state [s]. *)
Definition present_at (s : state) (path : string) : bool :=
  (negb (bool_decide (path = ""))
   && bool_decide (is_Some (disk s !! path)))%bool.

(** The file a clip is read from when the [i]-th path is kept: the path
    itself for a video, the wrapper for an image. *)
Definition clip_source (output_dir : string) (i : nat) (path : string)
    : string :=
  if is_image_path path
  then temp_video_path_of output_dir i (basename path)
  else path.

Fixpoint sources_from (output_dir : string) (i : nat) (l : list string)
    : list string :=
  match l with
  | [] => []
  | p :: l' => clip_source output_dir i p :: sources_from output_dir (S i) l'
  end.

(** The conversion of each image among the paths, in order. *)
Fixpoint conversions_from (output_dir : string) (i : nat) (l : list string)
    : list ffmpeg_run :=
  match l with
  | [] => []
  | p :: l' =>
      (if is_image_path p
       then [RunConvert p (temp_video_path_of output_dir i (basename p))]
       else [])
      ++ conversions_from output_dir (S i) l'
  end.

(** The wrapper paths of the images among the paths, in order. *)
Fixpoint wrappers_from (output_dir : string) (i : nat) (l : list string)
    : list string :=
  match l with
  | [] => []
  | p :: l' =>
      (if is_image_path p
       then [temp_video_path_of output_dir i (basename p)]
       else [])
      ++ wrappers_from output_dir (S i) l'
  end.

(** The entry of [inputs_info] for a wrapper. *)
Definition wrapper_clip (cfg : config) (temp_video_path : string)
    (duration : Q) : clip_info :=
  {| info_path := temp_video_path; info_duration := duration;
     info_width := target_width cfg; info_height := target_height cfg;
     info_has_audio := false; info_is_temp := true |}.

(** *** What a stream reads *)

(** The inputs a video stream reads, left to right: path and [t]. *)
Fixpoint video_sources (v : vstream) : list (string * Q) :=
  match v with
  | VInput p t => [(p, t)]
  | VScale _ _ s | VPad _ _ s | VFps _ s | VSetsar s | VFormat s =>
      video_sources s
  | VXfade _ _ a b => video_sources a ++ video_sources b
  end.

(** The cross-fades of a video stream, innermost first: duration and
    offset. *)
Fixpoint xfades (v : vstream) : list (Q * Q) :=
  match v with
  | VInput _ _ => []
  | VScale _ _ s | VPad _ _ s | VFps _ s | VSetsar s | VFormat s => xfades s
  | VXfade d o a b => xfades a ++ xfades b ++ [(d, o)]
  end.

(** Where an audio stream takes its samples from. *)
Inductive audio_source :=
| FromFile (path : string) (t : Q)
| Silence (t : Q)
| Music (path : string) (stream_loop : Z).

Fixpoint audio_sources (a : astream) : list audio_source :=
  match a with
  | AInput p t => [FromFile p t]
  | ASilence t => [Silence t]
  | ALooped p stream_loop => [Music p stream_loop]
  | AFormat s | AResample s | AVolume _ s | ADelay _ _ s | ATrim _ s =>
      audio_sources s
  | AMix _ _ _ ss => flat_map audio_sources ss
  end.

(** What a kept clip is read as. *)
Definition clip_video_source (c : clip_info) : string * Q :=
  (info_path c, info_duration c).

Definition clip_audio_source (c : clip_info) : audio_source :=
  if info_has_audio c then FromFile (info_path c) (info_duration c)
  else Silence (info_duration c).

(** *** What fixes the resolution *)





(** *** ASCII names *)

(** A string of ASCII characters: every byte is below 128. *)
Definition is_ascii (s : string) : bool :=
  forallb (fun c => (nat_of_ascii c <? 128)%nat) (list_ascii_of_string s).

(** The sum of a list of durations. *)
Definition Qsum (l : list Q) : Q := fold_right Qplus 0%Q l.


(** Unfolding of the monad's operations, for the proofs below. *)
Ltac run_monad :=
  unfold bind, try_except, try_or_return, try_finally, lift, print, ret,
    raise, path_size, path_exists, run, remove; simpl.

(** * Facts about the timeline *)

Section TimelineUnfold.
Context {T : Type} `{PyFloat T}.

Lemma timeline_unfold (n : nat) (t : T) (ds : list T) :
  forall (i : nat) (acc : list T) (cur : T),
    for_enumerate (timeline_step n t) i ds (acc, cur)
    = (acc ++ starts_from n t i cur ds, total_from n t i cur ds).
Proof.
  induction ds as [|d ds IH]; intros i acc cur; simpl.
  - by rewrite app_nil_r.
  - rewrite IH. by rewrite <- app_assoc.
Qed.

Lemma master_timeline_rec (ds : list T) (t : T) :
  master_timeline ds t
  = (starts_from (length ds) t 0 fzero ds, total_from (length ds) t 0 fzero ds).
Proof. unfold master_timeline. by rewrite timeline_unfold. Qed.

Lemma starts_from_length (n : nat) (t : T) (ds : list T) :
  forall i cur, length (starts_from n t i cur ds) = length ds.
Proof. induction ds as [|d ds IH]; intros; simpl; [done | by rewrite IH]. Qed.

(** Consecutive entries differ by the effective duration of the earlier
    clip. *)
Lemma starts_from_succ (n : nat) (t : T) (ds : list T) :
  forall i cur k a d,
    starts_from n t i cur ds !! k = Some a ->
    ds !! k = Some d ->
    (S k < length ds)%nat ->
    starts_from n t i cur ds !! S k
    = Some (fadd a (clip_effective_duration n t (i + k) d)).
Proof.
  induction ds as [|d0 ds IH]; intros i cur k a d Ha Hd Hlt; [done|].
  destruct k as [|k]; simpl in *.
  - injection Ha as <-. injection Hd as <-.
    destruct ds as [|d1 ds]; [simpl in Hlt; lia|].
    simpl. by rewrite Nat.add_0_r.
  - rewrite (IH (S i) _ k a d Ha Hd); [|lia].
    do 3 f_equal. lia.
Qed.

(** The total is the last start plus the effective duration of the last
    clip. *)
Lemma total_from_last (n : nat) (t : T) (ds : list T) :
  forall i cur d a,
    starts_from n t i cur (ds ++ [d]) !! length ds = Some a ->
    total_from n t i cur (ds ++ [d])
    = fadd a (clip_effective_duration n t (i + length ds) d).
Proof.
  induction ds as [|d0 ds IH]; intros i cur d a Ha; simpl in *.
  - injection Ha as <-. by rewrite Nat.add_0_r.
  - rewrite (IH _ _ _ a Ha). do 2 f_equal. lia.
Qed.
End TimelineUnfold.

Section TimelineExact.
Local Open Scope Q_scope.

Lemma fgt_exact (a b : Q) : fgt a b = true <-> b < a.
Proof.
  simpl. rewrite negb_true_iff, <- not_true_iff_false, Qle_bool_iff.
  split; intros Hab; [by apply Qnot_le_lt | by apply Qlt_not_le].
Qed.

Lemma py_max_cases (a x : Q) :
  (x <= a /\ py_max a x = a) \/ (a < x /\ py_max a x = x).
Proof.
  unfold py_max. destruct (fgt x a) eqn:E.
  - right. by apply fgt_exact in E.
  - left. split; [|done]. apply Qnot_lt_le. intros Hlt.
    apply fgt_exact in Hlt. congruence.
Qed.

Lemma py_max_ge (a x : Q) : a <= py_max a x.
Proof. destruct (py_max_cases a x) as [[? ->]|[? ->]]; lra. Qed.

Lemma py_max_id (a x : Q) : a <= x -> py_max a x == x.
Proof. destruct (py_max_cases a x) as [[? ->]|[? ->]]; lra. Qed.

Lemma effective_ge_floor (n : nat) (t : Q) (i : nat) (d : Q) :
  0.01 <= clip_effective_duration n t i d.
Proof. apply (py_max_ge 0.01). Qed.

Lemma starts_from_ge (n : nat) (t : Q) (ds : list Q) :
  forall i cur k a, starts_from n t i cur ds !! k = Some a -> cur <= a.
Proof.
  induction ds as [|d ds IH]; intros i cur k a Ha; [done|].
  destruct k as [|k]; simpl in Ha.
  - injection Ha as <-. lra.
  - apply IH in Ha. pose proof (effective_ge_floor n t i d). simpl in *. lra.
Qed.

Lemma starts_from_increasing (n : nat) (t : Q) (ds : list Q) :
  forall i cur j k a b,
    (j < k)%nat ->
    starts_from n t i cur ds !! j = Some a ->
    starts_from n t i cur ds !! k = Some b ->
    a + 0.01 <= b.
Proof.
  induction ds as [|d ds IH]; intros i cur j k a b Hjk Ha Hb; [done|].
  destruct k as [|k]; [lia|]. destruct j as [|j]; simpl in Ha, Hb.
  - injection Ha as <-. apply starts_from_ge in Hb.
    pose proof (effective_ge_floor n t i d). simpl in *. lra.
  - eapply IH; [|exact Ha|exact Hb]. lia.
Qed.

Lemma starts_from_monotone (n : nat) (t : Q) (ds : list Q) i cur j k a b :
  (j <= k)%nat ->
  starts_from n t i cur ds !! j = Some a ->
  starts_from n t i cur ds !! k = Some b ->
  a <= b.
Proof.
  intros Hjk Ha Hb. destruct (decide (j = k)) as [->|Hne].
  - rewrite Ha in Hb. injection Hb as <-. lra.
  - pose proof (starts_from_increasing n t ds i cur j k a b). 
    assert (a + 0.01 <= b) by (apply H; [lia|done|done]). lra.
Qed.

Lemma clip_start_times_length (ds : list Q) (t : Q) :
  length (clip_start_times ds t) = length ds.
Proof.
  unfold clip_start_times. rewrite master_timeline_rec. apply starts_from_length.
Qed.

Lemma clip_start_times_head (ds : list Q) (t : Q) :
  ds <> [] -> clip_start_times ds t !! 0%nat = Some 0.
Proof.
  unfold clip_start_times. rewrite master_timeline_rec. by destruct ds.
Qed.

Lemma clip_start_times_succ (ds : list Q) (t : Q) (i : nat) (a d : Q) :
  clip_start_times ds t !! i = Some a -> ds !! i = Some d ->
  (S i < length ds)%nat ->
  clip_start_times ds t !! S i = Some (a + py_max 0.01 (d - t)).
Proof.
  unfold clip_start_times. rewrite master_timeline_rec. simpl fst.
  intros Ha Hd Hlt.
  rewrite (starts_from_succ _ _ _ 0 0 i a d Ha Hd Hlt).
  unfold clip_effective_duration. simpl (0 + i)%nat.
  replace (i <? length ds - 1)%nat with true
    by (symmetry; apply Nat.ltb_lt; lia).
  done.
Qed.

Lemma clip_start_times_monotone (ds : list Q) (t : Q) (i j : nat) (a b : Q) :
  (i <= j)%nat ->
  clip_start_times ds t !! i = Some a -> clip_start_times ds t !! j = Some b ->
  a <= b.
Proof.
  unfold clip_start_times. rewrite master_timeline_rec.
  apply starts_from_monotone.
Qed.

Lemma final_duration_last (ds : list Q) (t : Q) (a d : Q) :
  clip_start_times ds t !! (length ds - 1)%nat = Some a ->
  ds !! (length ds - 1)%nat = Some d ->
  final_duration_estimate ds t = a + py_max 0.01 (d - 0).
Proof.
  unfold clip_start_times, final_duration_estimate.
  rewrite master_timeline_rec. simpl fst. simpl snd. intros Ha Hd.
  destruct (decide (ds = [])) as [->|Hne]; [done|].
  destruct (exists_last Hne) as (ds' & dl & ->).
  assert (Hidx : (length (ds' ++ [dl]) - 1)%nat = length ds')
    by (rewrite length_app; simpl; lia).
  rewrite Hidx in Ha, Hd.
  rewrite list_lookup_middle in Hd by done. injection Hd as ->.
  rewrite (total_from_last _ _ _ _ _ _ a Ha).
  unfold clip_effective_duration. simpl (0 + _)%nat. rewrite Hidx.
  by rewrite Nat.ltb_irrefl.
Qed.

Lemma final_duration_last_unfloored (ds : list Q) (t : Q) (a d : Q) :
  clip_start_times ds t !! (length ds - 1)%nat = Some a ->
  ds !! (length ds - 1)%nat = Some d ->
  0.01 <= d ->
  final_duration_estimate ds t == a + d.
Proof.
  intros Ha Hd Hfl. rewrite (final_duration_last ds t a d Ha Hd).
  assert (H0 : 0.01 <= d - 0) by lra.
  pose proof (py_max_id 0.01 (d - 0) H0). simpl in *. lra.
Qed.

End TimelineExact.

Section UniformClips.
Local Open Scope Q_scope.


Lemma Qnat_S (n : nat) : Qnat (S n) == Qnat n + 1.
Proof.
  unfold Qnat. rewrite Nat2Z.inj_succ. unfold Z.succ.
  by rewrite inject_Z_plus.
Qed.

Lemma effective_inner (n : nat) (t : Q) (i : nat) (d : Q) :
  (i < n - 1)%nat -> 0.01 <= d - t ->
  clip_effective_duration n t i d == d - t.
Proof.
  intros Hi Hfl. unfold clip_effective_duration.
  replace (i <? n - 1)%nat with true by (symmetry; by apply Nat.ltb_lt).
  by apply (py_max_id 0.01).
Qed.

Lemma effective_last (n : nat) (t : Q) (i : nat) (d : Q) :
  (n - 1 <= i)%nat -> 0.01 <= d ->
  clip_effective_duration n t i d == d.
Proof.
  intros Hi Hfl. unfold clip_effective_duration.
  replace (i <? n - 1)%nat with false by (symmetry; by apply Nat.ltb_ge).
  assert (H0 : 0.01 <= d - 0) by lra.
  pose proof (py_max_id 0.01 (d - 0) H0). simpl in *. lra.
Qed.

Lemma uniform_total_from (n : nat) (d t : Q) :
  0.01 <= d -> 0.01 <= d - t ->
  forall m i cur,
    (i + S m = n)%nat ->
    total_from n t i cur (replicate (S m) d) == cur + Qnat m * (d - t) + d.
Proof.
  intros Hd Hdt. induction m as [|m IH]; intros i cur Hn.
  - simpl. rewrite (effective_last n t i d) by (done || lia).
    change (Qnat 0) with 0. lra.
  - change (replicate (S (S m)) d) with (d :: replicate (S m) d).
    cbn [total_from]. rewrite IH by lia.
    rewrite (effective_inner n t i d) by (done || lia).
    rewrite Qnat_S. cbn [fadd exact]. ring.
Qed.

Lemma uniform_starts_from (n : nat) (d t : Q) :
  0.01 <= d - t ->
  forall m i cur k a,
    (i + m = n)%nat ->
    starts_from n t i cur (replicate m d) !! k = Some a ->
    a == cur + Qnat k * (d - t).
Proof.
  intros Hdt. induction m as [|m IH]; intros i cur k a Hn Ha; [done|].
  destruct k as [|k]; simpl in Ha.
  - injection Ha as <-. change (Qnat 0) with 0. lra.
  - assert (Hk : (k < m)%nat).
    { apply lookup_lt_Some in Ha.
      by rewrite starts_from_length, length_replicate in Ha. }
    apply IH in Ha; [|lia]. rewrite Ha.
    rewrite (effective_inner n t i d) by (done || lia).
    rewrite Qnat_S. cbn [fadd exact]. ring.
Qed.

(** C3 (as amended): for [n >= 1] clips of one duration [d] and a
    transition [t] with [d >= 0.01] and [d - t >= 0.01] (the floor does not
    bind), the total is [n*d - (n-1)*t] and clip [i] starts at [i*(d - t)];
    three clips of 6 s with a transition of 1 s start at 0, 5 and 10 and
    total 16 s, in exact arithmetic and in binary64 alike. *)
Theorem uniform_total_duration (n : nat) (d t : Q) :
  (0 < n)%nat -> 0.01 <= d -> 0.01 <= d - t ->
  final_duration_estimate (replicate n d) t == Qnat n * d - (Qnat n - 1) * t
  /\ (forall i a, clip_start_times (replicate n d) t !! i = Some a ->
                  a == Qnat i * (d - t))
  /\ master_timeline [6; 6; 6] 1 = ([0; 5; 10], 16)
  /\ master_timeline [6; 6; 6]%float 1%float
     = ([0; 5; 10]%float, 16%float).
Proof.
  intros Hn Hd Hdt.
  unfold clip_start_times, final_duration_estimate.
  rewrite master_timeline_rec, length_replicate. simpl fst. simpl snd.
  split; [|split; [|split]].
  - destruct n as [|m]; [lia|].
    rewrite (uniform_total_from (S m) d t Hd Hdt m 0 0) by lia.
    rewrite Qnat_S. cbn [fzero exact]. ring.
  - intros i a Ha.
    rewrite (uniform_starts_from n d t Hdt n 0 0 i a) by (lia || done).
    cbn [fzero exact]. ring.
  - by vm_compute.
  - by vm_compute.
Qed.

Lemma uniform_total_duration_witness :
  final_duration_estimate (replicate 3 6) 1 == Qnat 3 * 6 - (Qnat 3 - 1) * 1
  /\ (forall i a, clip_start_times (replicate 3 6) 1 !! i = Some a ->
                  a == Qnat i * (6 - 1))
  /\ master_timeline [6; 6; 6] 1 = ([0; 5; 10], 16)
  /\ master_timeline [6; 6; 6]%float 1%float
     = ([0; 5; 10]%float, 16%float).
Proof.
  apply (uniform_total_duration 3 6 1); [lia | by vm_compute | by vm_compute].
Defined.

(** Two clips of 1 s joined by a transition of 0.995 s (shorter than the
    clips): the scheduler's total is 1.01 s, the formula gives 1.005 s. *)
Lemma uniform_total_floor_binds :
  0.995 < 1
  /\ final_duration_estimate (replicate 2 1) 0.995 == 1.01
  /\ Qnat 2 * 1 - (Qnat 2 - 1) * 0.995 == 1.005
  /\ ~ final_duration_estimate (replicate 2 1) 0.995
       == Qnat 2 * 1 - (Qnat 2 - 1) * 0.995.
Proof. repeat split; vm_compute; congruence. Qed.
End UniformClips.

(** * Facts about the filtergraph *)

Section BuildFacts.
Local Open Scope Q_scope.
Variables (target_width target_height target_fps : Z).
Variable starts : list Q.

Lemma build_unfold (infos : list clip_info) :
  forall i vs aus,
    (i + length infos <= length starts)%nat ->
    for_enumerateO (build_step target_width target_height target_fps starts)
                   i infos (vs, aus)
    = Returned
        (vs ++ map (processed_video_of target_width target_height target_fps)
                   infos,
         aus ++ delayed_from starts i infos).
Proof.
  induction infos as [|info infos IH]; intros i vs aus Hlen; simpl.
  - by rewrite !app_nil_r.
  - simpl in Hlen. unfold index.
    destruct (starts !! i) as [start|] eqn:E.
    2:{ apply lookup_ge_None in E. lia. }
    simpl. rewrite IH by lia. rewrite <- !app_assoc. simpl.
    unfold delayed_audio_at. by rewrite E.
Qed.

Lemma build_streams_returns (infos : list clip_info) :
  length starts = length infos ->
  build_streams target_width target_height target_fps starts infos
  = Returned
      (map (processed_video_of target_width target_height target_fps) infos,
       delayed_from starts 0 infos).
Proof.
  intros Hlen. unfold build_streams. rewrite build_unfold by (simpl; lia).
  done.
Qed.

Lemma delayed_from_length (infos : list clip_info) :
  forall i, length (delayed_from starts i infos) = length infos.
Proof. induction infos as [|? ? IH]; intros; simpl; [done | by rewrite IH]. Qed.

Lemma delayed_from_lookup (infos : list clip_info) :
  forall i k info,
    infos !! k = Some info ->
    delayed_from starts i infos !! k
    = Some (delayed_audio_at starts (i + k) info).
Proof.
  induction infos as [|info0 infos IH]; intros i k info Hk; [done|].
  destruct k as [|k]; simpl in *.
  - injection Hk as ->. by rewrite Nat.add_0_r.
  - rewrite (IH _ _ _ Hk). do 2 f_equal. lia.
Qed.
End BuildFacts.

Section Truncation.
Local Open Scope Q_scope.

(** On a non-negative number [int] is the floor. *)
Lemma py_int_floor (x : Q) : 0 <= x -> py_int x = Qfloor x.
Proof.
  destruct x as [num den]. unfold Qle, py_int, Qfloor. simpl.
  intros Hnum. apply Z.quot_div_nonneg; lia.
Qed.

Lemma py_int_bounds (x : Q) :
  0 <= x -> inject_Z (py_int x) <= x /\ x < inject_Z (py_int x) + 1.
Proof.
  intros Hx. rewrite (py_int_floor x Hx). split; [apply Qfloor_le|].
  pose proof (Qlt_floor x) as Hlt. by rewrite inject_Z_plus in Hlt.
Qed.

(** Without rounding the delay is the truncated product. *)
Lemma start_time_ms_exact (start : Q) :
  start_time_ms_of start = Returned (py_int (start * 1000)).
Proof. reflexivity. Qed.

Lemma exact_truncates : truncates Q.
Proof. intros x k Hk Hx. injection Hk as <-. by apply py_int_bounds. Qed.

Lemma clip_start_nonneg (ds : list Q) (t : Q) (i : nat) (a : Q) :
  clip_start_times ds t !! i = Some a -> 0 <= a.
Proof.
  unfold clip_start_times. rewrite master_timeline_rec. simpl.
  apply starts_from_ge.
Qed.

End Truncation.

Section TruncationBinary64.
Local Open Scope Z_scope.

Lemma floor_of_quotient (m : positive) (n : Z) :
  0 < n ->
  (inject_Z (Z.pos m / 2 ^ n) <= Z.pos m # 2 ^ Z.to_pos n)%Q
  /\ (Z.pos m # 2 ^ Z.to_pos n < inject_Z (Z.pos m / 2 ^ n) + 1)%Q.
Proof.
  intros Hn.
  assert (Hden : Z.pos (2 ^ Z.to_pos n) = 2 ^ n)
    by (rewrite Pos2Z.inj_pow, Z2Pos.id by lia; done).
  assert (Hpos : 0 < 2 ^ n) by (apply Z.pow_pos_nonneg; lia).
  pose proof (Z.mul_div_le (Z.pos m) (2 ^ n) Hpos) as Hlo.
  pose proof (Z.mul_succ_div_gt (Z.pos m) (2 ^ n) Hpos) as Hhi.
  split.
  - unfold Qle. cbn [Qnum Qden inject_Z]. rewrite Hden. lia.
  - unfold Qlt, Qplus. cbn [Qnum Qden inject_Z]. rewrite Hden.
    change (Z.pos (1 * 1)) with 1. lia.
Qed.

(** [int] of a double is the integer part of the number it stands for. *)
Lemma binary64_truncates : truncates float.
Proof.
  intros x k Hk Hx. cbn [ftrunc fvalue binary64] in Hk, Hx |- *.
  unfold float_trunc in Hk. unfold float_value in Hx |- *.
  destruct (Prim2SF x) as [s|s| |s m e]; try discriminate.
  - injection Hk as <-. split; [apply Qle_refl | reflexivity].
  - destruct s.
    + exfalso. destruct (0 <=? e) eqn:E.
      * assert (0 < Z.pos m * 2 ^ e).
        { apply Z.leb_le in E. apply Z.mul_pos_pos; [lia|].
          by apply Z.pow_pos_nonneg. }
        unfold Qle in Hx. simpl in Hx. lia.
      * unfold Qle in Hx. simpl in Hx. lia.
    + destruct (0 <=? e) eqn:E.
      * injection Hk as <-. split; [apply Qle_refl|].
        unfold Qlt, Qplus. cbn [Qnum Qden inject_Z].
        change (Z.pos (1 * 1)) with 1. lia.
      * injection Hk as <-. apply Z.leb_gt in E.
        apply floor_of_quotient. lia.
Qed.
End TruncationBinary64.

(** * Facts about the filtergraph, in every arithmetic *)

Section BuildEvery.
Context {T : Type} `{PyFloat T}.
Local Abbreviation clip_info := (@Composer.clip_info T).
Local Abbreviation vstream := (@Composer.vstream T).
Local Abbreviation astream := (@Composer.astream T).
Variables (target_width target_height target_fps : Z).
Variable starts : list T.

Lemma timeline_length (ds : list T) (t : T) :
  length (clip_start_times ds t) = length ds.
Proof.
  unfold clip_start_times. rewrite master_timeline_rec. apply starts_from_length.
Qed.

(** The loop returns when every delay can be computed; it then appends, for
    each clip, its processed video stream and its audio source delayed on
    both channels by [int(start * 1000)] milliseconds. *)
Lemma build_unfold_every (infos : list clip_info) :
  forall (i : nat) (vs : list vstream) (aus : list astream),
    delays_defined starts ->
    (i + length infos <= length starts)%nat ->
    exists ds,
      for_enumerateO (build_step target_width target_height target_fps starts)
                     i infos (vs, aus)
      = Returned
          (vs ++ map (processed_video_of target_width target_height target_fps)
                     infos,
           aus ++ ds)
      /\ length ds = length infos
      /\ forall k info,
           infos !! k = Some info ->
           exists start ms,
             starts !! (i + k)%nat = Some start
             /\ start_time_ms_of start = Returned ms
             /\ ds !! k = Some (ADelay ms ms (audio_source_of info)).
Proof.
  induction infos as [|info infos IH]; intros i vs aus Hdef Hlen.
  - exists []. simpl. rewrite !app_nil_r. split; [done|]. split; [done|].
    intros k info Hk. done.
  - simpl in Hlen.
    destruct (starts !! i) as [start|] eqn:E.
    2:{ apply lookup_ge_None in E. lia. }
    destruct (Hdef i start E) as [ms Hms].
    destruct (IH (S i)
                (vs ++ [processed_video_of target_width target_height
                                           target_fps info])
                (aus ++ [ADelay ms ms (audio_source_of info)]) Hdef)
      as (ds & Hrun & Hds & Hat); [lia|].
    exists (ADelay ms ms (audio_source_of info) :: ds).
    split; [|split].
    + cbn [for_enumerateO]. unfold build_step at 1, index. rewrite E.
      cbn [obind]. rewrite Hms. cbn [obind]. rewrite Hrun.
      by rewrite <- !app_assoc.
    + simpl. by rewrite Hds.
    + intros [|k] info' Hk; simpl in Hk.
      * injection Hk as <-. exists start, ms. rewrite Nat.add_0_r. done.
      * destruct (Hat k info' Hk) as (start' & ms' & Hs' & Hms' & Hk').
        exists start', ms'. split; [|done].
        by replace (i + S k)%nat with (S i + k)%nat by lia.
Qed.

Lemma build_streams_every (infos : list clip_info) :
  delays_defined starts ->
  length starts = length infos ->
  exists aus,
    build_streams target_width target_height target_fps starts infos
    = Returned
        (map (processed_video_of target_width target_height target_fps) infos,
         aus)
    /\ length aus = length infos
    /\ forall i info,
         infos !! i = Some info ->
         exists start ms,
           starts !! i = Some start
           /\ start_time_ms_of start = Returned ms
           /\ aus !! i = Some (ADelay ms ms (audio_source_of info)).
Proof.
  intros Hdef Hlen.
  destruct (build_unfold_every infos 0 [] [] Hdef) as (ds & Hrun & Hds & Hat);
    [simpl; lia|].
  exists ds. split; [exact Hrun|]. split; [done|]. exact Hat.
Qed.
End BuildEvery.

Section TransitionsEvery.
Context {T : Type} `{PyFloat T}.
Local Abbreviation vstream := (@Composer.vstream T).
Local Abbreviation astream := (@Composer.astream T).
Variable transition_duration : T.
Variable starts : list T.
Variable vs : list vstream.

Lemma xfade_chain_returns (m : nat) :
  forall a v,
    (a + m <= length starts)%nat -> (a + m <= length vs)%nat ->
    exists v',
      fold_left (xfade_step transition_duration starts vs) (seq a m)
                (Returned v) = Returned v'.
Proof.
  induction m as [|m IH]; intros a v Hs Hv; simpl; [by eexists|].
  unfold index.
  destruct (starts !! a) as [o|] eqn:Eo.
  2:{ apply lookup_ge_None in Eo. lia. }
  destruct (vs !! a) as [vi|] eqn:Ev.
  2:{ apply lookup_ge_None in Ev. lia. }
  simpl. apply IH; lia.
Qed.

Lemma apply_transitions_mix (n : nat) (aus : list astream) :
  (2 <= n)%nat -> length starts = n -> length vs = n ->
  exists pv,
    apply_transitions transition_duration n starts vs aus
    = Returned (Some (pv, AMix (length aus) Longest None aus)).
Proof.
  intros Hn Hs Hv. unfold apply_transitions.
  replace (1 <? n)%nat with true by (symmetry; apply Nat.ltb_lt; lia).
  unfold index at 1. destruct (vs !! 0%nat) as [v0|] eqn:E0.
  2:{ apply lookup_ge_None in E0. lia. }
  destruct (xfade_chain_returns (n - 1) 1 v0) as [pv Hpv]; [lia..|].
  rewrite Hpv. simpl. by exists pv.
Qed.
End TransitionsEvery.

Section MixEvery.
Context {T : Type} `{PyFloat T}.
Local Abbreviation clip_info := (@Composer.clip_info T).
Local Abbreviation astream := (@Composer.astream T).
Local Open Scope Q_scope.
Variable audio_length : string -> Q.




End MixEvery.

Section AudioTrack.
Context {T : Type} `{PyFloat T}.
Local Abbreviation clip_info := (@Composer.clip_info T).
Local Open Scope Q_scope.

(** C10 (as amended): the audio of clip [i] is delayed, on both channels
    alike, by [int(start * 1000)] milliseconds, where [start] is the clip's
    scheduled offset and the product is the one the arithmetic computes;
    the builder returns as long as every such delay can be computed.  The
    delay is the integer part of the computed product.  Whenever that
    product is exact, as it is without rounding, the delay is at most the
    offset and less than a millisecond below it. *)
Theorem audio_delay_is_truncated_offset (infos : list clip_info) (t : T)
    (tw th fps : Z) :
  truncates T ->
  let starts := clip_start_times (map info_duration infos) t in
  delays_defined starts ->
  exists vs aus,
    build_streams tw th fps starts infos = Returned (vs, aus)
    /\ forall i info,
         infos !! i = Some info ->
         exists start ms,
           starts !! i = Some start
           /\ start_time_ms_of start = Returned ms
           /\ aus !! i = Some (ADelay ms ms (audio_source_of info))
           /\ (0 <= fvalue (fmul start (flit 1000)) ->
               inject_Z ms <= fvalue (fmul start (flit 1000))
               /\ fvalue (fmul start (flit 1000)) < inject_Z ms + 1)
           /\ (fvalue (fmul start (flit 1000)) == fvalue start * 1000 ->
               0 <= fvalue start ->
               inject_Z ms / 1000 <= fvalue start
               /\ fvalue start < (inject_Z ms + 1) / 1000).
Proof.
  intros Htr starts Hdef.
  destruct (build_streams_every tw th fps starts infos Hdef)
    as (aus & Hrun & _ & Hat).
  { subst starts. by rewrite timeline_length, length_map. }
  eexists _, aus. split; [exact Hrun|].
  intros i info Hi. destruct (Hat i info Hi) as (start & ms & Hs & Hms & Hau).
  exists start, ms. split; [done|]. split; [done|]. split; [done|].
  assert (Hb : 0 <= fvalue (fmul start (flit 1000)) ->
               inject_Z ms <= fvalue (fmul start (flit 1000))
               /\ fvalue (fmul start (flit 1000)) < inject_Z ms + 1).
  { intros Hp. by apply (Htr _ ms Hms). }
  split; [exact Hb|].
  intros Hexact Hpos.
  destruct Hb as [Hlo Hhi]; [rewrite Hexact; nra|].
  rewrite Hexact in Hlo, Hhi. split.
  - apply Qle_shift_div_r; [done | lra].
  - apply Qlt_shift_div_l; [done | lra].
Qed.


End AudioTrack.

(** * Facts about the filtergraph, in exact arithmetic *)

Section ClipEnds.
Local Open Scope Q_scope.

Lemma py_max_ge_r (a x : Q) : x <= py_max a x.
Proof. destruct (py_max_cases a x) as [[? ->]|[? ->]]; lra. Qed.

(** The streams the composer builds for the clips [infos], on its own
    timeline. *)
Lemma build_on_timeline (infos : list clip_info) (t : Q) (tw th fps : Z) :
  let starts := clip_start_times (map info_duration infos) t in
  build_streams tw th fps starts infos
  = Returned (map (processed_video_of tw th fps) infos,
              delayed_from starts 0 infos).
Proof.
  intros starts. apply build_streams_returns. subst starts.
  by rewrite clip_start_times_length, length_map.
Qed.
End ClipEnds.
(** * Facts about the prober *)

Section Prober.
Local Open Scope Q_scope.

Lemma positive_duration_cases (f : field Q) :
  (exists e, positive_duration f = Raised e /\ is_Exception e = true)
  \/ positive_duration f = Returned None
  \/ exists d, positive_duration f = Returned (Some d) /\ f = Value d /\ 0 < d.
Proof.
  destruct f as [| |q]; simpl; [by right; left | by left; eexists |].
  destruct (negb (Qle_bool q 0)) eqn:E; [|by right; left].
  right. right. exists q. split; [done|]. split; [done|].
  by apply (fgt_exact q 0).
Qed.

Lemma probed_duration_cases (v a : option stream_json) (f : field Q) :
  (exists e, probed_duration v a f = Raised e /\ is_Exception e = true)
  \/ probed_duration v a f = Returned 0
  \/ exists d, probed_duration v a f = Returned d /\ 0 < d
               /\ (f = Value d
                   \/ (exists st, v = Some st /\ stream_duration st = Value d)
                   \/ (exists st, a = Some st /\ stream_duration st = Value d)).
Proof.
  unfold probed_duration.
  destruct v as [v|]; simpl.
  - destruct (positive_duration_cases (stream_duration v))
      as [(e & -> & He)|[->|(d & -> & Hd & Hpos)]]; simpl.
    + left. by exists e.
    + destruct a as [a|]; simpl.
      * destruct (positive_duration_cases (stream_duration a))
          as [(e & -> & He)|[->|(d & -> & Hd & Hpos)]]; simpl.
        -- left. by exists e.
        -- destruct (positive_duration_cases f)
             as [(e & -> & He)|[->|(d & -> & Hd & Hpos)]]; simpl.
           ++ left. by exists e.
           ++ by right; left.
           ++ right; right. exists d. split; [done|]. split; [done|]. by left.
        -- right; right. exists d. split; [done|]. split; [done|].
           right; right. by exists a.
      * destruct (positive_duration_cases f)
          as [(e & -> & He)|[->|(d & -> & Hd & Hpos)]]; simpl.
        -- left. by exists e.
        -- by right; left.
        -- right; right. exists d. split; [done|]. split; [done|]. by left.
    + right; right. exists d. split; [done|]. split; [done|].
      right; left. by exists v.
  - destruct a as [a|]; simpl.
    + destruct (positive_duration_cases (stream_duration a))
        as [(e & -> & He)|[->|(d & -> & Hd & Hpos)]]; simpl.
      * left. by exists e.
      * destruct (positive_duration_cases f)
          as [(e & -> & He)|[->|(d & -> & Hd & Hpos)]]; simpl.
        -- left. by exists e.
        -- by right; left.
        -- right; right. exists d. split; [done|]. split; [done|]. by left.
      * right; right. exists d. split; [done|]. split; [done|].
        right; right. by exists a.
    + destruct (positive_duration_cases f)
        as [(e & -> & He)|[->|(d & -> & Hd & Hpos)]]; simpl.
      * left. by exists e.
      * by right; left.
      * right; right. exists d. split; [done|]. split; [done|]. by left.
Qed.

Lemma probed_dimensions_cases (v : option stream_json) :
  (exists e, probed_dimensions v = Raised e /\ is_Exception e = true)
  \/ exists wd ht, probed_dimensions v = Returned (wd, ht).
Proof.
  unfold probed_dimensions. destruct v as [v|]; [|right; by eexists _, _].
  destruct (stream_width v), (stream_height v); simpl;
    try (left; eexists; split; reflexivity);
    try case_match; right; by eexists _, _.
Qed.
End Prober.

Section ProberTotal.
Local Open Scope Q_scope.


Lemma contract_unusable (w : world) (filepath : string) (s : state)
    (m : message) :
  is_filter_message m = true ->
  prober_contract w filepath s (Returned unusable)
    {| disk := disk s; console := console s ++ [m];
       ffmpeg_runs := ffmpeg_runs s |}.
Proof.
  intros Hm. unfold prober_contract. simpl. repeat split; try done.
  - right. by exists m.
  - intros info [= <-]. left. split; [done|]. by eexists.
  - by eexists.
Qed.

Lemma contract_raised (w : world) (filepath : string) (s : state)
    (e : exn) (sel : select_streams) (size : Z) :
  bool_decide (filepath = "") = false ->
  disk s !! filepath = Some size -> (size <? 100)%Z = false ->
  probe w filepath sel = Raised e -> is_Exception e = false ->
  prober_contract w filepath s (Raised e) s.
Proof.
  intros Hne Hsize Hbig Hprobe He. unfold prober_contract.
  apply bool_decide_eq_false in Hne. apply Z.ltb_ge in Hbig.
  repeat split; try done.
  - by left.
  - intros [?|Hnone]; [done|]. by rewrite Hsize in Hnone.
  - intros size' Hs' Hlt. rewrite Hsize in Hs'. injection Hs' as <-. lia.
  - by injection H as <-.
  - injection H as <-. by exists sel.
  - intros Hall. specialize (Hall sel e Hprobe). congruence.
Qed.

Lemma contract_usable (w : world) (filepath : string) (s : state)
    (d : Q) (wd ht : option Z) (a : bool) (size : Z)
    (sel : select_streams) (pj : probe_json) :
  bool_decide (filepath = "") = false ->
  disk s !! filepath = Some size -> (size <? 100)%Z = false ->
  0.01 < d -> probe w filepath sel = Returned pj -> reports_duration pj d ->
  prober_contract w filepath s (Returned (Some d, wd, ht, a)) s.
Proof.
  intros Hne Hsize Hbig Hd Hprobe Hrep. unfold prober_contract.
  apply bool_decide_eq_false in Hne. apply Z.ltb_ge in Hbig.
  repeat split; try done.
  - by left.
  - intros info [= <-]. right. exists d, wd, ht, a.
    repeat split; try done. by exists sel, pj.
  - intros [?|Hnone]; [done|]. by rewrite Hsize in Hnone.
  - intros size' Hs' Hlt. rewrite Hsize in Hs'. injection Hs' as <-. lia.
  - by eexists.
Qed.

Ltac unusable_case :=
  eexists _, _; split; [reflexivity | by apply contract_unusable].

Lemma get_video_info_contract (w : world) (filepath : string) (s : state) :
  exists r s', get_video_info w filepath s = (r, s')
               /\ prober_contract w filepath s r s'.
Proof.
  unfold get_video_info. run_monad.
  destruct (bool_decide (filepath = "")) eqn:Eempty; [unusable_case|].
  destruct (disk s !! filepath) as [size|] eqn:Esize; [|unusable_case].
  destruct (size <? 100)%Z eqn:Ebig; [unusable_case|].
  destruct (probe w filepath select_v) as [pv|e1] eqn:Epv; simpl.
  2:{ destruct (is_Exception e1) eqn:He1; [destruct e1; unusable_case|].
      eexists _, _; split; [reflexivity|].
      by apply (contract_raised w filepath s e1 select_v size). }
  destruct (probe w filepath select_a) as [pa|e2] eqn:Epa; simpl.
  2:{ destruct (is_Exception e2) eqn:He2; [destruct e2; unusable_case|].
      eexists _, _; split; [reflexivity|].
      by apply (contract_raised w filepath s e2 select_a size). }
  destruct (probe w filepath select_all) as [pf|e3] eqn:Epf; simpl.
  2:{ destruct (is_Exception e3) eqn:He3; [destruct e3; unusable_case|].
      eexists _, _; split; [reflexivity|].
      by apply (contract_raised w filepath s e3 select_all size). }
  destruct (probed_duration_cases (head (streams pv)) (head (streams pa))
              (format_duration pf))
    as [(e & -> & He)|[->|(d & -> & Hpos & Hsrc)]]; simpl.
  - rewrite He. destruct e; unusable_case.
  - destruct (probed_dimensions_cases (head (streams pv)))
      as [(e & -> & He)|(wd & ht & ->)]; simpl.
    + rewrite He. destruct e; unusable_case.
    + unusable_case.
  - destruct (probed_dimensions_cases (head (streams pv)))
      as [(e & -> & He)|(wd & ht & ->)]; simpl.
    + rewrite He. destruct e; unusable_case.
    + destruct (Qle_bool d 0.01) eqn:Egt; simpl; [unusable_case|].
      eexists _, _; split; [reflexivity|].
      apply not_true_iff_false in Egt. rewrite Qle_bool_iff in Egt.
      apply Qnot_le_lt in Egt.
      destruct Hsrc as [Hf|[(st & Hv & Hst)|(st & Ha & Hst)]].
      * apply (contract_usable w filepath s d wd ht _ size select_all pf);
          try done. by left.
      * apply (contract_usable w filepath s d wd ht _ size select_v pv);
          try done. right. by exists st.
      * apply (contract_usable w filepath s d wd ht _ size select_a pa);
          try done. right. by exists st.
Qed.

(** C7: [get_video_info] ends with the tuple or with the sentinel
    [(None, None, None, False)], touching neither files nor processes: the
    sentinel for an empty or missing path and for a file under 100 bytes; a
    tuple only with a probed duration above 0.01 s; an error of the probe or
    of a conversion (any [Exception]) is printed and answered by the
    sentinel.  Only an interrupt of the probe call itself passes through. *)
Theorem get_video_info_never_raises (w : world) (filepath : string)
    (s : state) :
  exists r s',
    get_video_info w filepath s = (r, s')
    /\ disk s' = disk s /\ ffmpeg_runs s' = ffmpeg_runs s
    /\ (forall info, r = Returned info ->
          (info = unusable /\ exists m, console s' = console s ++ [m])
          \/ (exists d wd ht a,
                info = (Some d, wd, ht, a) /\ 0.01 < d
                /\ console s' = console s
                /\ exists sel pj, probe w filepath sel = Returned pj
                                  /\ reports_duration pj d))
    /\ (filepath = "" \/ disk s !! filepath = None -> r = Returned unusable)
    /\ (forall size, disk s !! filepath = Some size -> (size < 100)%Z ->
                     r = Returned unusable)
    /\ (forall e, r = Raised e ->
                  is_Exception e = false
                  /\ exists sel, probe w filepath sel = Raised e)
    /\ ((forall sel e, probe w filepath sel = Raised e ->
                       is_Exception e = true) ->
        exists info, r = Returned info).
Proof.
  destruct (get_video_info_contract w filepath s) as (r & s' & Hrun & Hc).
  exists r, s'. split; [done|]. apply Hc.
Qed.
End ProberTotal.

Section FilterInvariants.
Local Open Scope Q_scope.
Variable cfg : config.

Lemma is_empty_snoc {A} (l : list A) (x : A) : is_empty (l ++ [x]) = false.
Proof. by destruct l. Qed.

Lemma consistent_start : filtered_consistent (nothing_filtered cfg).
Proof. done. Qed.

Lemma consistent_probed (st : filtered) (tmp : string) (d : Q) :
  filtered_consistent st ->
  filtered_consistent (keep_probed_wrapper cfg st tmp d).
Proof.
  intros [Ht Hv]. split; simpl.
  - by rewrite List.filter_app, map_app, Ht.
  - by rewrite is_empty_snoc.
Qed.

Lemma consistent_fallback (st : filtered) (tmp : string) :
  filtered_consistent st ->
  filtered_consistent (keep_fallback_wrapper cfg st tmp).
Proof.
  intros [Ht Hv]. split; simpl.
  - by rewrite List.filter_app, map_app, Ht.
  - by rewrite is_empty_snoc.
Qed.

Lemma consistent_video (st : filtered) (path : string) (d : Q)
    (wd ht : option Z) (a : bool) :
  filtered_consistent st ->
  filtered_consistent (fst (keep_video cfg st path d wd ht a)).
Proof.
  intros [Ht Hv]. split; simpl.
  - by rewrite List.filter_app, map_app, app_nil_r.
  - by rewrite is_empty_snoc.
Qed.

Lemma resolution_start : resolution_invariant cfg (nothing_filtered cfg).
Proof. split; [done|]. split; [by left|done]. Qed.

(** The head of a list extended at its end. *)
Lemma head_snoc {A} (l : list A) (x : A) :
  l ++ [x] = match l with [] => [x] | y :: l' => y :: (l' ++ [x]) end.
Proof. by destruct l. Qed.

Lemma resolution_probed (st : filtered) (tmp : string) (d : Q) :
  resolution_invariant cfg st ->
  resolution_invariant cfg (keep_probed_wrapper cfg st tmp d).
Proof.
  intros (Hnone & Hsome & Hhead). unfold resolution_invariant, final_dims in *.
  simpl. split; [done|]. split.
  - destruct (first_video_dims_found st) eqn:Ef.
    + destruct Hsome as [?|(c & Hin & Hv & Hc)]; [by left|].
      right. exists c. split; [|done]. apply elem_of_app. by left.
    + by left.
  - rewrite head_snoc. destruct (inputs_info st) as [|c rest]; [done|].
    intros Hv Hw Hh. destruct (Hhead Hv Hw Hh) as [-> ?]. done.
Qed.

Lemma resolution_fallback (st : filtered) (tmp : string) :
  resolution_invariant cfg st ->
  resolution_invariant cfg (keep_fallback_wrapper cfg st tmp).
Proof.
  intros (Hnone & Hsome & Hhead). unfold resolution_invariant, final_dims in *.
  simpl. split; [done|]. split.
  - destruct Hsome as [?|(c & Hin & Hv & Hc)]; [by left|].
    right. exists c. split; [|done]. apply elem_of_app. by left.
  - rewrite head_snoc. destruct (inputs_info st) as [|c rest]; [done|].
    done.
Qed.

Lemma resolution_video (st : filtered) (path : string) (d : Q)
    (wd ht : option Z) (a : bool) :
  resolution_invariant cfg st ->
  resolution_invariant cfg (fst (keep_video cfg st path d wd ht a)).
Proof.
  intros (Hnone & Hsome & Hhead). unfold resolution_invariant, final_dims in *.
  simpl.
  set (cw := dimension_or wd (target_width cfg)).
  set (ch := dimension_or ht (target_height cfg)).
  destruct (first_video_dims_found st) eqn:Ef; simpl.
  - split; [done|]. split.
    + destruct Hsome as [?|(c & Hin & Hv & Hc)]; [by left|].
      right. exists c. split; [|done]. apply elem_of_app. by left.
    + rewrite head_snoc. destruct (inputs_info st) as [|c rest]; [done|].
      done.
  - specialize (Hnone eq_refl).
    destruct (negb (cw =? 0)%Z && negb (ch =? 0)%Z)%bool eqn:Eset; simpl.
    + split; [done|]. split.
      * right. eexists. split; [apply elem_of_app; right; by left|]. done.
      * rewrite head_snoc. destruct (inputs_info st) as [|c rest]; [done|].
        intros Hv Hw Hh. destruct (Hhead Hv Hw Hh) as [? _]. done.
    + split; [done|]. split; [by left|].
      rewrite head_snoc. destruct (inputs_info st) as [|c rest].
      * simpl. intros _ Hw Hh.
        apply andb_false_iff in Eset as [E|E];
          apply negb_false_iff, Z.eqb_eq in E; done.
      * intros Hv Hw Hh. destruct (Hhead Hv Hw Hh) as [? _]. done.
Qed.

Lemma clips_ok_probed (st : filtered) (tmp : string) (d : Q) :
  0.01 < d -> Forall (clip_ok cfg) (inputs_info st) ->
  Forall (clip_ok cfg) (inputs_info (keep_probed_wrapper cfg st tmp d)).
Proof.
  intros Hd Hall. simpl. apply Forall_app. split; [done|].
  apply Forall_singleton. split; [done|]. by left.
Qed.

Lemma clips_ok_fallback (st : filtered) (tmp : string) :
  Forall (clip_ok cfg) (inputs_info st) ->
  Forall (clip_ok cfg) (inputs_info (keep_fallback_wrapper cfg st tmp)).
Proof.
  intros Hall. simpl. apply Forall_app. split; [done|].
  apply Forall_singleton. split; [done|]. by right.
Qed.

Lemma clips_ok_video (st : filtered) (path : string) (d : Q)
    (wd ht : option Z) (a : bool) :
  0.01 < d -> Forall (clip_ok cfg) (inputs_info st) ->
  Forall (clip_ok cfg)
         (inputs_info (fst (keep_video cfg st path d wd ht a))).
Proof.
  intros Hd Hall. simpl. apply Forall_app. split; [done|].
  apply Forall_singleton. split; [done|]. by left.
Qed.
End FilterInvariants.

(** * Facts about the input filter *)

Section FilterFacts.
Local Open Scope Q_scope.


Lemma extends_refl okm okr (s : state) : extends okm okr s s.
Proof. exists [], []. by rewrite !app_nil_r. Qed.

Lemma extends_trans okm okr (s1 s2 s3 : state) :
  extends okm okr s1 s2 -> extends okm okr s2 s3 -> extends okm okr s1 s3.
Proof.
  intros (m1 & r1 & Hc1 & Hm1 & Hr1 & Hk1) (m2 & r2 & Hc2 & Hm2 & Hr2 & Hk2).
  exists (m1 ++ m2), (r1 ++ r2).
  rewrite Hc2, Hc1, Hr2, Hr1, !app_assoc, !forallb_app, Hm1, Hm2, Hk1, Hk2.
  done.
Qed.

Lemma extends_print okm okr (s : state) (m : message) :
  okm m = true ->
  extends okm okr s {| disk := disk s; console := console s ++ [m];
                       ffmpeg_runs := ffmpeg_runs s |}.
Proof.
  intros Hm. exists [m], []. simpl. by rewrite Hm, app_nil_r.
Qed.

Lemma extends_disk okm okr (s : state) (d : gmap string Z) :
  extends okm okr s {| disk := d; console := console s;
                       ffmpeg_runs := ffmpeg_runs s |}.
Proof. exists [], []. simpl. by rewrite !app_nil_r. Qed.

Lemma extends_run okm okr (s : state) (d : gmap string Z) (r : ffmpeg_run) :
  okr r = true ->
  extends okm okr s {| disk := d; console := console s;
                       ffmpeg_runs := ffmpeg_runs s ++ [r] |}.
Proof. intros Hr. exists [], [r]. simpl. by rewrite Hr, app_nil_r. Qed.

Lemma extends_weaken (okm okm' : message -> bool)
    (okr okr' : ffmpeg_run -> bool) (s s' : state) :
  (forall m, okm m = true -> okm' m = true) ->
  (forall r, okr r = true -> okr' r = true) ->
  extends okm okr s s' -> extends okm' okr' s s'.
Proof.
  intros Hm Hr (msgs & runs & Hc & Hms & Hrs & Hks).
  exists msgs, runs. split; [done|]. split.
  - apply forallb_forall. intros m Hin. apply Hm.
    by apply (proj1 (forallb_forall _ _) Hms).
  - split; [done|]. apply forallb_forall. intros r Hin. apply Hr.
    by apply (proj1 (forallb_forall _ _) Hks).
Qed.

Lemma extends_no_run okm (s s' : state) :
  extends okm no_run s s' -> ffmpeg_runs s' = ffmpeg_runs s.
Proof.
  intros (msgs & runs & _ & _ & -> & Hk). destruct runs; [|done].
  by rewrite app_nil_r.
Qed.

Lemma filter_trace_refl (s : state) : filter_trace s s.
Proof. apply extends_refl. Qed.

Lemma filter_trace_trans (s1 s2 s3 : state) :
  filter_trace s1 s2 -> filter_trace s2 s3 -> filter_trace s1 s3.
Proof. apply extends_trans. Qed.

Lemma filter_trace_print (s : state) (m : message) :
  is_filter_message m = true ->
  filter_trace s {| disk := disk s; console := console s ++ [m];
                    ffmpeg_runs := ffmpeg_runs s |}.
Proof. apply extends_print. Qed.

Lemma filter_trace_print2 (s : state) (m1 m2 : message) :
  is_filter_message m1 = true -> is_filter_message m2 = true ->
  filter_trace s {| disk := disk s; console := (console s ++ [m1]) ++ [m2];
                    ffmpeg_runs := ffmpeg_runs s |}.
Proof.
  intros H1 H2. exists [m1; m2], []. simpl.
  by rewrite H1, H2, app_nil_r, <- app_assoc.
Qed.

Lemma filter_trace_run (s : state) (d : gmap string Z) (i t : string) :
  filter_trace s {| disk := d; console := console s;
                    ffmpeg_runs := ffmpeg_runs s ++ [RunConvert i t] |}.
Proof. by apply extends_run. Qed.

(** The prober either leaves the state alone or prints one of its
    warnings and answers "unusable"; it passes on nothing but an
    interrupt. *)
Lemma get_video_info_cases (w : world) (filepath : string) (s : state) :
  exists r s',
    get_video_info w filepath s = (r, s')
    /\ filter_trace s s' /\ disk s' = disk s
    /\ ((r = Returned unusable)
        \/ (exists d wd ht a, r = Returned (Some d, wd, ht, a) /\ 0.01 < d)
        \/ (exists e, r = Raised e /\ is_Exception e = false)).
Proof.
  destruct (get_video_info_contract w filepath s)
    as (r & s' & Hrun & Hshape & Hdisk & Hruns & Hret & _ & _ & Hraise & _).
  exists r, s'. split; [done|]. split.
  { destruct Hshape as [->|(m & Hm & _ & ->)];
      [apply filter_trace_refl | by apply filter_trace_print]. }
  split; [done|].
  destruct r as [info|e].
  - destruct (Hret info eq_refl)
      as [[-> _]|(d & wd & ht & a & -> & Hd & _)]; [by left|].
    right; left. by exists d, wd, ht, a.
  - right; right. exists e. split; [done|]. by apply Hraise.
Qed.


Local Opaque get_video_info keep_video keep_probed_wrapper
  keep_fallback_wrapper.

(** One iteration of the filter: an interrupt, or the state with at most
    one clip appended. *)
Lemma preprocess_step_cases (w : world) (cfg : config) (output_dir : string)
    (st : filtered) (i : nat) (path : string) (s : state) :
  exists r s',
    preprocess_step w cfg output_dir st i path s = (r, s')
    /\ filter_trace s s'
    /\ ((exists e, r = Raised e /\ is_Exception e = false)
        \/ r = Returned st
        \/ (exists tmp d,
              0.01 < d /\ r = Returned (keep_probed_wrapper cfg st tmp d))
        \/ (exists tmp, r = Returned (keep_fallback_wrapper cfg st tmp))
        \/ (exists d wd ht a,
              0.01 < d
              /\ r = Returned (fst (keep_video cfg st path d wd ht a)))).
Proof.
  unfold preprocess_step. run_monad.
  destruct (bool_decide (path = "") || negb (bool_decide (is_Some (disk s !! path))))%bool.
  { eexists _, _. split; [reflexivity|].
    split; [by apply filter_trace_print|]. by right; left. }
  destruct (is_image_path path).
  - unfold normalize_image. run_monad.
    set (tmp := temp_video_path_of output_dir i (basename path)).
    set (s1 := {| disk := _; console := console s;
                  ffmpeg_runs := ffmpeg_runs s ++ [RunConvert path tmp] |}).
    assert (H1 : filter_trace s s1) by apply filter_trace_run.
    destruct (ended (convert_image w path tmp)) as [stderr|e] eqn:Eend.
    2:{ destruct (is_Exception e) eqn:He.
        - destruct e; try done;
            (eexists _, _; split; [reflexivity|]; split;
             [eapply filter_trace_trans; [exact H1|by apply filter_trace_print]
             | by right; left]).
        - eexists _, _. split; [reflexivity|]. split; [done|].
          left. by exists e. }
    match goal with
    | |- context [bool_decide ?P] => destruct (bool_decide P)
    end.
    2:{ eexists _, _. split; [reflexivity|]. split;
          [eapply filter_trace_trans; [exact H1|by apply filter_trace_print]
          | by right; left]. }
    destruct (get_video_info_cases w tmp s1)
      as (r & s2 & -> & H2 & _ & Hr).
    assert (H12 : filter_trace s s2) by (by eapply filter_trace_trans).
    destruct Hr as [->|[(d & wd & ht & a & -> & Hd)|(e & -> & He)]]; simpl.
    + eexists _, _. split; [reflexivity|]. split.
      * eapply filter_trace_trans; [exact H12|by apply filter_trace_print2].
      * right; right; right; left. by exists tmp.
    + replace (negb (Qle_bool d 0)) with true.
      2:{ symmetry. apply (fgt_exact d 0). lra. }
      eexists _, _. split; [reflexivity|]. split.
      * eapply filter_trace_trans; [exact H12|by apply filter_trace_print].
      * right; right; left. by exists tmp, d.
    + rewrite He. eexists _, _. split; [reflexivity|]. split; [done|].
      left. by exists e.
  - unfold admit_video. run_monad.
    destruct (get_video_info_cases w path s) as (r & s2 & -> & H2 & _ & Hr).
    destruct Hr as [->|[(d & wd & ht & a & -> & Hd)|(e & -> & He)]]; simpl.
    + eexists _, _. split; [reflexivity|]. split;
        [eapply filter_trace_trans; [exact H2|by apply filter_trace_print]
        | by right; left].
    + replace (negb (Qle_bool d 0)) with true.
      2:{ symmetry. apply (fgt_exact d 0). lra. }
      destruct (keep_video cfg st path d wd ht a) as [st' sets] eqn:Ekeep.
      replace st' with (fst (keep_video cfg st path d wd ht a))
        by (by rewrite Ekeep).
      destruct sets.
      * eexists _, _. split; [reflexivity|]. split;
          [eapply filter_trace_trans; [exact H2|by apply filter_trace_print]|].
        right; right; right; right. by exists d, wd, ht, a.
      * eexists _, _. split; [reflexivity|]. split; [done|].
        right; right; right; right. by exists d, wd, ht, a.
    + eexists _, _. split; [reflexivity|]. split; [done|].
      left. by exists e.
Qed.
End FilterFacts.

Section FilterLoop.
Local Open Scope Q_scope.

(** An invariant of the body is an invariant of the loop, on every run
    that returns. *)
Lemma for_enumerateM_invariant {A St : Type}
    (body : St -> nat -> A -> M St) (Inv : St -> state -> Prop) :
  (forall st i x s st' s',
     Inv st s -> body st i x s = (Returned st', s') -> Inv st' s') ->
  forall l i st s st' s',
    Inv st s -> for_enumerateM body i l st s = (Returned st', s') ->
    Inv st' s'.
Proof.
  intros Hbody. induction l as [|x l IH]; intros i st s st' s' Hinv Hrun.
  - simpl in Hrun. unfold ret in Hrun. by injection Hrun as <- <-.
  - simpl in Hrun. unfold bind in Hrun.
    destruct (body st i x s) as [[st1|e] s1] eqn:E; [|done].
    eapply IH; [|exact Hrun]. by eapply Hbody.
Qed.

Lemma preprocess_invariants (w : world) (cfg : config) (output_dir : string)
    (clip_paths : list string) (s : state) (st : filtered) (s' : state) :
  preprocess w cfg output_dir clip_paths s = (Returned st, s') ->
  filter_trace s s' /\ filtered_consistent st /\ resolution_invariant cfg st
  /\ Forall (clip_ok cfg) (inputs_info st).
Proof.
  unfold preprocess.
  apply (for_enumerateM_invariant (preprocess_step w cfg output_dir)
           (fun st s' => filter_trace s s' /\ filtered_consistent st
                         /\ resolution_invariant cfg st
                         /\ Forall (clip_ok cfg) (inputs_info st))).
  - intros st0 i path s0 st1 s1 (Ht & Hc & Hr & Hok) Hstep.
    destruct (preprocess_step_cases w cfg output_dir st0 i path s0)
      as (r & s2 & Hrun & Htr & Hcases).
    rewrite Hrun in Hstep. injection Hstep as -> ->.
    split; [by eapply filter_trace_trans|].
    destruct Hcases as [(e & [=] & _)|[[= ->]|[(tmp & d & Hd & [= ->])|
                        [(tmp & [= ->])|(d & wd & ht & a & Hd & [= ->])]]]].
    + done.
    + split; [by apply consistent_probed|].
      split; [by apply resolution_probed | by apply clips_ok_probed].
    + split; [by apply consistent_fallback|].
      split; [by apply resolution_fallback | by apply clips_ok_fallback].
    + split; [by apply consistent_video|].
      split; [by apply resolution_video | by apply clips_ok_video].
  - split; [apply filter_trace_refl|].
    split; [apply consistent_start|].
    split; [apply resolution_start | apply Forall_nil_2].
Qed.

End FilterLoop.

(** * Facts about the composition job *)

Section CleanupFacts.
Variable w : world.



(** One step of the clean-up loop returns, prints at most its warning,
    adds no file, and makes a removable path absent. *)
Lemma cleanup_step_effect (n : nat) (p : string) (s : state) :
  exists n' s',
    cleanup_step w n p s = (Returned n', s')
    /\ cleanup_trace s s'
    /\ (forall q, disk s !! q = None -> disk s' !! q = None)
    /\ (removable w p = true -> disk s' !! p = None).
Proof.
  unfold cleanup_step. run_monad.
  destruct (bool_decide (is_Some (disk s !! p))) eqn:E.
  - destruct (removable w p) eqn:Er.
    + eexists _, _. split; [reflexivity|]. simpl.
      split; [apply extends_disk|]. split.
      * intros q Hq. destruct (decide (p = q)) as [->|Hne].
        -- apply lookup_delete_eq.
        -- by rewrite lookup_delete_ne.
      * intros _; apply lookup_delete_eq.
    + eexists _, _. split; [reflexivity|]. simpl.
      split; [by apply extends_print|]. done.
  - eexists _, _. split; [reflexivity|]. simpl.
    split; [apply extends_refl|]. split; [done|].
    intros _. apply bool_decide_eq_false in E.
    by apply eq_None_not_Some.
Qed.

Lemma cleanup_loop_effect (l : list string) :
  forall i n s,
    exists n' s',
      for_enumerateM (fun n (_ : nat) p => cleanup_step w n p) i l n s
      = (Returned n', s')
      /\ cleanup_trace s s'
      /\ (forall q, disk s !! q = None -> disk s' !! q = None)
      /\ (forall p, p ∈ l -> removable w p = true -> disk s' !! p = None).
Proof.
  induction l as [|p l IH]; intros i n s; simpl.
  - eexists _, _. split; [reflexivity|]. split; [apply extends_refl|].
    split; [done|]. intros p Hin. by apply elem_of_nil in Hin.
  - destruct (cleanup_step_effect n p s) as (n1 & s1 & H1 & Ht1 & Hk1 & Hp1).
    destruct (IH (S i) n1 s1) as (n2 & s2 & H2 & Ht2 & Hk2 & Hp2).
    exists n2, s2. split; [by unfold bind; rewrite H1|].
    split; [by eapply extends_trans|]. split; [by auto|].
    intros q Hin Hrem. apply elem_of_cons in Hin as [->|Hin]; [|by auto].
    apply Hk2. by apply Hp1.
Qed.

(** [cleanup_temp_files] always returns; afterwards no removable temporary
    file is left, no file has appeared and no process was started. *)
Lemma cleanup_effect (temp_files : list string) (s : state) :
  exists s',
    cleanup_temp_files w temp_files s = (Returned tt, s')
    /\ cleanup_trace s s'
    /\ (forall q, disk s !! q = None -> disk s' !! q = None)
    /\ (forall p, p ∈ temp_files -> removable w p = true ->
                  disk s' !! p = None)
    /\ (temp_files = [] -> s' = s).
Proof.
  unfold cleanup_temp_files. destruct temp_files as [|p l].
  - exists s. split; [done|]. split; [apply extends_refl|].
    split; [done|]. split; [|done]. intros p Hin. by apply elem_of_nil in Hin.
  - destruct (cleanup_loop_effect (p :: l) 0 0%nat s)
      as (n & s1 & H1 & Ht & Hk & Hp).
    unfold bind. rewrite H1. run_monad.
    eexists. split; [reflexivity|]. simpl.
    split; [eapply extends_trans; [exact Ht|by apply extends_print]|].
    split; [done|]. split; [done|]. done.
Qed.
End CleanupFacts.

Section GlobalInputFailure.


Lemma filter_not_encode (m : message) :
  is_filter_message m = true -> is_encode_message m = false.
Proof. by destruct m. Qed.

(** C8: when filtering leaves no clip, the job returns [False]; its last
    message is the one for missing inputs (or, for an empty list of paths,
    its only message is the one for that), no message of the encoding stage
    is printed, the encoder is not started, and the files are as filtering
    left them. *)
Theorem no_valid_clips_fails (w : world) (cfg : config)
    (clip_paths : list string) (output_filepath : string) (s : state)
    (st : filtered) (s1 : state) :
  preprocess w cfg (dirname output_filepath) clip_paths s
  = (Returned st, s1) ->
  inputs_info st = [] ->
  exists msgs runs s',
    compose_video_ffmpeg_with_crossfade w cfg clip_paths output_filepath s
    = (Returned false, s')
    /\ console s' = console s ++ msgs
    /\ ffmpeg_runs s' = ffmpeg_runs s ++ runs
    /\ (last msgs = Some ErrNoValidInputs
        \/ (clip_paths = [] /\ msgs = [ErrNoClipPaths]))
    /\ (forall m, m ∈ msgs -> is_encode_message m = false)
    /\ (forall r, r ∈ runs -> is_convert r = true)
    /\ disk s' = disk s1.
Proof.
  intros Hpre Hempty. unfold compose_video_ffmpeg_with_crossfade.
  destruct clip_paths as [|p paths].
  - simpl in Hpre. unfold ret in Hpre. injection Hpre as <- <-.
    run_monad. eexists [ErrNoClipPaths], [], _. split; [reflexivity|]. simpl.
    rewrite app_nil_r. repeat split; try done.
    + right. done.
    + intros m Hm. apply list_elem_of_singleton in Hm. by subst.
    + intros r Hr. by apply elem_of_nil in Hr.
  - destruct (preprocess_invariants _ _ _ _ _ _ _ Hpre)
      as ((msgs & runs & Hc & Hm & Hr & Hk) & (Htemp & _) & _).
    rewrite Hempty in Htemp. simpl in Htemp.
    cbn [is_empty]. unfold bind at 1. rewrite Hpre.
    unfold compose_filtered. rewrite Hempty, Htemp. cbn [is_empty].
    rewrite orb_true_r. run_monad.
    eexists (msgs ++ [ErrNoValidInputs]), runs, _. split; [reflexivity|]. simpl.
    rewrite Hc, Hr, <- app_assoc. repeat split; try done.
    + left. apply last_snoc.
    + intros m Hin. apply elem_of_app in Hin as [Hin|Hin].
      * apply filter_not_encode.
        apply (proj1 (forallb_forall _ _) Hm). by apply list_elem_of_In.
      * apply list_elem_of_singleton in Hin. by subst.
    + intros r Hin. apply (proj1 (forallb_forall _ _) Hk).
      by apply list_elem_of_In.
Qed.
End GlobalInputFailure.

Section EncodeFacts.
Variable w : world.


(** The encoding stage starts exactly one process, the encoder, and
    whatever way it ends the clean-up has run. *)
Lemma encode_output_effect (temp_files : list string) (v : vstream)
    (a : astream) (output : string) (s : state) :
  exists r s',
    encode_output w temp_files v a output s = (r, s')
    /\ ffmpeg_runs s' = ffmpeg_runs s ++ [RunEncode v a output]
    /\ (forall p, p ∈ temp_files -> removable w p = true ->
                  disk s' !! p = None)
    /\ (forall e, r = Raised e ->
                  is_Exception e = false
                  /\ ended (encode w v a output) = Raised e).
Proof.
  unfold encode_output, try_finally, try_except.
  set (body := (print (InfoExecuting output) ;;; _)%comp).
  assert (Hbody : exists r1 s1,
            body s = (r1, s1)
            /\ ffmpeg_runs s1 = ffmpeg_runs s ++ [RunEncode v a output]
            /\ (forall e, r1 = Raised e ->
                          ended (encode w v a output) = Raised e)).
  { subst body. run_monad.
    destruct (ended (encode w v a output)) as [stderr|e] eqn:Eend.
    - match goal with
      | |- context [match ?d !! output with _ => _ end] =>
          destruct (d !! output) as [n|]
      end.
      + destruct (1000 <? n)%Z; eexists _, _; (split; [reflexivity|]);
          simpl; split; done.
      + eexists _, _. split; [reflexivity|]. simpl. split; done.
    - eexists _, _. split; [reflexivity|]. simpl. split; [done|].
      by intros e' [= ->]. }
  destruct Hbody as (r1 & s1 & -> & Hruns & Hraise).
  assert (Hcaught : exists r2 s2,
            (match r1 with
             | Raised e =>
                 if is_Exception e
                 then (match e with
                       | FfmpegError stderr =>
                           (print (FatalFfmpeg stderr) ;;; ret false)%comp
                       | _ => (print FatalPython ;;; ret false)%comp
                       end) s1
                 else (Raised e, s1)
             | Returned b => (Returned b, s1)
             end) = (r2, s2)
            /\ ffmpeg_runs s2 = ffmpeg_runs s1
            /\ (forall e, r2 = Raised e ->
                          is_Exception e = false /\ r1 = Raised e)).
  { destruct r1 as [b|e].
    - eexists _, _. split; [reflexivity|]. split; done.
    - destruct (is_Exception e) eqn:He.
      + destruct e; run_monad; eexists _, _; (split; [reflexivity|]);
          split; done.
      + eexists _, _. split; [reflexivity|]. split; [done|].
        by intros e' [= ->]. }
  destruct Hcaught as (r2 & s2 & Hc & Hruns2 & Hraise2).
  destruct r1 as [b|e].
  - injection Hc as <- <-.
    destruct (cleanup_effect w temp_files s1) as (s3 & -> & Ht & _ & Hgone & _).
    eexists _, _. split; [reflexivity|].
    rewrite (extends_no_run _ _ _ Ht). split; [done|]. split; [done|].
    done.
  - destruct (is_Exception e) eqn:He.
    + rewrite Hc.
      destruct (cleanup_effect w temp_files s2)
        as (s3 & -> & Ht & _ & Hgone & _).
      eexists _, _. split; [reflexivity|].
      rewrite (extends_no_run _ _ _ Ht), Hruns2. split; [done|].
      split; [done|]. intros e' ->.
      destruct (Hraise2 e' eq_refl) as [? [= ->]]. split; [done|].
      by apply Hraise.
    + injection Hc as <- <-.
      destruct (cleanup_effect w temp_files s1)
        as (s3 & -> & Ht & _ & Hgone & _).
      eexists _, _. split; [reflexivity|].
      rewrite (extends_no_run _ _ _ Ht). split; [done|]. split; [done|].
      intros e' [= <-]. split; [done|]. by apply Hraise.
Qed.
End EncodeFacts.

Section ComposeFacts.
Local Open Scope Q_scope.
Variable w : world.
Variable cfg : config.


Lemma master_timeline_pair (ds : list Q) (t : Q) :
  master_timeline ds t = (clip_start_times ds t, final_duration_estimate ds t).
Proof.
  unfold clip_start_times, final_duration_estimate.
  by destruct (master_timeline ds t).
Qed.

Lemma apply_transitions_returns (t : Q) (n : nat) (starts : list Q)
    (vs : list vstream) (aus : list astream) :
  length starts = n -> length vs = n -> length aus = n ->
  (n = 0%nat /\ apply_transitions t n starts vs aus = Returned None)
  \/ (exists v a, n = 1%nat /\ vs = [v] /\ aus = [a]
                  /\ apply_transitions t n starts vs aus
                     = Returned (Some (v, a)))
  \/ (exists pv, (2 <= n)%nat
                 /\ apply_transitions t n starts vs aus
                    = Returned (Some (pv, AMix n Longest None aus))).
Proof.
  intros Hs Hv Ha.
  destruct n as [|[|n]].
  - left. done.
  - right; left. destruct vs as [|v [|? ?]]; try done.
    destruct aus as [|a [|? ?]]; try done. by exists v, a.
  - right; right.
    destruct (apply_transitions_mix t starts vs (S (S n)) aus)
      as [pv Hpv]; [lia|done|done|].
    exists pv. split; [lia|]. by rewrite Hpv, Ha.
Qed.

Local Opaque get_video_info.

(** The background-music stage starts no process and touches no file; it
    hands on the narration mix, alone or under a [first] mix with the
    music, unless the probe of the music file is interrupted. *)
Lemma add_background_music_effect (total : Q) (pa : astream) (s : state) :
  exists r s',
    add_background_music w cfg total pa s = (r, s')
    /\ disk s' = disk s /\ ffmpeg_runs s' = ffmpeg_runs s
    /\ (r = Returned pa
        \/ (bg_music_path cfg <> None
            /\ exists bgm, r = Returned (AMix 2 First
                                           (Some (transition_duration cfg * 2))
                                           [pa; bgm]))
        \/ (exists e, r = Raised e /\ is_Exception e = false
                      /\ bg_music_path cfg <> None)).
Proof.
  unfold add_background_music.
  destruct (bg_music_path cfg) as [p|] eqn:Ebg.
  2:{ eexists _, _. split; [reflexivity|]. split; [done|]. split; [done|].
      by left. }
  run_monad.
  destruct (negb (bool_decide (p = "")) && bool_decide (is_Some (disk s !! p)))%bool.
  2:{ eexists _, _. split; [reflexivity|]. split; [done|]. split; [done|].
      by left. }
  destruct (get_video_info_contract w p s)
    as (r & s1 & -> & _ & Hdisk & Hruns & _ & _ & _ & Hraise & _).
  destruct r as [[[[d wd] ht] has_audio]|e].
  - destruct has_audio; run_monad.
    + eexists _, _. split; [reflexivity|]. simpl.
      split; [done|]. split; [done|]. right; left. split; [done|]. by eexists.
    + eexists _, _. split; [reflexivity|]. simpl.
      split; [done|]. split; [done|]. by left.
  - destruct (Hraise e eq_refl) as [He _]. rewrite He.
    eexists _, _. split; [reflexivity|]. split; [done|]. split; [done|].
    right; right. by exists e.
Qed.

Local Opaque cleanup_temp_files encode_output add_background_music
  master_timeline build_streams apply_transitions.

(** The three ways the job can end once the inputs are filtered: nothing
    to compose, an interrupt while the music file is probed, or a run of
    the encoder followed by the clean-up. *)
Lemma compose_filtered_effect (st : filtered) (output : string) (s : state) :
  let t := transition_duration cfg in
  let tw := final_video_width st in
  let th := final_video_height st in
  let infos := inputs_info st in
  let starts := clip_start_times (map info_duration infos) t in
  exists r s',
    compose_filtered w cfg st output s = (r, s')
    /\ (((valid_clips_exist st = false \/ infos = [])
         /\ r = Returned false /\ ffmpeg_runs s' = ffmpeg_runs s
         /\ (forall p, p ∈ temp_files st -> removable w p = true ->
                       disk s' !! p = None))
        \/ (exists e, r = Raised e /\ is_Exception e = false
                      /\ bg_music_path cfg <> None
                      /\ disk s' = disk s /\ ffmpeg_runs s' = ffmpeg_runs s)
        \/ (exists pv pa fa,
              apply_transitions t (length infos) starts
                (map (processed_video_of tw th (target_fps cfg)) infos)
                (delayed_from starts 0 infos)
              = Returned (Some (pv, pa))
              /\ (fa = pa
                  \/ (bg_music_path cfg <> None
                      /\ exists bgm, fa = AMix 2 First
                                            (Some (t * 2)) [pa; bgm]))
              /\ ffmpeg_runs s' = ffmpeg_runs s ++ [RunEncode pv fa output]
              /\ (forall p, p ∈ temp_files st -> removable w p = true ->
                            disk s' !! p = None)
              /\ (forall e, r = Raised e ->
                            is_Exception e = false
                            /\ ended (encode w pv fa output) = Raised e))).
Proof.
  intros t tw th infos starts. unfold compose_filtered.
  destruct (negb (valid_clips_exist st) || is_empty (inputs_info st))%bool
    eqn:Econd.
  { run_monad.
    match goal with
    | |- context [cleanup_temp_files w ?l ?s0] =>
        destruct (cleanup_effect w l s0) as (s1 & -> & Ht & _ & Hgone & _)
    end.
    eexists _, _. split; [reflexivity|]. left.
    split.
    { apply orb_true_iff in Econd as [E|E].
      - left. by apply negb_true_iff in E.
      - right. subst infos. by destruct (inputs_info st). }
    split; [done|]. split; [|done]. by rewrite (extends_no_run _ _ _ Ht). }
  rewrite master_timeline_pair. cbv beta iota zeta. fold t tw th infos starts.
  unfold try_or_return, lift.
  assert (Hb := build_on_timeline infos t tw th (target_fps cfg)).
  cbv zeta in Hb. fold starts in Hb. rewrite Hb. clear Hb.
  assert (Hjoin := apply_transitions_returns t (length infos) starts
            (map (processed_video_of tw th (target_fps cfg)) infos)
            (delayed_from starts 0 infos)).
  destruct Hjoin as [[H0 Hj]|Hj].
  { subst starts. by rewrite clip_start_times_length, length_map. }
  { by rewrite length_map. }
  { apply delayed_from_length. }
  { apply orb_false_iff in Econd as [_ E]. subst infos.
    by destruct (inputs_info st). }
  assert (Hsome : exists pv pa,
            apply_transitions t (length infos) starts
              (map (processed_video_of tw th (target_fps cfg)) infos)
              (delayed_from starts 0 infos) = Returned (Some (pv, pa))).
  { destruct Hj as [(v & a & _ & _ & _ & H)|(pv & _ & H)]; by eexists _, _. }
  clear Hj. destruct Hsome as (pv & pa & Hj).
  unfold bind. 
  set (s0 := snd ((if first_video_dims_found st then ret ()
                   else print WarnNoDimensions) s)).
  assert (Hs0 : (if first_video_dims_found st then ret ()
                 else print WarnNoDimensions) s = (Returned (), s0)
                /\ disk s0 = disk s /\ ffmpeg_runs s0 = ffmpeg_runs s).
  { subst s0. by destruct (first_video_dims_found st). }
  destruct Hs0 as (-> & Hd0 & Hr0). clearbody s0.
  unfold print at 1. rewrite Hj.
  match goal with
  | |- context [add_background_music w cfg ?tot pa ?s1] =>
      destruct (add_background_music_effect tot pa s1)
        as (rb & s2 & -> & Hd2 & Hr2 & Hrb)
  end.
  simpl in Hd2, Hr2.
  destruct Hrb as [->|[(Hbg & bgm & ->)|(e & -> & He & Hbg)]].
  - destruct (encode_output_effect w (temp_files st) pv pa output s2)
      as (r & s3 & -> & Hr3 & Hgone & Hraise).
    eexists _, _. split; [reflexivity|]. right; right.
    exists pv, pa, pa. split; [done|]. split; [by left|].
    split; [by rewrite Hr3, Hr2, Hr0|]. done.
  - match goal with
    | |- context [encode_output w _ pv ?fa output s2] =>
        destruct (encode_output_effect w (temp_files st) pv fa output s2)
          as (r & s3 & -> & Hr3 & Hgone & Hraise)
    end.
    eexists _, _. split; [reflexivity|]. right; right.
    eexists pv, pa, _. split; [done|].
    split; [right; split; [done|]; by exists bgm|].
    split; [by rewrite Hr3, Hr2, Hr0|]. done.
  - eexists _, _. split; [reflexivity|]. right; left.
    exists e. split; [done|]. split; [done|]. split; [done|].
    split; [by rewrite Hd2|by rewrite Hr2].
Qed.
End ComposeFacts.

Section SingleClip.
Local Open Scope Q_scope.

Lemma processed_video_no_xfade (tw th fps : Z) (info : clip_info) :
  has_xfade (processed_video_of tw th fps info) = false.
Proof. unfold processed_video_of. by case_match. Qed.

Lemma delayed_source_no_amix (l r : Z) (info : clip_info) :
  has_amix (ADelay l r (audio_source_of info)) = false.
Proof. unfold audio_source_of. simpl. by case_match. Qed.

(** C9 (as amended): with exactly one kept clip the timeline is [[0]] and
    the total is [max(0.01, duration)], the clip's duration when that is at
    least 0.01 s; the clip stage yields the clip's processed video stream
    and its audio delayed by 0 ms, with no cross-fade and no mix; and when
    no background music is configured the encoder is started once, on
    exactly these two streams. *)
Theorem single_clip_composition (w : world) (cfg : config) (st : filtered)
    (info : clip_info) (output : string) (s : state) :
  inputs_info st = [info] ->
  valid_clips_exist st = true ->
  bg_music_path cfg = None ->
  let t := transition_duration cfg in
  let tw := final_video_width st in
  let th := final_video_height st in
  let v := processed_video_of tw th (target_fps cfg) info in
  let a := ADelay 0 0 (audio_source_of info) in
  master_timeline [info_duration info] t
  = ([0], 0 + py_max 0.01 (info_duration info - 0))
  /\ (0.01 <= info_duration info ->
      final_duration_estimate [info_duration info] t == info_duration info)
  /\ build_streams tw th (target_fps cfg) [0] [info] = Returned ([v], [a])
  /\ apply_transitions t 1 [0] [v] [a] = Returned (Some (v, a))
  /\ has_xfade v = false
  /\ has_amix a = false
  /\ ffmpeg_runs (snd (compose_filtered w cfg st output s))
     = ffmpeg_runs s ++ [RunEncode v a output].
Proof.
  intros Hinfos Hvalid Hbg t tw th v a.
  split; [done|]. split.
  { intros Hd. unfold final_duration_estimate. simpl.
    assert (H0 : 0.01 <= info_duration info - 0) by lra.
    pose proof (py_max_id 0.01 (info_duration info - 0) H0). simpl in *.
    unfold clip_effective_duration. simpl. lra. }
  split; [done|]. split; [done|].
  split; [apply processed_video_no_xfade|].
  split; [apply delayed_source_no_amix|].
  destruct (compose_filtered_effect w cfg st output s)
    as (r & s' & -> & [([Hv|He] & _)|[(e & _ & _ & Hne & _)|
         (pv & pa & fa & Hj & Hfa & Hruns & _)]]).
  - congruence.
  - by rewrite Hinfos in He.
  - done.
  - rewrite Hinfos in Hj. injection Hj as <- <-.
    destruct Hfa as [->|[Hne _]]; [|done]. exact Hruns.
Qed.
End SingleClip.

(** * The guarantee of the clean-up, and where it stops *)

Section WhereCleanupRuns.
Variable w : world.
Variable cfg : config.

Lemma for_enumerateM_raises {A St : Type} (body : St -> nat -> A -> M St)
    (P : exn -> Prop) :
  (forall st i x s e s', body st i x s = (Raised e, s') -> P e) ->
  forall l i st s e s',
    for_enumerateM body i l st s = (Raised e, s') -> P e.
Proof.
  intros Hbody. induction l as [|x l IH]; intros i st s e s' Hrun; [done|].
  simpl in Hrun. unfold bind in Hrun.
  destruct (body st i x s) as [[st1|e1] s1] eqn:E.
  - by eapply IH.
  - injection Hrun as <- <-. by eapply Hbody.
Qed.

(** The filter lets nothing through but an interrupt. *)
Lemma preprocess_raises_interrupt (output_dir : string)
    (clip_paths : list string) (s : state) (e : exn) (s' : state) :
  preprocess w cfg output_dir clip_paths s = (Raised e, s') ->
  is_Exception e = false.
Proof.
  unfold preprocess.
  apply (for_enumerateM_raises (preprocess_step w cfg output_dir)
           (fun e => is_Exception e = false)).
  intros st i path s0 e0 s1 Hstep.
  destruct (preprocess_step_cases w cfg output_dir st i path s0)
    as (r & s2 & Hrun & _ & Hcases).
  rewrite Hrun in Hstep. injection Hstep as -> ->.
  destruct Hcases as [(e1 & [= ->] & He)|[[=]|[(? & ? & _ & [=])|
                      [(? & [=])|(? & ? & ? & ? & _ & [=])]]]].
  done.
Qed.

(** X1: no [Exception] leaves the job.  When it returns, and when the encoder
    run itself raises, every removable file of [temp_files] is gone; an
    interrupt during filtering or while the music file is probed ends the
    job with the disk as it then stands. *)
Lemma cleanup_runs_on_return (clip_paths : list string) (output : string)
    (s : state) :
  exists r s',
    compose_video_ffmpeg_with_crossfade w cfg clip_paths output s = (r, s')
    /\ (forall e, r = Raised e -> is_Exception e = false)
    /\ (forall b, r = Returned b ->
          clip_paths = []
          \/ exists st s1,
               preprocess w cfg (dirname output) clip_paths s
               = (Returned st, s1)
               /\ forall p, p ∈ temp_files st -> removable w p = true ->
                            disk s' !! p = None)
    /\ (forall e, r = Raised e ->
          preprocess w cfg (dirname output) clip_paths s = (Raised e, s')
          \/ exists st s1,
               preprocess w cfg (dirname output) clip_paths s
               = (Returned st, s1)
               /\ ((bg_music_path cfg <> None /\ disk s' = disk s1)
                   \/ forall p, p ∈ temp_files st -> removable w p = true ->
                                disk s' !! p = None)).
Proof.
  unfold compose_video_ffmpeg_with_crossfade.
  destruct clip_paths as [|p0 paths].
  { eexists _, _. split; [reflexivity|]. split; [done|]. split; [by left|].
    done. }
  cbn [is_empty]. unfold bind at 1.
  destruct (preprocess w cfg (dirname output) (p0 :: paths) s)
    as [[st|e] s1] eqn:Epre.
  2:{ eexists _, _. split; [reflexivity|].
      split; [intros e' [= <-]; by eapply preprocess_raises_interrupt|].
      split; [done|]. intros e' [= <-]. by left. }
  destruct (compose_filtered_effect w cfg st output s1)
    as (r & s' & -> & Hcases).
  exists r, s'. split; [done|].
  destruct Hcases as [(_ & -> & _ & Hgone)|[(e & -> & He & Hbg & Hd & _)|
                      (pv & pa & fa & _ & _ & _ & Hgone & Hraise)]].
  - split; [done|]. split; [|done]. intros b _. right. by exists st, s1.
  - split; [by intros e' [= <-]|]. split; [done|].
    intros e' _. right. exists st, s1. split; [done|]. by left.
  - split; [intros e Hr; by destruct (Hraise e Hr)|].
    split; intros ? _; right; exists st, s1; (split; [done|]); [done|by right].
Qed.
End WhereCleanupRuns.

Section FailingRuns.

(** C4: two runs on which a temporary wrapper outlives the call.  When the
    conversion of the second chart is interrupted, the job ends with the
    interrupt and the wrapper of the first chart is still on disk; when the
    conversion of the second chart fails and leaves an empty file, the job
    returns [True], the first wrapper is gone and that file remains. *)
Theorem temp_wrapper_left_behind :
  let interrupted :=
    compose_video_ffmpeg_with_crossfade studio_interrupted default_config
      ["/in/a.png"; "/in/b.png"] "/out/final.mp4" studio_files in
  let failed :=
    compose_video_ffmpeg_with_crossfade studio_failed_conversion
      default_config ["/in/a.png"; "/in/b.png"] "/out/final.mp4"
      studio_files in
  disk studio_files !! "/out/temp_img_0_a_png.mp4" = None
  /\ disk studio_files !! "/out/temp_img_1_b_png.mp4" = None
  /\ fst interrupted = Raised KeyboardInterrupt
  /\ ffmpeg_runs (snd interrupted)
     = [RunConvert "/in/a.png" "/out/temp_img_0_a_png.mp4";
        RunConvert "/in/b.png" "/out/temp_img_1_b_png.mp4"]
  /\ disk (snd interrupted) !! "/out/temp_img_0_a_png.mp4" = Some 20000%Z
  /\ fst failed = Returned true
  /\ disk (snd failed) !! "/out/temp_img_0_a_png.mp4" = None
  /\ disk (snd failed) !! "/out/temp_img_1_b_png.mp4" = Some 0%Z.
Proof. vm_compute. repeat split. Qed.
End FailingRuns.

Section KeptDurations.
Local Open Scope Q_scope.

(** With a nominal chart duration of at least 0.01 s, every clip the
    filter keeps lasts at least 0.01 s. *)
Lemma kept_durations_reach_floor (w : world) (cfg : config)
    (output_dir : string) (clip_paths : list string) (s : state)
    (st : filtered) (s' : state) :
  preprocess w cfg output_dir clip_paths s = (Returned st, s') ->
  0.01 <= default_chart_duration cfg ->
  Forall (fun c => 0.01 <= info_duration c) (inputs_info st).
Proof.
  intros Hrun Hd.
  destruct (preprocess_invariants _ _ _ _ _ _ _ Hrun) as (_ & _ & _ & Hok).
  eapply Forall_impl; [exact Hok|].
  intros c [_ [Hlt|[_ ->]]]; [lra | exact Hd].
Qed.
End KeptDurations.

Section TimelineClaim.
Local Open Scope Q_scope.

(** C1 (as amended): for a non-empty list of clips the timeline has one
    start per clip, the first is 0, each next start adds
    [max(0.01, duration - transition)] to the previous one, the starts never
    decrease, and the total is the last start plus [max(0.01, duration)] of
    the last clip: the last start plus its duration whenever that is at
    least 0.01 s, as holds for every clip the filter keeps when the nominal
    chart duration is at least 0.01 s. *)
Theorem timeline_invariant (ds : list Q) (t : Q) :
  ds <> [] ->
  let starts := clip_start_times ds t in
  let total := final_duration_estimate ds t in
  length starts = length ds
  /\ starts !! 0%nat = Some 0
  /\ (forall i a d,
        starts !! i = Some a -> ds !! i = Some d -> (S i < length ds)%nat ->
        starts !! S i = Some (a + py_max 0.01 (d - t))
        /\ 0.01 <= py_max 0.01 (d - t)
        /\ (0.01 <= d - t -> a + py_max 0.01 (d - t) == a + d - t))
  /\ (forall i j a b,
        (i <= j)%nat -> starts !! i = Some a -> starts !! j = Some b -> a <= b)
  /\ (forall a d,
        starts !! (length ds - 1)%nat = Some a ->
        ds !! (length ds - 1)%nat = Some d ->
        total = a + py_max 0.01 (d - 0)
        /\ (0.01 <= d -> total == a + d))
  /\ (forall w cfg output_dir clip_paths s st s',
        preprocess w cfg output_dir clip_paths s = (Returned st, s') ->
        0.01 <= default_chart_duration cfg ->
        Forall (fun c => 0.01 <= info_duration c) (inputs_info st)).
Proof.
  intros Hne starts total. subst starts total.
  split; [apply clip_start_times_length|].
  split; [by apply clip_start_times_head|].
  split.
  { intros i a d Ha Hd Hlt.
    split; [by apply clip_start_times_succ|].
    split; [apply py_max_ge|].
    intros Hfl. pose proof (py_max_id 0.01 (d - t) Hfl). simpl in *. lra. }
  split; [apply clip_start_times_monotone|].
  split.
  { intros a d Ha Hd.
    split; [by apply final_duration_last
           | by apply final_duration_last_unfloored]. }
  apply kept_durations_reach_floor.
Qed.
End TimelineClaim.

(** * Worked runs *)

Section WorkedRuns.
Local Open Scope Q_scope.

Lemma timeline_invariant_witness :
  let ds := [6; 6; 6] in
  let t := 1 in
  let starts := clip_start_times ds t in
  let total := final_duration_estimate ds t in
  length starts = length ds
  /\ starts !! 0%nat = Some 0
  /\ (forall i a d,
        starts !! i = Some a -> ds !! i = Some d -> (S i < length ds)%nat ->
        starts !! S i = Some (a + py_max 0.01 (d - t))
        /\ 0.01 <= py_max 0.01 (d - t)
        /\ (0.01 <= d - t -> a + py_max 0.01 (d - t) == a + d - t))
  /\ (forall i j a b,
        (i <= j)%nat -> starts !! i = Some a -> starts !! j = Some b -> a <= b)
  /\ (forall a d,
        starts !! (length ds - 1)%nat = Some a ->
        ds !! (length ds - 1)%nat = Some d ->
        total = a + py_max 0.01 (d - 0)
        /\ (0.01 <= d -> total == a + d))
  /\ (forall w cfg output_dir clip_paths s st s',
        preprocess w cfg output_dir clip_paths s = (Returned st, s') ->
        0.01 <= default_chart_duration cfg ->
        Forall (fun c => 0.01 <= info_duration c) (inputs_info st)).
Proof. apply (timeline_invariant [6; 6; 6] 1). discriminate. Defined.

(** A chart shown for 5 ms whose wrapper cannot be probed is kept with
    that duration; the total is then the floor, 0.01 s, not 0 + 0.005 s. *)
Lemma total_is_floored :
  let run := preprocess studio_unprobed flash_config "/out" ["/in/a.png"]
                        studio_files in
  let ds := map info_duration (inputs_info (kept flash_config run)) in
  (exists st, fst run = Returned st)
  /\ ds = [0.005]
  /\ clip_start_times ds 0.6 = [0]
  /\ final_duration_estimate ds 0.6 == 0.01
  /\ ~ final_duration_estimate ds 0.6 == 0 + 0.005.
Proof.
  vm_compute. split; [by eexists|]. repeat split; congruence.
Qed.



(** C10, in double precision: clips of 0.717 s and 4 s with a transition
    of 0.6 s. *)
Lemma audio_delay_is_truncated_offset_witness :
  let clips := brief_then_long float in
  let starts := clip_start_times (map info_duration clips) (flit 0.6) in
  exists vs aus,
    build_streams 1280 720 25 starts clips = Returned (vs, aus)
    /\ forall i info,
         clips !! i = Some info ->
         exists start ms,
           starts !! i = Some start
           /\ start_time_ms_of start = Returned ms
           /\ aus !! i = Some (ADelay ms ms (audio_source_of info))
           /\ (0 <= fvalue (fmul start (flit 1000)) ->
               inject_Z ms <= fvalue (fmul start (flit 1000))
               /\ fvalue (fmul start (flit 1000)) < inject_Z ms + 1)
           /\ (fvalue (fmul start (flit 1000)) == fvalue start * 1000 ->
               0 <= fvalue start ->
               inject_Z ms / 1000 <= fvalue start
               /\ fvalue start < (inject_Z ms + 1) / 1000).
Proof.
  intros clips starts.
  apply (audio_delay_is_truncated_offset clips (flit 0.6) 1280 720 25
           binary64_truncates).
  intros i start Hi.
  destruct i as [|[|i]]; [| |done]; vm_compute in Hi; injection Hi as <-;
    eexists; vm_compute; reflexivity.
Defined.

(** In double precision the second of these clips is scheduled at
    0.11699999999999999 s; the product with 1000 rounds to 117, so its
    audio is delayed by 117 ms and starts after the scheduled offset.
    Clips of 4.1 s and 4 s: the second is scheduled at 3.4999999999999996 s
    and delayed by 3499 ms, where the offset without rounding is 3.5 s and
    the delay 3500 ms. *)
Lemma audio_delay_after_offset :
  (let clips := brief_then_long float in
   let starts := clip_start_times (map info_duration clips) (flit 0.6) in
   exists vs a0 a1 start,
     build_streams 1280 720 25 starts clips = Returned (vs, [a0; a1])
     /\ starts !! 1%nat = Some start
     /\ start_time_ms_of start = Returned 117%Z
     /\ a1 = ADelay 117 117 (ASilence (flit 4))
     /\ fvalue start < 117 / 1000)
  /\ clip_start_times [flit 4.1; flit 4] (flit 0.6)
     = [0%float; 0x1.bffffffffffffp+1%float]
  /\ start_time_ms_of 0x1.bffffffffffffp+1%float = Returned 3499%Z
  /\ (exists start,
        clip_start_times [4.1; 4] 0.6 !! 1%nat = Some start
        /\ start == 3.5
        /\ start_time_ms_of start = Returned 3500%Z).
Proof.
  split; [|split; [by vm_compute|split; [by vm_compute|]]].
  - intros clips starts. eexists _, _, _, _.
    split; [vm_compute; reflexivity|]. split; [vm_compute; reflexivity|].
    split; [vm_compute; reflexivity|]. split; vm_compute; reflexivity.
  - eexists. split; [vm_compute; reflexivity|]. by vm_compute.
Qed.



Lemma no_valid_clips_fails_witness :
  exists msgs runs s',
    compose_video_ffmpeg_with_crossfade studio default_config
      ["/in/missing.mp4"; ""] "/out/final.mp4" studio_files
    = (Returned false, s')
    /\ console s' = console studio_files ++ msgs
    /\ ffmpeg_runs s' = ffmpeg_runs studio_files ++ runs
    /\ last msgs = Some ErrNoValidInputs
    /\ (forall m, m ∈ msgs -> is_encode_message m = false)
    /\ (forall r, r ∈ runs -> is_convert r = true)
    /\ disk s' = disk studio_files.
Proof.
  destruct (no_valid_clips_fails studio default_config
              ["/in/missing.mp4"; ""] "/out/final.mp4" studio_files
              (nothing_filtered default_config)
              (snd (preprocess studio default_config "/out"
                      ["/in/missing.mp4"; ""] studio_files)))
    as (msgs & runs & s' & Hrun & Hc & Hr & Hlast & Hm & Hk & Hd).
  { by vm_compute. }
  { reflexivity. }
  exists msgs, runs, s'. split; [exact Hrun|]. split; [exact Hc|].
  split; [exact Hr|]. split.
  { destruct Hlast as [H|[H _]]; [exact H|discriminate H]. }
  split; [exact Hm|]. split; [exact Hk|].
  rewrite Hd. by vm_compute.
Defined.
End WorkedRuns.

Section WorkedSingleClip.
Local Open Scope Q_scope.


Lemma single_clip_composition_witness :
  let st := kept default_config
              (preprocess studio default_config "/out" ["/in/outro.mp4"]
                          studio_files) in
  inputs_info st = [outro_clip]
  /\ master_timeline [4] 0.6 = ([0], 0 + py_max 0.01 (4 - 0))
  /\ final_duration_estimate [4] 0.6 == 4
  /\ ffmpeg_runs (snd (compose_filtered studio default_config st
                         "/out/final.mp4" studio_files))
     = [RunEncode (processed_video_of 1280 720 25 outro_clip)
                  (ADelay 0 0 (ASilence 4)) "/out/final.mp4"].
Proof.
  intros st.
  destruct (single_clip_composition studio default_config st outro_clip
              "/out/final.mp4" studio_files)
    as (Ht & Htotal & _ & _ & _ & _ & Hruns);
    [by vm_compute | by vm_compute | reflexivity |].
  split; [by vm_compute|]. split; [exact Ht|].
  split; [apply Htotal; by vm_compute|]. exact Hruns.
Defined.

(** A single chart shown for 5 ms (wrapper not probed) gives a total of
    0.01 s; a single clip under a music bed is encoded with an [amix]. *)
Lemma single_clip_floor_and_music :
  let chart := compose_video_ffmpeg_with_crossfade studio_unprobed
                 flash_config ["/in/a.png"] "/out/final.mp4" studio_files in
  let kept_chart := kept flash_config
                      (preprocess studio_unprobed flash_config "/out"
                                  ["/in/a.png"] studio_files) in
  let music := compose_video_ffmpeg_with_crossfade studio music_config
                 ["/in/intro.mp4"] "/out/final.mp4" studio_files in
  fst chart = Returned true
  /\ map info_duration (inputs_info kept_chart) = [0.005]
  /\ final_duration_estimate [0.005] 0.6 == 0.01
  /\ ~ final_duration_estimate [0.005] 0.6 == 0.005
  /\ fst music = Returned true
  /\ exists v a bgm,
       ffmpeg_runs (snd music)
       = [RunEncode v (AMix 2 First (Some 1.2) [a; bgm]) "/out/final.mp4"]
       /\ has_amix (AMix 2 First (Some 1.2) [a; bgm]) = true.
Proof.
  vm_compute. repeat split; try congruence.
  eexists _, _, _. split; reflexivity.
Qed.
End WorkedSingleClip.

(** * More about the prober *)

Section ProberReads.
Local Open Scope Q_scope.

Lemma positive_duration_inv (f : field Q) (o : option Q) :
  positive_duration f = Returned o ->
  match o with
  | Some d => f = Value d /\ 0 < d
  | None => lacks_duration f = true
  end.
Proof.
  destruct f as [| |q]; simpl; [by intros [= <-] | done |].
  destruct (Qle_bool q 0) eqn:E; simpl; intros [= <-]; [done|].
  split; [done|]. apply Qnot_le_lt. intros Hle.
  apply Qle_bool_iff in Hle. congruence.
Qed.

Lemma stream_duration_inv (o : option stream_json) (r : option Q) :
  match o with
  | Some v => positive_duration (stream_duration v)
  | None => Returned None
  end = Returned r ->
  match r with
  | Some d => exists v, o = Some v /\ stream_duration v = Value d /\ 0 < d
  | None => stream_lacks_duration o = true
  end.
Proof.
  destruct o as [v|]; simpl.
  - intros H. apply positive_duration_inv in H. destruct r; [|done].
    destruct H. by exists v.
  - by intros [= <-].
Qed.

Lemma probed_duration_inv (v a : option stream_json) (f : field Q) (d : Q) :
  probed_duration v a f = Returned d -> 0 < d ->
  (exists st, v = Some st /\ stream_duration st = Value d)
  \/ (stream_lacks_duration v = true
      /\ exists st, a = Some st /\ stream_duration st = Value d)
  \/ (stream_lacks_duration v = true /\ stream_lacks_duration a = true
      /\ f = Value d).
Proof.
  unfold probed_duration. intros H Hpos.
  destruct (match v with Some v0 => _ | None => _ end) as [rv|] eqn:Ev;
    [|done].
  apply stream_duration_inv in Ev. simpl in H.
  destruct rv as [dv|].
  { injection H as ->. destruct Ev as (st & -> & Hst & _). left. by exists st. }
  destruct (match a with Some a0 => _ | None => _ end) as [ra|] eqn:Ea;
    [|done].
  apply stream_duration_inv in Ea. simpl in H.
  destruct ra as [da|].
  { injection H as ->. destruct Ea as (st & -> & Hst & _).
    right; left. split; [done|]. by exists st. }
  destruct (positive_duration f) as [rf|] eqn:Ef; [|done].
  apply positive_duration_inv in Ef. simpl in H. injection H as H.
  destruct rf as [df|].
  - subst df. destruct Ef as [-> _]. by right; right.
  - subst d. by apply Qlt_irrefl in Hpos.
Qed.

Lemma probed_dimensions_inv (v : option stream_json) (wd ht : option Z) :
  probed_dimensions v = Returned (wd, ht) ->
  (wd = None /\ ht = None)
  \/ exists st x y,
       v = Some st /\ stream_width st = Value x /\ stream_height st = Value y
       /\ wd = Some x /\ ht = Some y /\ (0 < x)%Z /\ (0 < y)%Z.
Proof.
  unfold probed_dimensions. destruct v as [st|]; [intros H|intros H; simplify_eq; by left].
  destruct (stream_width st) as [| |x] eqn:Ew; simpl in H; try done;
    destruct (stream_height st) as [| |y] eqn:Eh; simpl in H; try done;
    try (simplify_eq; by left).
  - destruct (x <=? 0)%Z eqn:E1; simpl in H; simplify_eq; by left.
  - destruct (x <=? 0)%Z eqn:E1; simpl in H; [simplify_eq; by left|].
    destruct (y <=? 0)%Z eqn:E2; simpl in H; simplify_eq; [by left|].
    right. exists st, x, y. apply Z.leb_gt in E1, E2. done.
Qed.

(** X2: when [get_video_info] answers a tuple, the three probes returned
    and nothing was printed; [has_audio] tells whether the audio probe lists
    a stream; the duration is the video stream's when that is positive, else
    the audio stream's when that is positive, else the container's; width
    and height are both [None], or the two positive sizes of the video
    stream. *)
Theorem get_video_info_reads_streams (w : world) (filepath : string)
    (s : state) (d : Q) (wd ht : option Z) (a : bool) (s' : state) :
  get_video_info w filepath s = (Returned (Some d, wd, ht, a), s') ->
  exists pv pa pf,
    probe w filepath select_v = Returned pv
    /\ probe w filepath select_a = Returned pa
    /\ probe w filepath select_all = Returned pf
    /\ s' = s
    /\ a = bool_decide (is_Some (head (streams pa)))
    /\ ((exists st, head (streams pv) = Some st
                    /\ stream_duration st = Value d)
        \/ (stream_lacks_duration (head (streams pv)) = true
            /\ exists st, head (streams pa) = Some st
                          /\ stream_duration st = Value d)
        \/ (stream_lacks_duration (head (streams pv)) = true
            /\ stream_lacks_duration (head (streams pa)) = true
            /\ format_duration pf = Value d))
    /\ ((wd = None /\ ht = None)
        \/ exists st x y,
             head (streams pv) = Some st
             /\ stream_width st = Value x /\ stream_height st = Value y
             /\ wd = Some x /\ ht = Some y /\ (0 < x)%Z /\ (0 < y)%Z).
Proof.
  unfold get_video_info. run_monad.
  destruct (bool_decide (filepath = "")); [done|].
  destruct (disk s !! filepath) as [size|]; [|done].
  destruct (size <? 100)%Z; [done|].
  destruct (probe w filepath select_v) as [pv|e1]; simpl.
  2:{ destruct (is_Exception e1); [by destruct e1|done]. }
  destruct (probe w filepath select_a) as [pa|e2]; simpl.
  2:{ destruct (is_Exception e2); [by destruct e2|done]. }
  destruct (probe w filepath select_all) as [pf|e3]; simpl.
  2:{ destruct (is_Exception e3); [by destruct e3|done]. }
  destruct (probed_duration _ _ _) as [d0|e] eqn:Ed; simpl.
  2:{ destruct (is_Exception e); [by destruct e|done]. }
  destruct (probed_dimensions _) as [[wd0 ht0]|e] eqn:Edim; simpl.
  2:{ destruct (is_Exception e); [by destruct e|done]. }
  destruct (Qle_bool d0 0.01) eqn:Egt; simpl; [done|].
  intros H; simplify_eq.
  apply not_true_iff_false in Egt. rewrite Qle_bool_iff in Egt.
  apply Qnot_le_lt in Egt.
  exists pv, pa, pf. do 5 (split; [done|]). split.
  - apply probed_duration_inv in Ed; [done|]. lra.
  - by apply probed_dimensions_inv.
Qed.
End ProberReads.

(** * The clean-up, exactly *)

Section CleanupExact.
Variable w : world.

Lemma cleanup_step_exact (n : nat) (p : string) (s : state) :
  exists n' s',
    cleanup_step w n p s = (Returned n', s')
    /\ ffmpeg_runs s' = ffmpeg_runs s
    /\ (forall q, disk s' !! q = swept w [p] (disk s) q)
    /\ (n' + size (disk s') = n + size (disk s))%nat
    /\ console s'
       = console s ++ map WarnRemoveFailed (List.filter (stuck w (disk s)) [p]).
Proof.
  unfold cleanup_step, stuck, swept. run_monad.
  destruct (bool_decide (is_Some (disk s !! p))) eqn:E.
  - apply bool_decide_eq_true in E as [x Hx].
    destruct (removable w p) eqn:Er; simpl.
    + eexists _, _. split; [reflexivity|]. simpl. split; [done|]. split.
      * intros q. destruct (decide (q = p)) as [->|Hne].
        -- rewrite lookup_delete_eq, bool_decide_eq_true_2, Er; [done|].
           apply list_elem_of_singleton. done.
        -- rewrite lookup_delete_ne by done.
           rewrite bool_decide_eq_false_2; [done|].
           by intros ?%list_elem_of_singleton.
      * split; [|by rewrite app_nil_r].
        rewrite map_size_delete_Some by (by eexists).
        assert (size (disk s) <> 0)%nat; [|lia].
        apply map_size_non_empty_iff. intros He. by rewrite He in Hx.
    + eexists _, _. split; [reflexivity|]. simpl. split; [done|]. split.
      * intros q. destruct (bool_decide (q ∈ [p])) eqn:Eq; simpl; [|done].
        apply bool_decide_eq_true in Eq. apply list_elem_of_singleton in Eq.
        subst q. by rewrite Er.
      * done.
  - eexists _, _. split; [reflexivity|]. simpl. split; [done|]. split.
    + intros q. destruct (bool_decide (q ∈ [p])) eqn:Eq; simpl; [|done].
      apply bool_decide_eq_true in Eq. apply list_elem_of_singleton in Eq.
      subst q. apply bool_decide_eq_false in E.
      apply eq_None_not_Some in E. rewrite E. by destruct (removable w p).
    + split; [done|]. by rewrite app_nil_r.
Qed.

Lemma swept_cons (p : string) (l : list string) (d d1 : gmap string Z)
    (q : string) :
  (forall q, d1 !! q = swept w [p] d q) ->
  swept w l d1 q = swept w (p :: l) d q.
Proof.
  intros H1. unfold swept in *. rewrite H1.
  destruct (removable w q); rewrite ?andb_true_r, ?andb_false_r; [|done].
  destruct (decide (q = p)) as [->|Hne].
  - rewrite (bool_decide_eq_true_2 (p ∈ [p])) by apply list_elem_of_here.
    rewrite (bool_decide_eq_true_2 (p ∈ p :: l)) by apply list_elem_of_here.
    by destruct (bool_decide (p ∈ l)).
  - rewrite (bool_decide_eq_false_2 (q ∈ [p]))
      by (by intros ?%list_elem_of_singleton).
    destruct (bool_decide (q ∈ l)) eqn:E.
    + apply bool_decide_eq_true in E. rewrite bool_decide_eq_true_2; [done|].
      by apply list_elem_of_further.
    + apply bool_decide_eq_false in E. rewrite bool_decide_eq_false_2; [done|].
      intros [?|?]%elem_of_cons; done.
Qed.

Lemma stuck_after_step (p : string) (d d1 : gmap string Z) (q : string) :
  (forall q, d1 !! q = swept w [p] d q) ->
  stuck w d1 q = stuck w d q.
Proof.
  intros H1. unfold stuck. rewrite H1. unfold swept.
  destruct (removable w q); rewrite ?andb_true_r, ?andb_false_r; done.
Qed.

Lemma cleanup_loop_exact (l : list string) :
  forall i n s,
    exists n' s',
      for_enumerateM (fun n (_ : nat) p => cleanup_step w n p) i l n s
      = (Returned n', s')
      /\ ffmpeg_runs s' = ffmpeg_runs s
      /\ (forall q, disk s' !! q = swept w l (disk s) q)
      /\ (n' + size (disk s') = n + size (disk s))%nat
      /\ console s'
         = console s ++ map WarnRemoveFailed (List.filter (stuck w (disk s)) l).
Proof.
  induction l as [|p l IH]; intros i n s; simpl.
  - eexists _, _. split; [reflexivity|]. split; [done|].
    split; [done|]. split; [done|]. by rewrite app_nil_r.
  - destruct (cleanup_step_exact n p s)
      as (n1 & s1 & H1 & Hr1 & Hd1 & Hn1 & Hc1).
    destruct (IH (S i) n1 s1) as (n2 & s2 & H2 & Hr2 & Hd2 & Hn2 & Hc2).
    exists n2, s2. split; [by unfold bind; rewrite H1|].
    split; [congruence|]. split.
    { intros q. rewrite Hd2. by apply swept_cons. }
    split; [lia|].
    rewrite Hc2, Hc1, <- app_assoc. f_equal.
    rewrite (filter_ext (stuck w (disk s1)) (stuck w (disk s)))
      by (intros q; by apply (stuck_after_step p)).
    simpl. by destruct (stuck w (disk s) p).
Qed.

Lemma cleanup_sweeps (temp_files : list string) (s : state) :
  exists s',
    cleanup_temp_files w temp_files s = (Returned tt, s')
    /\ ffmpeg_runs s' = ffmpeg_runs s
    /\ (forall q,
          disk s' !! q
          = if (bool_decide (q ∈ temp_files) && removable w q)%bool
            then None else disk s !! q)
    /\ console s'
       = console s
         ++ match temp_files with
            | [] => []
            | _ =>
              map WarnRemoveFailed
                  (List.filter
                     (fun p => (bool_decide (is_Some (disk s !! p))
                                && negb (removable w p))%bool) temp_files)
              ++ [InfoCleanedUp (size (disk s) - size (disk s'))]
            end.
Proof.
  unfold cleanup_temp_files. destruct temp_files as [|p l].
  - exists s. split; [done|]. split; [done|]. split; [done|].
    by rewrite app_nil_r.
  - destruct (cleanup_loop_exact (p :: l) 0 0%nat s)
      as (n & s1 & H1 & Hr & Hd & Hn & Hc).
    unfold bind. rewrite H1. run_monad.
    eexists. split; [reflexivity|]. simpl.
    split; [done|]. split; [exact Hd|].
    assert (n = size (disk s) - size (disk s1))%nat as -> by lia.
    by rewrite Hc, <- app_assoc.
Qed.

(** X3: [cleanup_temp_files] always returns and starts no process.
    Afterwards exactly the listed files that [os.remove] can remove are gone
    and every other file is as before; for a non-empty list it prints one
    warning for each entry that is on disk and cannot be removed, then the
    number of files that disappeared; for an empty list it prints nothing. *)
Theorem cleanup_temp_files_exact (temp_files : list string) (s : state) :
  exists s',
    cleanup_temp_files w temp_files s = (Returned tt, s')
    /\ ffmpeg_runs s' = ffmpeg_runs s
    /\ (forall q,
          disk s' !! q
          = if (bool_decide (q ∈ temp_files) && removable w q)%bool
            then None else disk s !! q)
    /\ console s'
       = console s
         ++ match temp_files with
            | [] => []
            | _ =>
              map WarnRemoveFailed
                  (List.filter
                     (fun p => (bool_decide (is_Some (disk s !! p))
                                && negb (removable w p))%bool) temp_files)
              ++ [InfoCleanedUp (size (disk s) - size (disk s'))]
            end.
Proof. apply cleanup_sweeps. Qed.
End CleanupExact.

(** * Wrapper paths *)

Section PathFacts.

Lemma chars_app (a b : string) :
  list_ascii_of_string (a +:+ b)
  = list_ascii_of_string a ++ list_ascii_of_string b.
Proof.
  induction a as [|c a IH]; [done|].
  change (String c a +:+ b) with (String c (a +:+ b)). simpl. by rewrite IH.
Qed.

Lemma string_of_chars_inj (l1 l2 : list ascii) :
  string_of_list_ascii l1 = string_of_list_ascii l2 -> l1 = l2.
Proof.
  intros H. apply (f_equal list_ascii_of_string) in H.
  by rewrite !list_ascii_of_string_of_list_ascii in H.
Qed.

Lemma chars_inj (a b : string) :
  list_ascii_of_string a = list_ascii_of_string b -> a = b.
Proof.
  intros H. apply (f_equal string_of_list_ascii) in H.
  by rewrite !string_of_list_ascii_of_string in H.
Qed.

Lemma pretty_N_char_digit (x : N) : is_digit (pretty_N_char x) = true.
Proof. unfold pretty_N_char. by repeat case_match. Qed.

Lemma pretty_N_go_digits (x : N) :
  forall s, exists ds,
    list_ascii_of_string (pretty_N_go x s) = ds ++ list_ascii_of_string s
    /\ forallb is_digit ds = true.
Proof.
  induction (N.lt_wf_0 x) as [x _ IH]. intros s.
  destruct (decide (x = 0)%N) as [->|Hx].
  - exists []. by rewrite pretty_N_go_0.
  - rewrite pretty_N_go_step by lia.
    destruct (IH (x `div` 10)%N) with (s := String (pretty_N_char (x `mod` 10)) s)
      as (ds & Hds & Hall).
    { apply N.div_lt; lia. }
    exists (ds ++ [pretty_N_char (x `mod` 10)]). split.
    + rewrite Hds. simpl. by rewrite <- app_assoc.
    + by rewrite forallb_app, Hall; simpl; rewrite pretty_N_char_digit.
Qed.

Lemma pretty_nat_digits (i : nat) :
  forallb is_digit (list_ascii_of_string (pretty i)) = true.
Proof.
  unfold pretty, pretty_nat, pretty, pretty_N.
  destruct (decide (N.of_nat i = 0)%N); [done|].
  destruct (pretty_N_go_digits (N.of_nat i) "") as (ds & -> & Hds).
  by rewrite app_nil_r.
Qed.

Lemma digits_prefix_unique (d1 d2 : list ascii) (c1 c2 : ascii)
    (r1 r2 : list ascii) :
  forallb is_digit d1 = true -> forallb is_digit d2 = true ->
  is_digit c1 = false -> is_digit c2 = false ->
  d1 ++ c1 :: r1 = d2 ++ c2 :: r2 -> d1 = d2.
Proof.
  revert d2. induction d1 as [|x d1 IH]; intros [|y d2] H1 H2 Hc1 Hc2 Heq;
    simpl in *.
  - done.
  - injection Heq as -> _. apply andb_true_iff in H2 as [H2 _]. congruence.
  - injection Heq as -> _. apply andb_true_iff in H1 as [H1 _]. congruence.
  - injection Heq as -> Heq. apply andb_true_iff in H1 as [_ H1].
    apply andb_true_iff in H2 as [_ H2]. f_equal. by apply IH.
Qed.

Lemma temp_video_name_inj (i j : nat) (b1 b2 : string) :
  temp_video_name i b1 = temp_video_name j b2 -> i = j.
Proof.
  unfold temp_video_name. intros H. apply app_inv_head in H.
  apply digits_prefix_unique in H;
    [|apply pretty_nat_digits|apply pretty_nat_digits|done|done].
  apply chars_inj in H. by apply (inj pretty) in H.
Qed.

Lemma temp_video_name_string (i : nat) (base_name : string) :
  ("temp_img_" +:+ pretty i +:+ "_"
   +:+ string_of_list_ascii (safe_base_of base_name) +:+ ".mp4")%string
  = string_of_list_ascii (temp_video_name i base_name).
Proof.
  apply chars_inj.
  by rewrite !chars_app, !list_ascii_of_string_of_list_ascii.
Qed.

Lemma temp_video_path_chars (output_dir : string) (i : nat)
    (base_name : string) :
  list_ascii_of_string (temp_video_path_of output_dir i base_name)
  = dir_prefix output_dir ++ temp_video_name i base_name.
Proof.
  unfold temp_video_path_of. fold (safe_base_of base_name).
  rewrite temp_video_name_string. unfold join, dir_prefix.
  rewrite list_ascii_of_string_of_list_ascii.
  change (take 1 (temp_video_name i base_name)) with ["t"%char].
  change (existsb is_slash ["t"%char]) with false. cbv iota.
  destruct (bool_decide (list_ascii_of_string output_dir = [])
            || existsb is_slash (take 1 (rev (list_ascii_of_string output_dir))))%bool.
  - by rewrite chars_app, list_ascii_of_string_of_list_ascii.
  - by rewrite !chars_app, list_ascii_of_string_of_list_ascii, <- app_assoc.
Qed.

(** The wrappers of two different positions differ. *)
Lemma temp_video_path_index (output_dir : string) (i j : nat)
    (b1 b2 : string) :
  temp_video_path_of output_dir i b1 = temp_video_path_of output_dir j b2 ->
  i = j.
Proof.
  intros Heq. apply (f_equal list_ascii_of_string) in Heq.
  rewrite !temp_video_path_chars in Heq. apply app_inv_head in Heq.
  by apply temp_video_name_inj in Heq.
Qed.

Lemma after_last_none (sep : ascii -> bool) (l : list ascii) :
  existsb sep l = false -> after_last sep l = l.
Proof.
  destruct l as [|c l]; [done|]. simpl. intros H.
  apply orb_false_iff in H as [-> ->]. done.
Qed.

Lemma upto_last_none (sep : ascii -> bool) (l : list ascii) :
  existsb sep l = false -> upto_last sep l = [].
Proof. destruct l as [|c l]; [done|]. cbn [upto_last]. by intros ->. Qed.

Lemma after_last_app (sep : ascii -> bool) (l : list ascii) (c : ascii)
    (r : list ascii) :
  sep c = true -> existsb sep r = false ->
  after_last sep (l ++ c :: r) = r.
Proof.
  intros Hc Hr. induction l as [|x l IH]; simpl.
  - by rewrite Hr, Hc.
  - by rewrite existsb_app; simpl; rewrite Hc, orb_true_r.
Qed.

Lemma upto_last_app (sep : ascii -> bool) (l : list ascii) (c : ascii)
    (r : list ascii) :
  sep c = true -> existsb sep r = false ->
  upto_last sep (l ++ c :: r) = l ++ [c].
Proof.
  intros Hc Hr. induction l as [|x l IH].
  - cbn [app upto_last existsb]. rewrite Hc. cbn [orb].
    by rewrite upto_last_none.
  - cbn [app upto_last]. rewrite IH.
    cbn [existsb]. rewrite existsb_app. cbn [existsb].
    by rewrite Hc, !orb_true_r.
Qed.

Lemma digit_plain (c : ascii) : is_digit c = true -> plain c = true.
Proof.
  destruct c as [[] [] [] [] [] [] [] []]; vm_compute; done.
Qed.

Lemma safe_char_plain (c : ascii) :
  plain (if isalnum c then c else "_"%char) = true.
Proof.
  destruct c as [[] [] [] [] [] [] [] []]; vm_compute; done.
Qed.

Lemma lower_char_plain (c : ascii) : plain (lower_char c) = plain c.
Proof.
  destruct c as [[] [] [] [] [] [] [] []]; vm_compute; done.
Qed.

Lemma lower_char_slash (c : ascii) : is_slash (lower_char c) = is_slash c.
Proof.
  destruct c as [[] [] [] [] [] [] [] []]; vm_compute; done.
Qed.

Lemma forallb_take {A} (f : A -> bool) (n : nat) (l : list A) :
  forallb f l = true -> forallb f (take n l) = true.
Proof.
  revert n. induction l as [|x l IH]; intros [|n]; simpl; try done.
  intros [-> H]%andb_true_iff. simpl. by apply IH.
Qed.

Lemma forallb_impl {A} (f g : A -> bool) (l : list A) :
  (forall x, f x = true -> g x = true) ->
  forallb f l = true -> forallb g l = true.
Proof.
  intros Hfg. induction l as [|x l IH]; simpl; [done|].
  intros [Hx Hl]%andb_true_iff. by rewrite (Hfg _ Hx), IH.
Qed.

Lemma temp_video_stem_plain (i : nat) (base_name : string) :
  forallb plain (temp_video_stem i base_name) = true.
Proof.
  unfold temp_video_stem. rewrite !forallb_app.
  rewrite (forallb_impl is_digit plain _ digit_plain (pretty_nat_digits i)).
  unfold safe_base_of. rewrite forallb_take; [done|].
  apply forallb_forall. intros c (x & <- & _)%in_map_iff.
  apply safe_char_plain.
Qed.

Lemma temp_video_name_stem (i : nat) (base_name : string) :
  temp_video_name i base_name
  = temp_video_stem i base_name ++ dot :: list_ascii_of_string "mp4".
Proof.
  unfold temp_video_name, temp_video_stem. by rewrite <- !app_assoc.
Qed.

Lemma plain_no_slash (l : list ascii) :
  forallb plain l = true -> existsb is_slash l = false.
Proof.
  induction l as [|c l IH]; simpl; [done|].
  intros [Hc Hl]%andb_true_iff. rewrite IH by done.
  unfold plain in Hc. by destruct (is_slash c).
Qed.

Lemma plain_no_dot (l : list ascii) :
  forallb plain l = true -> existsb is_dot l = false.
Proof.
  induction l as [|c l IH]; simpl; [done|].
  intros [Hc Hl]%andb_true_iff. rewrite IH by done.
  unfold plain in Hc. destruct (is_dot c); [|done]. by rewrite andb_false_r in Hc.
Qed.

Lemma dir_prefix_closed (output_dir : string) :
  closed_prefix (dir_prefix output_dir).
Proof.
  unfold dir_prefix, closed_prefix.
  generalize (list_ascii_of_string output_dir). intros la.
  destruct la as [|c la _] using rev_ind; [by left|].
  rewrite rev_app_distr. simpl.
  destruct (is_slash c) eqn:Ec; simpl.
  - rewrite orb_true_r. right. exists la. unfold is_slash in Ec.
    apply Ascii.eqb_eq in Ec. by subst c.
  - rewrite bool_decide_eq_false_2 by (by destruct la). simpl.
    right. by eexists.
Qed.

Lemma basename_closed (P name : list ascii) :
  closed_prefix P -> existsb is_slash name = false ->
  basename (string_of_list_ascii (P ++ name)) = string_of_list_ascii name.
Proof.
  intros [->|[P' ->]] Hname; unfold basename;
    rewrite list_ascii_of_string_of_list_ascii.
  - by rewrite after_last_none.
  - rewrite <- app_assoc. simpl. by rewrite after_last_app.
Qed.

Lemma extension_plain (P stem ext : list ascii) :
  closed_prefix P -> stem <> [] ->
  forallb plain stem = true -> forallb plain ext = true ->
  extension (string_of_list_ascii (P ++ stem ++ dot :: ext))
  = string_of_list_ascii (dot :: ext).
Proof.
  intros HP Hne Hstem Hext. unfold extension.
  rewrite basename_closed; [|done|].
  2:{ rewrite existsb_app. simpl. by rewrite !plain_no_slash. }
  rewrite list_ascii_of_string_of_list_ascii.
  rewrite existsb_app. simpl. rewrite orb_true_r.
  rewrite upto_last_app, after_last_app by (by try apply plain_no_dot).
  rewrite removelast_last.
  destruct stem as [|c stem]; [done|]. simpl in *.
  apply andb_true_iff in Hstem as [Hc _]. unfold plain in Hc.
  destruct (is_dot c); [by rewrite andb_false_r in Hc|done].
Qed.

Lemma drop_while_shape (f : ascii -> bool) (l : list ascii) :
  drop_while f l = [] \/ exists c r, drop_while f l = c :: r /\ f c = false.
Proof.
  induction l as [|c l IH]; simpl; [by left|].
  destruct (f c) eqn:E; [done|]. right. by exists c, l.
Qed.

Lemma dirname_normal (p : string) :
  normal_dir (list_ascii_of_string (dirname p)).
Proof.
  unfold dirname, normal_dir. rewrite list_ascii_of_string_of_list_ascii.
  destruct (forallb is_slash (upto_last is_slash (list_ascii_of_string p)))
    eqn:E; [by left|].
  unfold rstrip_slash.
  destruct (drop_while_shape is_slash
              (rev (upto_last is_slash (list_ascii_of_string p))))
    as [->|(c & r & -> & Hc)]; [by left|].
  right. exists (rev r), c. by simpl.
Qed.

Lemma dirname_of_child (la name : list ascii) :
  normal_dir la -> existsb is_slash name = false ->
  let P := if (bool_decide (la = []) || existsb is_slash (take 1 (rev la)))%bool
           then la else la ++ [slash] in
  dirname (string_of_list_ascii (P ++ name)) = string_of_list_ascii la.
Proof.
  intros Hla Hname. unfold dirname.
  rewrite list_ascii_of_string_of_list_ascii.
  destruct la as [|c la _] using rev_ind.
  { simpl. by rewrite upto_last_none. }
  rewrite rev_app_distr. simpl.
  rewrite bool_decide_eq_false_2 by (by destruct la). simpl.
  rewrite orb_false_r.
  destruct Hla as [Hall|(la' & c' & Heq & Hc')].
  - rewrite forallb_app in Hall. simpl in Hall.
    apply andb_true_iff in Hall as [Hla Hc]. rewrite andb_true_r in Hc.
    rewrite Hc. assert (c = slash) as ->.
    { unfold is_slash in Hc. by apply Ascii.eqb_eq in Hc. }
    rewrite <- app_assoc. simpl. rewrite upto_last_app by done.
    by rewrite forallb_app, Hla.
  - apply app_inj_tail in Heq as [<- <-]. rewrite Hc'.
    replace (((la ++ [c]) ++ [slash]) ++ name)
      with ((la ++ [c]) ++ slash :: name) by (by rewrite <- !app_assoc).
    rewrite (upto_last_app is_slash (la ++ [c]) slash name) by done.
    rewrite !forallb_app. simpl. rewrite Hc'. rewrite !andb_false_r.
    simpl. unfold rstrip_slash. rewrite !rev_app_distr. simpl.
    rewrite Hc'. simpl. by rewrite rev_involutive.
Qed.

(** X4: for images with ASCII file names, the wrapper of an image lies in
    the directory of the output file, is never itself an image path (its
    extension is [.mp4]), and the wrappers of two different positions of
    [clip_paths] differ, whatever the two file names. *)
Theorem wrapper_path_facts (output_filepath : string) (i j : nat)
    (base_name other_name : string) :
  is_ascii base_name = true -> is_ascii other_name = true ->
  let output_dir := dirname output_filepath in
  dirname (temp_video_path_of output_dir i base_name) = output_dir
  /\ is_image_path (temp_video_path_of output_dir i base_name) = false
  /\ (temp_video_path_of output_dir i base_name
      = temp_video_path_of output_dir j other_name -> i = j).
Proof.
  intros _ _ output_dir. split; [|split].
  - rewrite <- (string_of_list_ascii_of_string
                 (temp_video_path_of output_dir i base_name)).
    rewrite temp_video_path_chars. unfold dir_prefix.
    rewrite (dirname_of_child (list_ascii_of_string output_dir)).
    + apply string_of_list_ascii_of_string.
    + apply dirname_normal.
    + rewrite temp_video_name_stem, existsb_app.
      by rewrite plain_no_slash by apply temp_video_stem_plain.
  - unfold is_image_path, lower. rewrite temp_video_path_chars.
    rewrite temp_video_name_stem, !map_app.
    change (map lower_char (dot :: list_ascii_of_string "mp4"))
      with (dot :: list_ascii_of_string "mp4").
    rewrite extension_plain; [done| | | |done].
    + destruct (dir_prefix_closed output_dir) as [->|[P' ->]]; [by left|].
      right. exists (map lower_char P'). by rewrite map_app.
    + unfold temp_video_stem. done.
    + apply forallb_forall. intros c (x & <- & Hx)%in_map_iff.
      rewrite lower_char_plain.
      by apply (proj1 (forallb_forall _ _) (temp_video_stem_plain i base_name)).
  - apply temp_video_path_index.
Qed.
End PathFacts.

(** * The order of clips and processes *)

Section FilterOrder.
Local Open Scope Q_scope.
Variable w : world.
Variable cfg : config.
Variable output_dir : string.

Lemma get_video_info_frame (filepath : string) (s : state) :
  exists r s',
    get_video_info w filepath s = (r, s')
    /\ disk s' = disk s /\ ffmpeg_runs s' = ffmpeg_runs s.
Proof.
  destruct (get_video_info_contract w filepath s)
    as (r & s' & Hrun & _ & Hd & Hr & _).
  by exists r, s'.
Qed.

Lemma keep_probed_wrapper_appends (st : filtered) (tmp : string) (d : Q) :
  exists c, inputs_info (keep_probed_wrapper cfg st tmp d)
            = inputs_info st ++ [c] /\ info_path c = tmp.
Proof. by eexists. Qed.

Lemma keep_fallback_wrapper_appends (st : filtered) (tmp : string) :
  exists c, inputs_info (keep_fallback_wrapper cfg st tmp)
            = inputs_info st ++ [c] /\ info_path c = tmp.
Proof. by eexists. Qed.

Lemma keep_video_appends (st : filtered) (path : string) (d : Q)
    (wd ht : option Z) (a : bool) :
  exists c, inputs_info (fst (keep_video cfg st path d wd ht a))
            = inputs_info st ++ [c] /\ info_path c = path.
Proof. by eexists. Qed.

Local Opaque get_video_info keep_video keep_probed_wrapper
  keep_fallback_wrapper.

Lemma preprocess_step_trace (st : filtered) (i : nat) (path : string)
    (s : state) :
  exists r s',
    preprocess_step w cfg output_dir st i path s = (r, s')
    /\ (forall q, is_Some (disk s !! q) -> is_Some (disk s' !! q))
    /\ ffmpeg_runs s'
       = ffmpeg_runs s
         ++ (if (present_at s path && is_image_path path)%bool
             then [RunConvert path
                     (temp_video_path_of output_dir i (basename path))]
             else [])
    /\ (present_at s path = false ->
        r = Returned st
        /\ s' = {| disk := disk s;
                   console := console s ++ [WarnSkipMissing path];
                   ffmpeg_runs := ffmpeg_runs s |})
    /\ (forall st', r = Returned st' ->
          inputs_info st' = inputs_info st
          \/ exists c, inputs_info st' = inputs_info st ++ [c]
                       /\ info_path c = clip_source output_dir i path
                       /\ is_Some (disk s' !! info_path c)).
Proof.
  unfold preprocess_step, present_at, clip_source. run_monad.
  destruct (bool_decide (path = "")) eqn:Ee; simpl.
  { eexists _, _. split; [reflexivity|]. simpl. split; [done|].
    split; [by rewrite app_nil_r|]. split; [done|].
    intros st' [= <-]. by left. }
  destruct (bool_decide (is_Some (disk s !! path))) eqn:Ep; simpl.
  2:{ eexists _, _. split; [reflexivity|]. simpl. split; [done|].
      split; [by rewrite app_nil_r|]. split; [done|].
      intros st' [= <-]. by left. }
  apply bool_decide_eq_true in Ep.
  destruct (is_image_path path).
  - unfold normalize_image. run_monad.
    set (tmp := temp_video_path_of output_dir i (basename path)).
    set (d1 := match written (convert_image w path tmp) with
               | Some size => <[tmp:=size]> (disk s)
               | None => disk s
               end).
    assert (Hgrow : forall q, is_Some (disk s !! q) -> is_Some (d1 !! q)).
    { intros q Hq. subst d1. destruct (written _); [|done].
      destruct (decide (tmp = q)) as [->|Hne].
      - rewrite lookup_insert_eq. by eexists.
      - by rewrite lookup_insert_ne. }
    destruct (ended (convert_image w path tmp)) as [stderr|e] eqn:Eend.
    2:{ destruct (is_Exception e) eqn:He.
        - destruct e; try done;
            (eexists _, _; split; [reflexivity|]; simpl; split; [done|];
             split; [done|]; split; [done|]; intros st' [= <-]; by left).
        - eexists _, _. split; [reflexivity|]. simpl. split; [done|].
          split; [done|]. split; [done|]. done. }
    destruct (bool_decide (is_Some (d1 !! tmp))) eqn:Et.
    2:{ eexists _, _. split; [reflexivity|]. simpl. split; [done|].
        split; [done|]. split; [done|]. intros st' [= <-]. by left. }
    apply bool_decide_eq_true in Et.
    match goal with
    | |- context [get_video_info w tmp ?s1] =>
        destruct (get_video_info_frame tmp s1) as (r & s2 & -> & Hd2 & Hr2)
    end.
    simpl in Hd2, Hr2.
    destruct r as [[[[[d|] wd] ht] a]|e]; simpl.
    + destruct (negb (Qle_bool d 0)).
      * eexists _, _. split; [reflexivity|]. simpl. rewrite Hd2, Hr2.
        split; [done|]. split; [done|]. split; [done|].
        intros st' [= <-]. right.
        destruct (keep_probed_wrapper_appends st tmp d) as (c & -> & Hc).
        exists c. by rewrite Hc.
      * eexists _, _. split; [reflexivity|]. simpl. rewrite Hd2, Hr2.
        split; [done|]. split; [done|]. split; [done|].
        intros st' [= <-]. right.
        destruct (keep_fallback_wrapper_appends st tmp) as (c & -> & Hc).
        exists c. by rewrite Hc.
    + eexists _, _. split; [reflexivity|]. simpl. rewrite Hd2, Hr2.
      split; [done|]. split; [done|]. split; [done|].
      intros st' [= <-]. right.
      destruct (keep_fallback_wrapper_appends st tmp) as (c & -> & Hc).
      exists c. by rewrite Hc.
    + destruct (is_Exception e) eqn:He.
      * destruct e; try done;
          (eexists _, _; split; [reflexivity|]; simpl; rewrite Hd2, Hr2;
           split; [done|]; split; [done|]; split; [done|];
           intros st' [= <-]; by left).
      * eexists _, _. split; [reflexivity|]. rewrite Hd2, Hr2.
        split; [done|]. split; [done|]. split; [done|]. done.
  - unfold admit_video. run_monad.
    destruct (get_video_info_frame path s) as (r & s2 & -> & Hd2 & Hr2).
    destruct r as [[[[[d|] wd] ht] a]|e]; simpl.
    + destruct (negb (Qle_bool d 0)).
      * destruct (keep_video_appends st path d wd ht a) as (c & Hst1 & Hc).
        destruct (keep_video cfg st path d wd ht a) as [st1 sets] eqn:Ek.
        simpl in Hst1.
        destruct sets.
        -- eexists _, _. split; [reflexivity|]. simpl. rewrite Hd2, Hr2.
           split; [done|]. split; [by rewrite app_nil_r|]. split; [done|].
           intros st' [= <-]. right. exists c. by rewrite Hc.
        -- eexists _, _. split; [reflexivity|]. simpl. rewrite Hd2, Hr2.
           split; [done|]. split; [by rewrite app_nil_r|]. split; [done|].
           intros st' [= <-]. right. exists c. by rewrite Hc.
      * eexists _, _. split; [reflexivity|]. simpl. rewrite Hd2, Hr2.
        split; [done|]. split; [by rewrite app_nil_r|]. split; [done|].
        intros st' [= <-]. by left.
    + eexists _, _. split; [reflexivity|]. simpl. rewrite Hd2, Hr2.
      split; [done|]. split; [by rewrite app_nil_r|]. split; [done|].
      intros st' [= <-]. by left.
    + eexists _, _. split; [reflexivity|]. rewrite Hd2, Hr2.
      split; [done|]. split; [by rewrite app_nil_r|]. split; [done|]. done.
Qed.

Lemma present_at_grows (s s' : state) (p : string) :
  (forall q, is_Some (disk s !! q) -> is_Some (disk s' !! q)) ->
  present_at s p = true -> present_at s' p = true.
Proof.
  unfold present_at. intros Hgrow [Hne Hp]%andb_true_iff.
  rewrite Hne. simpl. apply bool_decide_eq_true. apply Hgrow.
  by apply bool_decide_eq_true in Hp.
Qed.

Lemma preprocess_loop_trace (l : list string) :
  forall i st s,
    exists r s',
      for_enumerateM (preprocess_step w cfg output_dir) i l st s = (r, s')
      /\ (forall q, is_Some (disk s !! q) -> is_Some (disk s' !! q))
      /\ (exists runs,
            ffmpeg_runs s' = ffmpeg_runs s ++ runs
            /\ runs `sublist_of` conversions_from output_dir i l
            /\ (Forall (fun p => present_at s p = true) l ->
                (exists st', r = Returned st') ->
                runs = conversions_from output_dir i l))
      /\ (forall st', r = Returned st' ->
            exists kept,
              inputs_info st' = inputs_info st ++ kept
              /\ map info_path kept `sublist_of` sources_from output_dir i l
              /\ Forall (fun c => is_Some (disk s' !! info_path c)) kept).
Proof.
  induction l as [|p l IH]; intros i st s.
  - eexists _, _. split; [reflexivity|]. split; [done|]. split.
    + exists []. by rewrite app_nil_r.
    + intros st' [= <-]. exists []. by rewrite app_nil_r.
  - cbn [for_enumerateM]. unfold bind.
    destruct (preprocess_step_trace st i p s)
      as (r1 & s1 & -> & Hg1 & Hr1 & _ & Hk1).
    destruct r1 as [st1|e].
    2:{ eexists _, _. split; [reflexivity|]. split; [done|]. split.
        - eexists. split; [exact Hr1|]. split.
          + cbn [conversions_from].
            destruct (present_at s p && is_image_path p)%bool eqn:E.
            * apply andb_true_iff in E as [_ ->].
              apply sublist_skip, sublist_nil_l.
            * apply sublist_nil_l.
          + by intros _ [st' [=]].
        - done. }
    destruct (IH (S i) st1 s1) as (r & s2 & -> & Hg2 & Hruns2 & Hk2).
    eexists _, _. split; [reflexivity|]. split; [by auto|]. split.
    + destruct Hruns2 as (runs & Hr2 & Hsub & Hall).
      eexists. split; [by rewrite Hr2, Hr1, <- app_assoc|]. split.
      * cbn [conversions_from]. apply sublist_app; [|done].
        destruct (present_at s p && is_image_path p)%bool eqn:E.
        -- apply andb_true_iff in E as [_ ->]. done.
        -- apply sublist_nil_l.
      * intros Hpres Hret. apply Forall_cons in Hpres as [Hp Hpres].
        cbn [conversions_from]. rewrite Hp. cbn [andb]. f_equal.
        apply Hall; [|done].
        eapply Forall_impl; [exact Hpres|]. intros q Hq.
        by apply (present_at_grows s s1).
    + intros st' ->. destruct (Hk2 st' eq_refl) as (kept & Hkept & Hsub & Hex).
      destruct (Hk1 st1 eq_refl) as [Hsame|(c & Hc & Hpath & Hexc)].
      * exists kept. rewrite Hkept, Hsame. split; [done|]. split; [|done].
        cbn [sources_from]. by apply sublist_cons.
      * exists (c :: kept). rewrite Hkept, Hc, <- app_assoc.
        split; [done|]. split.
        -- cbn [sources_from map]. rewrite Hpath. by apply sublist_skip.
        -- apply Forall_cons. split; [by apply Hg2|done].
Qed.

Lemma preprocess_all_missing (l : list string) :
  forall i st s,
    Forall (fun p => present_at s p = false) l ->
    for_enumerateM (preprocess_step w cfg output_dir) i l st s
    = (Returned st,
       {| disk := disk s; console := console s ++ map WarnSkipMissing l;
          ffmpeg_runs := ffmpeg_runs s |}).
Proof.
  induction l as [|p l IH]; intros i st s Hall.
  - simpl. rewrite app_nil_r. by destruct s.
  - apply Forall_cons in Hall as [Hp Hall].
    cbn [for_enumerateM]. unfold bind.
    destruct (preprocess_step_trace st i p s)
      as (r1 & s1 & -> & _ & _ & Hmiss & _).
    destruct (Hmiss Hp) as [-> ->].
    rewrite IH; [simpl; by rewrite <- app_assoc|].
    eapply Forall_impl; [exact Hall|]. done.
Qed.

(** X5: the kept clips follow the order of [clip_paths], at most one per
    path: their files are a sublist of the paths, read as the path itself
    for a video and as the wrapper for an image; every kept clip's file is
    on disk when filtering ends, and filtering removes no file. *)
Theorem kept_clips_follow_inputs (clip_paths : list string) (s : state)
    (st : filtered) (s' : state) :
  preprocess w cfg output_dir clip_paths s = (Returned st, s') ->
  map info_path (inputs_info st)
    `sublist_of` sources_from output_dir 0 clip_paths
  /\ (length (inputs_info st) <= length clip_paths)%nat
  /\ Forall (fun c => is_Some (disk s' !! info_path c)) (inputs_info st)
  /\ (forall q, is_Some (disk s !! q) -> is_Some (disk s' !! q)).
Proof.
  unfold preprocess. intros Hrun.
  destruct (preprocess_loop_trace clip_paths 0 (nothing_filtered cfg) s)
    as (r & s1 & Hrun1 & Hg & _ & Hk).
  rewrite Hrun in Hrun1. injection Hrun1 as <- <-.
  destruct (Hk st eq_refl) as (kept & Hkept & Hsub & Hex).
  simpl in Hkept. subst kept. split; [done|]. split; [|done].
  apply sublist_length in Hsub. rewrite length_map in Hsub.
  assert (Hlen : forall l i, length (sources_from output_dir i l) = length l).
  { induction l as [|x l IHl]; intros i; simpl; [done|]. by rewrite IHl. }
  by rewrite Hlen in Hsub.
Qed.

End FilterOrder.

Section ProcessOrder.
Variable w : world.
Variable cfg : config.

Lemma job_unfold (p : string) (paths : list string) (output : string)
    (s : state) :
  compose_video_ffmpeg_with_crossfade w cfg (p :: paths) output s
  = match preprocess w cfg (dirname output) (p :: paths) s with
    | (Returned st, s1) => compose_filtered w cfg st output s1
    | (Raised e, s1) => (Raised e, s1)
    end.
Proof. done. Qed.

(** X6: the processes of a job are conversions of images of
    [clip_paths], in the order of the list and each to its own wrapper,
    followed by at most one run of the encoder, to the output path.  When
    every path exists at the start and the job returns, there is exactly one
    conversion for each image entry of the list. *)
Theorem job_process_order (clip_paths : list string) (output : string)
    (s : state) :
  let job := compose_video_ffmpeg_with_crossfade w cfg clip_paths output s in
  exists convs enc,
    ffmpeg_runs (snd job) = ffmpeg_runs s ++ convs ++ enc
    /\ convs `sublist_of` conversions_from (dirname output) 0 clip_paths
    /\ (enc = [] \/ exists v a, enc = [RunEncode v a output])
    /\ (Forall (fun p => p <> "" /\ is_Some (disk s !! p)) clip_paths ->
        (exists b, fst job = Returned b) ->
        convs = conversions_from (dirname output) 0 clip_paths).
Proof.
  intros job. subst job.
  destruct clip_paths as [|p0 paths].
  { exists [], []. simpl. rewrite app_nil_r. split; [done|].
    split; [done|]. split; [by left|done]. }
  rewrite (job_unfold p0 paths output s). unfold preprocess.
  destruct (preprocess_loop_trace w cfg (dirname output) (p0 :: paths) 0
              (nothing_filtered cfg) s)
    as (r & s1 & -> & _ & (convs & Hr & Hsub & Hall) & _).
  destruct r as [st|e].
  2:{ exists convs, []. simpl. rewrite app_nil_r. split; [done|].
      split; [done|]. split; [by left|]. by intros _ [b [=]]. }
  assert (Hconvs : Forall (fun p => p <> "" /\ is_Some (disk s !! p))
                     (p0 :: paths) ->
                   convs = conversions_from (dirname output) 0 (p0 :: paths)).
  { intros Hpres. apply Hall; [|by eexists].
    eapply Forall_impl; [exact Hpres|]. intros p [Hne Hp].
    unfold present_at.
    by rewrite bool_decide_eq_false_2, bool_decide_eq_true_2. }
  destruct (compose_filtered_effect w cfg st output s1)
    as (r & s' & -> & Hcases).
  simpl.
  destruct Hcases as [(_ & _ & Hsame & _)|[(e & _ & _ & _ & _ & Hsame)|
                      (pv & pa & fa & _ & _ & Henc & _)]].
  - exists convs, []. rewrite app_nil_r, Hsame. split; [done|].
    split; [done|]. split; [by left|]. by intros Hpres _; apply Hconvs.
  - exists convs, []. rewrite app_nil_r, Hsame. split; [done|].
    split; [done|]. split; [by left|]. by intros Hpres _; apply Hconvs.
  - exists convs, [RunEncode pv fa output]. rewrite Henc, Hr, <- app_assoc.
    split; [done|]. split; [done|]. split; [right; by eexists _, _|].
    by intros Hpres _; apply Hconvs.
Qed.
End ProcessOrder.

Section MissingInputs.

(** X7: when no path of [clip_paths] names an existing file, the job
    returns [False] after one warning per path and the no-valid-inputs error
    (for an empty list, after the no-paths error alone); no process is
    started and no file is touched. *)
Theorem missing_inputs_fail_cleanly (w : world) (cfg : config)
    (clip_paths : list string) (output_filepath : string) (s : state) :
  Forall (fun p => p = "" \/ disk s !! p = None) clip_paths ->
  compose_video_ffmpeg_with_crossfade w cfg clip_paths output_filepath s
  = (Returned false,
     {| disk := disk s;
        console := console s
                   ++ match clip_paths with
                      | [] => [ErrNoClipPaths]
                      | _ => map WarnSkipMissing clip_paths
                             ++ [ErrNoValidInputs]
                      end;
        ffmpeg_runs := ffmpeg_runs s |}).
Proof.
  intros Hall. unfold compose_video_ffmpeg_with_crossfade.
  destruct clip_paths as [|p l]; [done|].
  cbn [is_empty]. unfold bind at 1. unfold preprocess.
  rewrite preprocess_all_missing.
  2:{ eapply Forall_impl; [exact Hall|]. intros q Hq. unfold present_at.
      destruct Hq as [->|Hq]; [done|].
      rewrite (bool_decide_eq_false_2 (is_Some _)); [by rewrite andb_false_r|].
      rewrite Hq. by intros [? ?]. }
  unfold compose_filtered. cbn. by rewrite <- app_assoc.
Qed.
End MissingInputs.

(** * What the encoder is given *)

Section EncoderInputs.
Local Open Scope Q_scope.

Lemma processed_video_sources (tw th fps : Z) (c : clip_info) :
  video_sources (processed_video_of tw th fps c) = [clip_video_source c]
  /\ xfades (processed_video_of tw th fps c) = [].
Proof. unfold processed_video_of. by case_match. Qed.

Lemma xfade_fold_raised (t : Q) (starts : list Q) (vs : list vstream)
    (l : list nat) (e : exn) :
  fold_left (xfade_step t starts vs) l (Raised e) = Raised e.
Proof. induction l as [|a l IH]; [done|]. simpl. exact IH. Qed.

Lemma xfade_chain_shape (t : Q) (starts : list Q) (tw th fps : Z)
    (infos : list clip_info) (m : nat) :
  forall a v v',
    fold_left (xfade_step t starts
                 (map (processed_video_of tw th fps) infos))
              (seq a m) (Returned v) = Returned v' ->
    video_sources v'
    = video_sources v ++ map clip_video_source (take m (drop a infos))
    /\ xfades v' = xfades v ++ map (fun o => (t, o)) (take m (drop a starts)).
Proof.
  induction m as [|m IH]; intros a v v' Hfold; simpl in Hfold.
  - injection Hfold as <-. by rewrite !app_nil_r.
  - unfold index in Hfold.
    destruct (starts !! a) as [o|] eqn:Eo; simpl in Hfold.
    2:{ by rewrite xfade_fold_raised in Hfold. }
    rewrite list_lookup_fmap in Hfold.
    destruct (infos !! a) as [c|] eqn:Ec; simpl in Hfold.
    2:{ by rewrite xfade_fold_raised in Hfold. }
    apply IH in Hfold as [Hsrc Hx]. cbn [video_sources xfades] in Hsrc, Hx.
    destruct (processed_video_sources tw th fps c) as [Hc1 Hc2].
    rewrite Hc1 in Hsrc. rewrite Hc2 in Hx. simpl in Hx.
    rewrite (drop_S _ _ _ Ec), (drop_S _ _ _ Eo). simpl.
    by rewrite Hsrc, Hx, <- !app_assoc.
Qed.

Lemma delayed_from_sources (starts : list Q) (infos : list clip_info) :
  forall i,
    flat_map audio_sources (delayed_from starts i infos)
    = map clip_audio_source infos.
Proof.
  induction infos as [|c infos IH]; intros i; [done|].
  cbn [delayed_from flat_map map]. rewrite IH. f_equal.
  unfold delayed_audio_at, audio_source_of, clip_audio_source. simpl.
  by destruct (info_has_audio c).
Qed.

Lemma apply_transitions_sources (t : Q) (starts : list Q) (tw th fps : Z)
    (infos : list clip_info) (v : vstream) (a : astream) :
  apply_transitions t (length infos) starts
    (map (processed_video_of tw th fps) infos) (delayed_from starts 0 infos)
  = Returned (Some (v, a)) ->
  video_sources v = map clip_video_source infos
  /\ xfades v = map (fun o => (t, o)) (take (length infos - 1) (drop 1 starts))
  /\ audio_sources a = map clip_audio_source infos.
Proof.
  unfold apply_transitions. intros H.
  destruct (1 <? length infos)%nat eqn:E1.
  - unfold index at 1 in H. rewrite list_lookup_fmap in H.
    destruct infos as [|c infos]; [done|]. simpl in H.
    destruct (fold_left _ _ _) as [pv|] eqn:Efold; [|done].
    simpl in H. injection H as <- <-.
    rewrite Nat.sub_0_r in Efold.
    apply (xfade_chain_shape t starts tw th fps (c :: infos)) in Efold
      as [Hsrc Hx].
    destruct (processed_video_sources tw th fps c) as [Hc1 Hc2].
    rewrite Hc1 in Hsrc. rewrite Hc2 in Hx. simpl in Hsrc, Hx.
    rewrite drop_0 in Hsrc. rewrite firstn_all in Hsrc.
    split; [done|]. split.
    + simpl. by rewrite Nat.sub_0_r.
    + cbn [audio_sources].
      apply (delayed_from_sources starts (c :: infos) 0).
  - destruct (length infos =? 1)%nat eqn:E2; [|done].
    apply Nat.eqb_eq in E2. destruct infos as [|c [|? ?]]; try done.
    simpl in H. injection H as <- <-.
    destruct (processed_video_sources tw th fps c) as [Hc1 Hc2].
    split; [done|]. split; [by rewrite Hc2|].
    unfold delayed_audio_at, audio_source_of, clip_audio_source. simpl.
    by destruct (info_has_audio c).
Qed.

(** X8: what the encoder is given.  The video reads the kept clips in
    order, each once and cut at its recorded duration, through one
    cross-fade per clip after the first, of the configured duration and with
    that clip's scheduled start as offset; the audio reads one source per
    kept clip in the same order (the clip's own track, or silence of its
    duration), followed by further sources only when background music is
    configured. *)
Theorem encoder_reads_kept_clips (w : world) (cfg : config) (st : filtered)
    (output : string) (s : state) (v : vstream) (a : astream) :
  let t := transition_duration cfg in
  let infos := inputs_info st in
  let starts := clip_start_times (map info_duration infos) t in
  ffmpeg_runs (snd (compose_filtered w cfg st output s))
  = ffmpeg_runs s ++ [RunEncode v a output] ->
  video_sources v = map clip_video_source infos
  /\ xfades v = map (fun o => (t, o)) (drop 1 starts)
  /\ (exists music,
        audio_sources a = map clip_audio_source infos ++ music
        /\ (bg_music_path cfg = None -> music = [])).
Proof.
  intros t infos starts Hruns.
  destruct (compose_filtered_effect w cfg st output s)
    as (r & s' & Hrun & Hcases).
  rewrite Hrun in Hruns. simpl in Hruns.
  destruct Hcases as [(_ & _ & Hsame & _)|[(e & _ & _ & _ & _ & Hsame)|
                      (pv & pa & fa & Hj & Hfa & Henc & _)]].
  - rewrite Hsame in Hruns. apply (f_equal length) in Hruns.
    rewrite length_app in Hruns. simpl in Hruns. lia.
  - rewrite Hsame in Hruns. apply (f_equal length) in Hruns.
    rewrite length_app in Hruns. simpl in Hruns. lia.
  - rewrite Henc in Hruns. apply app_inv_head in Hruns.
    injection Hruns as <- <-.
    apply apply_transitions_sources in Hj as (Hv & Hx & Ha).
    split; [done|]. split.
    + rewrite Hx. fold t infos starts. rewrite take_ge; [done|].
      rewrite length_drop. subst starts.
      rewrite clip_start_times_length, length_map. done.
    + destruct Hfa as [->|(Hbg & bgm & ->)].
      * exists []. by rewrite app_nil_r.
      * exists (audio_sources bgm). split; [|done].
        cbn [audio_sources flat_map]. by rewrite Ha, app_nil_r.
Qed.
End EncoderInputs.

(** * Background music *)

Section BackgroundMusic.
Local Open Scope Q_scope.
Variable w : world.
Variable cfg : config.


Local Opaque get_video_info bgm_audio_of.

End BackgroundMusic.

(** * When the job answers [True] *)

Section Success.
Variable w : world.

Local Opaque cleanup_temp_files.

(** The encoding stage answers [True] only after a run of the encoder that
    ended normally and left more than 1000 bytes at the output path. *)
Lemma encode_output_true (temp_files : list string) (v : vstream)
    (a : astream) (output : string) (s s' : state) :
  encode_output w temp_files v a output s = (Returned true, s') ->
  (exists stderr, ended (encode w v a output) = Returned stderr)
  /\ ffmpeg_runs s' = ffmpeg_runs s ++ [RunEncode v a output]
  /\ InfoSuccess output ∈ console s'
  /\ exists size,
       (1000 < size)%Z
       /\ match written (encode w v a output) with
          | Some n => n = size
          | None => disk s !! output = Some size
          end
       /\ disk s' !! output
          = if (bool_decide (output ∈ temp_files) && removable w output)%bool
            then None else Some size.
Proof.
  unfold encode_output, try_finally, try_except. run_monad.
  set (d1 := match written (encode w v a output) with
             | Some size => <[output:=size]> (disk s)
             | None => disk s
             end).
  destruct (ended (encode w v a output)) as [stderr|e] eqn:Eend.
  2:{ destruct (is_Exception e) eqn:He.
      - destruct e; try done;
          match goal with
          | |- context [cleanup_temp_files w ?l ?s0] =>
              destruct (cleanup_sweeps w l s0) as (s2 & -> & _)
          end; done.
      - match goal with
        | |- context [cleanup_temp_files w ?l ?s0] =>
            destruct (cleanup_sweeps w l s0) as (s2 & -> & _)
        end. done. }
  destruct (d1 !! output) as [size|] eqn:Esize.
  2:{ match goal with
      | |- context [cleanup_temp_files w ?l ?s0] =>
          destruct (cleanup_sweeps w l s0) as (s2 & -> & _)
      end. done. }
  destruct (1000 <? size)%Z eqn:Ebig.
  2:{ match goal with
      | |- context [cleanup_temp_files w ?l ?s0] =>
          destruct (cleanup_sweeps w l s0) as (s2 & -> & _)
      end. done. }
  match goal with
  | |- context [cleanup_temp_files w ?l ?s0] =>
      destruct (cleanup_sweeps w l s0) as (s2 & -> & Hr & Hd & Hc)
  end.
  simpl in Hr, Hd, Hc. intros [= <-].
  split; [by eexists|]. split; [done|]. split.
  { rewrite Hc. apply elem_of_app. left. apply elem_of_app. right.
    apply list_elem_of_singleton. done. }
  exists size. split; [by apply Z.ltb_lt|]. split.
  - subst d1. destruct (written (encode w v a output)); [|done].
    rewrite lookup_insert_eq in Esize. by injection Esize.
  - by rewrite Hd, Esize.
Qed.

Local Opaque get_video_info encode_output add_background_music
  master_timeline build_streams apply_transitions.

(** A job that answers [True] went through the encoding stage. *)
Lemma compose_filtered_true (cfg : config) (st : filtered) (output : string)
    (s s' : state) :
  compose_filtered w cfg st output s = (Returned true, s') ->
  inputs_info st <> []
  /\ exists s2 v a,
       disk s2 = disk s /\ ffmpeg_runs s2 = ffmpeg_runs s
       /\ encode_output w (temp_files st) v a output s2 = (Returned true, s').
Proof.
  unfold compose_filtered.
  destruct (negb (valid_clips_exist st) || is_empty (inputs_info st))%bool
    eqn:Econd.
  { run_monad.
    match goal with
    | |- context [cleanup_temp_files w ?l ?s0] =>
        destruct (cleanup_sweeps w l s0) as (s1 & -> & _)
    end. done. }
  apply orb_false_iff in Econd as [_ Hne].
  intros Hrun. split; [by destruct (inputs_info st)|].
  revert Hrun. rewrite master_timeline_pair. cbv beta iota zeta.
  unfold try_or_return, lift.
  set (t := transition_duration cfg).
  set (infos := inputs_info st).
  set (starts := clip_start_times (map info_duration infos) t).
  assert (Hb := build_on_timeline infos t (final_video_width st)
                  (final_video_height st) (target_fps cfg)).
  cbv zeta in Hb. fold starts in Hb. rewrite Hb. clear Hb.
  unfold bind.
  set (s0 := snd ((if first_video_dims_found st then ret ()
                   else print WarnNoDimensions) s)).
  assert (Hs0 : (if first_video_dims_found st then ret ()
                 else print WarnNoDimensions) s = (Returned (), s0)
                /\ disk s0 = disk s /\ ffmpeg_runs s0 = ffmpeg_runs s).
  { subst s0. by destruct (first_video_dims_found st). }
  destruct Hs0 as (-> & Hd0 & Hr0). clearbody s0.
  unfold print at 1.
  destruct (apply_transitions _ _ _ _ _) as [[[pv pa]|]|e]; simpl.
  - match goal with
    | |- context [add_background_music w cfg ?tot pa ?s1] =>
        destruct (add_background_music_effect w cfg tot pa s1)
          as (rb & s2 & -> & Hd2 & Hr2 & _)
    end.
    simpl in Hd2, Hr2. destruct rb as [fa|e]; [|done].
    intros Henc. exists s2, pv, fa. split; [congruence|].
    split; [congruence|done].
  - run_monad.
    match goal with
    | |- context [cleanup_temp_files w ?l ?s1] =>
        destruct (cleanup_sweeps w l s1) as (s2 & -> & _)
    end. done.
  - done.
Qed.

(** X10: the job answers [True] only if filtering kept a clip, the last
    process it started is the encoder on the output path, that run ended
    normally, the success message was printed, and the output file held more
    than 1000 bytes when the encoder finished; the file is still there at
    the end unless it is itself a temporary file that the clean-up
    removes. *)
Theorem success_means_output_written (cfg : config)
    (clip_paths : list string) (output : string) (s s' : state) :
  compose_video_ffmpeg_with_crossfade w cfg clip_paths output s
  = (Returned true, s') ->
  exists st s1 v a size,
    preprocess w cfg (dirname output) clip_paths s = (Returned st, s1)
    /\ inputs_info st <> []
    /\ ffmpeg_runs s' = ffmpeg_runs s1 ++ [RunEncode v a output]
    /\ (exists stderr, ended (encode w v a output) = Returned stderr)
    /\ InfoSuccess output ∈ console s'
    /\ (1000 < size)%Z
    /\ disk s' !! output
       = if (bool_decide (output ∈ temp_files st)
             && removable w output)%bool
         then None else Some size.
Proof.
  unfold compose_video_ffmpeg_with_crossfade.
  destruct clip_paths as [|p l]; [done|].
  cbn [is_empty]. unfold bind at 1.
  destruct (preprocess w cfg (dirname output) (p :: l) s)
    as [[st|e] s1] eqn:Epre; [|done].
  intros Hrun. apply compose_filtered_true in Hrun
    as (Hne & s2 & v & a & Hd2 & Hr2 & Henc).
  apply encode_output_true in Henc
    as (Hend & Hruns & Hmsg & size & Hbig & _ & Hout).
  exists st, s1, v, a, size. split; [done|]. split; [done|].
  split; [by rewrite Hruns, Hr2|]. done.
Qed.
End Success.

(** * Bounds on the timeline *)

Section TimelineBounds.
Local Open Scope Q_scope.

Lemma effective_between (n : nat) (t : Q) (i : nat) (d : Q) :
  0 <= t -> 0.01 <= d ->
  d - t <= clip_effective_duration n t i d
  /\ clip_effective_duration n t i d <= d.
Proof.
  intros Ht Hd. unfold clip_effective_duration.
  destruct (i <? n - 1)%nat; cbn [fsub fzero ffloor exact].
  - destruct (py_max_cases 0.01 (d - t)) as [[? ->]|[? ->]]; lra.
  - destruct (py_max_cases 0.01 (d - 0)) as [[? ->]|[? ->]]; lra.
Qed.

Lemma total_from_upper (n : nat) (t : Q) (ds : list Q) :
  0 <= t -> Forall (fun d => 0.01 <= d) ds ->
  forall i cur, total_from n t i cur ds <= cur + Qsum ds.
Proof.
  intros Ht Hds. induction Hds as [|d ds Hd Hds IH]; intros i cur.
  - simpl. lra.
  - cbn [total_from Qsum fold_right]. fold (Qsum ds).
    pose proof (IH (S i) (fadd cur (clip_effective_duration n t i d))) as Hhi.
    destruct (effective_between n t i d Ht Hd) as [_ Hhi1].
    cbn [fadd exact] in *. lra.
Qed.

Lemma total_from_lower (n : nat) (t : Q) (ds : list Q) :
  0 <= t -> Forall (fun d => 0.01 <= d) ds ->
  forall i cur d,
    (i + length ds = n - 1)%nat -> 0.01 <= d ->
    cur + Qsum (ds ++ [d]) - Qnat (length ds) * t
    <= total_from n t i cur (ds ++ [d]).
Proof.
  intros Ht Hds. induction Hds as [|d0 ds Hd0 Hds IH]; intros i cur d Hn Hd.
  - simpl. rewrite (effective_last n t i d) by (simpl in Hn; lia || done).
    change (Qnat 0) with 0. cbn [fadd exact]. lra.
  - cbn [app total_from Qsum fold_right length]. fold (Qsum (ds ++ [d])).
    simpl in Hn.
    specialize (IH (S i) (fadd cur (clip_effective_duration n t i d0)) d).
    destruct (effective_between n t i d0 Ht Hd0) as [Hlo1 _].
    rewrite Qnat_S. cbn [fadd exact] in *.
    assert (Hi : (S i + length ds = n - 1)%nat) by lia.
    specialize (IH Hi Hd). nra.
Qed.

Lemma total_from_unfloored (n : nat) (t : Q) (ds : list Q) :
  Forall (fun d => 0.01 <= d - t) ds ->
  forall i cur d,
    (i + length ds = n - 1)%nat -> 0.01 <= d ->
    total_from n t i cur (ds ++ [d])
    == cur + Qsum (ds ++ [d]) - Qnat (length ds) * t.
Proof.
  intros Hds. induction Hds as [|d0 ds Hd0 Hds IH]; intros i cur d Hn Hd.
  - simpl. rewrite (effective_last n t i d) by (simpl in Hn; lia || done).
    change (Qnat 0) with 0. cbn [fadd exact]. lra.
  - cbn [app total_from Qsum fold_right length]. fold (Qsum (ds ++ [d])).
    simpl in Hn. rewrite IH by (lia || done).
    rewrite (effective_inner n t i d0) by (lia || done).
    rewrite Qnat_S. cbn [fadd exact]. ring.
Qed.

(** X11: for clips of at least 0.01 s and a non-negative transition, the
    estimated total lies between the sum of the durations less one
    transition per join and the plain sum; it equals the former when every
    clip but the last exceeds the transition by at least 0.01 s. *)
Theorem total_duration_bounds (ds : list Q) (t : Q) :
  ds <> [] -> 0 <= t -> Forall (fun d => 0.01 <= d) ds ->
  Qsum ds - Qnat (length ds - 1) * t <= final_duration_estimate ds t
  /\ final_duration_estimate ds t <= Qsum ds
  /\ (Forall (fun d => 0.01 <= d - t) (removelast ds) ->
      final_duration_estimate ds t == Qsum ds - Qnat (length ds - 1) * t).
Proof.
  intros Hne Ht Hds. unfold final_duration_estimate.
  rewrite master_timeline_rec. simpl snd.
  destruct (exists_last Hne) as (ds' & dl & ->).
  rewrite removelast_last. apply Forall_app in Hds as [Hds' Hdl].
  apply Forall_cons in Hdl as [Hdl _].
  assert (Hlen : (length (ds' ++ [dl]) - 1 = length ds')%nat)
    by (rewrite length_app; simpl; lia).
  rewrite Hlen. split; [|split].
  - pose proof (total_from_lower (length (ds' ++ [dl])) t ds' Ht Hds'
                  0 0 dl) as H.
    cbn [fzero exact]. simpl in H. specialize (H (eq_sym Hlen) Hdl). lra.
  - assert (Hall : Forall (fun d => 0.01 <= d) (ds' ++ [dl])).
    { apply Forall_app. split; [done|]. by apply Forall_cons. }
    pose proof (total_from_upper (length (ds' ++ [dl])) t (ds' ++ [dl]) Ht
                  Hall 0 0) as H.
    cbn [fzero exact]. lra.
  - intros Hfl.
    rewrite (total_from_unfloored (length (ds' ++ [dl])) t ds' Hfl 0 0 dl)
      by (simpl; lia || done).
    cbn [fzero exact]. ring.
Qed.

End TimelineBounds.

(** * The caller's asset sequence *)

Section AssetSequence.
Variables avatar chart : gmap string string.

Lemma sequence_loop_before (k : nat) (events : list string) :
  forall i paths added n,
    (i + length events <= k)%nat ->
    for_enumerate (sequence_step avatar chart k) i events (paths, added, n)
    = (paths ++ clips_of avatar events, added,
       (n + length (clips_of avatar events))%nat).
Proof.
  induction events as [|e events IH]; intros i paths added n Hk.
  - simpl. by rewrite app_nil_r, Nat.add_0_r.
  - simpl in Hk. cbn [for_enumerate sequence_step].
    replace (i =? k)%nat with false by (symmetry; apply Nat.eqb_neq; lia).
    unfold clips_of. cbn [omap list_omap].
    destruct (avatar !! e) as [clip|]; rewrite IH by lia.
    + rewrite <- app_assoc. simpl. f_equal. unfold clips_of. lia.
    + done.
Qed.

Lemma sequence_loop_after (k : nat) (events : list string) :
  forall i paths added n,
    (k < i)%nat ->
    for_enumerate (sequence_step avatar chart k) i events (paths, added, n)
    = (paths ++ clips_of avatar events, added,
       (n + length (clips_of avatar events))%nat).
Proof.
  induction events as [|e events IH]; intros i paths added n Hk.
  - simpl. by rewrite app_nil_r, Nat.add_0_r.
  - cbn [for_enumerate sequence_step].
    replace (i =? k)%nat with false by (symmetry; apply Nat.eqb_neq; lia).
    unfold clips_of. cbn [omap list_omap].
    destruct (avatar !! e) as [clip|]; rewrite IH by lia.
    + rewrite <- app_assoc. simpl. f_equal. unfold clips_of. lia.
    + done.
Qed.

Lemma clips_of_app (l1 l2 : list string) :
  clips_of avatar (l1 ++ l2) = clips_of avatar l1 ++ clips_of avatar l2.
Proof. apply omap_app. Qed.

Lemma sequence_loop_app (k : nat) (l1 l2 : list string) :
  forall i st,
    for_enumerate (sequence_step avatar chart k) i (l1 ++ l2) st
    = for_enumerate (sequence_step avatar chart k) (i + length l1) l2
        (for_enumerate (sequence_step avatar chart k) i l1 st).
Proof.
  induction l1 as [|x l1 IHl]; intros i st; simpl.
  - by rewrite Nat.add_0_r.
  - rewrite IHl. f_equal. lia.
Qed.

Lemma sequence_loop_middle (l1 : list string) (e : string)
    (l2 paths : list string) :
  for_enumerate (sequence_step avatar chart (length l1)) 0 (l1 ++ e :: l2)
                (paths, false, 0%nat)
  = (paths ++ clips_of avatar l1 ++ option_list (chart !! "manhattan")
       ++ clips_of avatar (e :: l2),
     bool_decide (is_Some (chart !! "manhattan")),
     length (clips_of avatar (l1 ++ e :: l2))).
Proof.
  rewrite sequence_loop_app, sequence_loop_before by (simpl; lia).
  cbn [for_enumerate sequence_step]. simpl (0 + length l1)%nat.
  rewrite Nat.eqb_refl. rewrite clips_of_app, length_app.
  unfold clips_of. cbn [omap list_omap].
  destruct (chart !! "manhattan") as [m|] eqn:Em;
    destruct (avatar !! e) as [clip|] eqn:Ee;
    rewrite sequence_loop_after by lia; unfold clips_of; simpl;
    rewrite <- ?app_assoc; simpl; f_equal; lia.
Qed.

Lemma sequence_loop (k : nat) (events : list string) (paths : list string) :
  (k < length events)%nat ->
  for_enumerate (sequence_step avatar chart k) 0 events (paths, false, 0%nat)
  = (paths ++ clips_of avatar (take k events)
       ++ option_list (chart !! "manhattan")
       ++ clips_of avatar (drop k events),
     bool_decide (is_Some (chart !! "manhattan")),
     length (clips_of avatar events)).
Proof.
  intros Hk. destruct (lookup_lt_is_Some_2 events k Hk) as [e He].
  pose proof (take_drop_middle events k e He) as Hmid.
  rewrite (drop_S events e k He).
  assert (Hlen : length (take k events) = k)
    by (rewrite length_take; lia).
  rewrite <- Hmid at 1 4. rewrite <- Hlen at 1.
  by rewrite sequence_loop_middle.
Qed.

(** X13: the asset sequence the pipeline hands to the composer is the
    intro clip, the run-rate chart, the clips of the first half of the event
    segments, the Manhattan chart, the clips of the second half and the
    conclusion, each present only if it was generated.  The Manhattan chart
    is thus included once whenever it exists, also when there is no event
    segment. *)
Theorem final_sequence_layout (segment_order : list string) :
  let events := event_segments_in_order segment_order in
  let half := (length events / 2)%nat in
  final_sequence_paths segment_order avatar chart
  = option_list (avatar !! "00_intro")
    ++ option_list (chart !! "run_rate")
    ++ clips_of avatar (take half events)
    ++ option_list (chart !! "manhattan")
    ++ clips_of avatar (drop half events)
    ++ option_list (avatar !! "99_conclusion").
Proof.
  intros events half. unfold final_sequence_paths. fold events. fold half.
  destruct (decide (events = [])) as [Hnil|Hne].
  - rewrite Hnil. subst half. rewrite Hnil. simpl.
    by rewrite <- !app_assoc.
  - assert (Hhalf : (half < length events)%nat).
    { subst half. destruct events; [done|]. simpl length.
      apply Nat.div_lt; lia. }
    rewrite (sequence_loop half events _ Hhalf).
    destruct (chart !! "manhattan") as [m|]; simpl;
      by rewrite <- !app_assoc.
Qed.
End AssetSequence.

(** * Images that are kept, and jobs that succeed *)

Section ImagesAreKept.
Local Open Scope Q_scope.
Variable w : world.
Variable cfg : config.

Lemma keep_probed_wrapper_clip (st : filtered) (tmp : string) (d : Q) :
  inputs_info (keep_probed_wrapper cfg st tmp d)
  = inputs_info st ++ [wrapper_clip cfg tmp d]
  /\ temp_files (keep_probed_wrapper cfg st tmp d) = temp_files st ++ [tmp]
  /\ valid_clips_exist (keep_probed_wrapper cfg st tmp d) = true.
Proof. done. Qed.

Lemma keep_fallback_wrapper_clip (st : filtered) (tmp : string) :
  inputs_info (keep_fallback_wrapper cfg st tmp)
  = inputs_info st ++ [wrapper_clip cfg tmp (default_chart_duration cfg)]
  /\ temp_files (keep_fallback_wrapper cfg st tmp) = temp_files st ++ [tmp]
  /\ valid_clips_exist (keep_fallback_wrapper cfg st tmp) = true.
Proof. done. Qed.

Local Opaque get_video_info keep_video keep_probed_wrapper
  keep_fallback_wrapper.

(** X14: an existing image with an ASCII file name whose conversion ends
    normally and leaves a file is always kept, unless the probe of the
    wrapper is interrupted: as a silent temporary clip at the wrapper's
    path, of the configured size, and the wrapper is recorded in
    [temp_files].  The clip lasts the duration that [get_video_info]
    answers for the wrapper once it is written, which is above 0.01 s and
    is a duration the probe of the wrapper reports; when [get_video_info]
    answers "unusable" it lasts the nominal chart duration. *)
Theorem image_kept_when_converted (output_dir : string) (st : filtered)
    (i : nat) (path : string) (s : state) (size : Z) (stderr : string) :
  let tmp := temp_video_path_of output_dir i (basename path) in
  let converted :=
    {| disk := <[tmp := size]> (disk s); console := console s;
       ffmpeg_runs := ffmpeg_runs s ++ [RunConvert path tmp] |} in
  is_ascii (basename path) = true ->
  path <> "" -> is_Some (disk s !! path) -> is_image_path path = true ->
  convert_image w path tmp
  = {| written := Some size; ended := Returned stderr |} ->
  (forall sel e, probe w tmp sel = Raised e -> is_Exception e = true) ->
  exists st' s' d,
    preprocess_step w cfg output_dir st i path s = (Returned st', s')
    /\ inputs_info st' = inputs_info st ++ [wrapper_clip cfg tmp d]
    /\ temp_files st' = temp_files st ++ [tmp]
    /\ valid_clips_exist st' = true
    /\ ((exists wd ht a,
           fst (get_video_info w tmp converted)
           = Returned (Some d, wd, ht, a)
           /\ 0.01 < d
           /\ exists sel pj, probe w tmp sel = Returned pj
                             /\ reports_duration pj d)
        \/ (fst (get_video_info w tmp converted) = Returned unusable
            /\ d = default_chart_duration cfg))
    /\ disk s' = <[tmp := size]> (disk s)
    /\ ffmpeg_runs s' = ffmpeg_runs s ++ [RunConvert path tmp].
Proof.
  intros tmp converted _ Hne Hex Himg Hconv Hprobe.
  unfold preprocess_step. run_monad.
  rewrite bool_decide_eq_false_2 by done.
  rewrite bool_decide_eq_true_2 by done. simpl. rewrite Himg.
  unfold normalize_image. run_monad. fold tmp. rewrite Hconv. simpl.
  rewrite lookup_insert_eq.
  rewrite bool_decide_eq_true_2 by (by eexists).
  fold converted.
  destruct (get_video_info_contract w tmp converted)
    as (r & s2 & Hrun & _ & Hd2 & Hr2 & Hret & _ & _ & _ & Htotal).
  rewrite Hrun. simpl in Hd2, Hr2.
  destruct (Htotal Hprobe) as [info ->].
  destruct (Hret info eq_refl)
    as [[-> _]|(d & wd & ht & a & -> & Hd & _ & Hrep)]; simpl.
  - destruct (keep_fallback_wrapper_clip st tmp) as (H1 & H2 & H3).
    eexists _, _, _. split; [reflexivity|]. simpl.
    split; [exact H1|]. split; [exact H2|]. split; [exact H3|].
    split; [by right|]. done.
  - replace (negb (Qle_bool d 0)) with true.
    2:{ symmetry. apply (fgt_exact d 0). lra. }
    destruct (keep_probed_wrapper_clip st tmp d) as (H1 & H2 & H3).
    eexists _, _, _. split; [reflexivity|]. simpl.
    split; [exact H1|]. split; [exact H2|]. split; [exact H3|].
    split; [|done]. left. by exists wd, ht, a.
Qed.
End ImagesAreKept.

Section EncoderSuccess.
Variable w : world.
Variable cfg : config.

Local Opaque cleanup_temp_files.

Lemma encode_output_succeeds (temp_files : list string) (v : vstream)
    (a : astream) (output : string) (s : state) (n : Z) (stderr : string) :
  encode w v a output = {| written := Some n; ended := Returned stderr |} ->
  (1000 < n)%Z ->
  fst (encode_output w temp_files v a output s) = Returned true.
Proof.
  intros Henc Hn. unfold encode_output, try_finally, try_except. run_monad.
  rewrite Henc. simpl. rewrite lookup_insert_eq.
  replace (1000 <? n)%Z with true by (symmetry; by apply Z.ltb_lt).
  match goal with
  | |- context [cleanup_temp_files w ?l ?s0] =>
      destruct (cleanup_sweeps w l s0) as (s2 & -> & _)
  end. done.
Qed.

Local Opaque get_video_info.

Lemma add_background_music_returns (total : Q) (pa : astream) (s : state) :
  (forall p sel e, probe w p sel = Raised e -> is_Exception e = true) ->
  exists fa s', add_background_music w cfg total pa s = (Returned fa, s').
Proof.
  intros Hprobe. unfold add_background_music.
  destruct (bg_music_path cfg) as [p|]; [|by eexists _, _].
  run_monad.
  destruct (negb (bool_decide (p = ""))
            && bool_decide (is_Some (disk s !! p)))%bool;
    [|by eexists _, _].
  destruct (get_video_info_contract w p s)
    as (r & s1 & -> & _ & _ & _ & _ & _ & _ & _ & Htotal).
  destruct (Htotal (Hprobe p)) as [[[[d wd] ht] has_audio] ->].
  destruct has_audio; run_monad; by eexists _, _.
Qed.

Local Opaque encode_output add_background_music
  master_timeline build_streams apply_transitions.

(** Once a clip is kept, the job reaches the background-music stage and
    then the encoder. *)
Lemma compose_filtered_reaches_encoder (st : filtered) (output : string)
    (s : state) :
  valid_clips_exist st = true -> inputs_info st <> [] ->
  exists s0 pv pa total,
    disk s0 = disk s /\ ffmpeg_runs s0 = ffmpeg_runs s
    /\ compose_filtered w cfg st output s
       = (fa <- add_background_music w cfg total pa ;;
          encode_output w (temp_files st) pv fa output) s0.
Proof.
  intros Hvalid Hne. unfold compose_filtered.
  rewrite Hvalid. replace (is_empty (inputs_info st)) with false
    by (by destruct (inputs_info st)).
  cbn [negb orb].
  rewrite master_timeline_pair. cbv beta iota zeta.
  unfold try_or_return, lift.
  set (t := transition_duration cfg).
  set (infos := inputs_info st).
  set (starts := clip_start_times (map info_duration infos) t).
  assert (Hb := build_on_timeline infos t (final_video_width st)
                  (final_video_height st) (target_fps cfg)).
  cbv zeta in Hb. fold starts in Hb. rewrite Hb. clear Hb.
  assert (Hjoin := apply_transitions_returns t (length infos) starts
            (map (processed_video_of (final_video_width st)
                    (final_video_height st) (target_fps cfg)) infos)
            (delayed_from starts 0 infos)).
  destruct Hjoin as [[H0 Hj]|Hj].
  { subst starts. by rewrite clip_start_times_length, length_map. }
  { by rewrite length_map. }
  { apply delayed_from_length. }
  { subst infos. by destruct (inputs_info st). }
  assert (Hsome : exists pv pa,
            apply_transitions t (length infos) starts
              (map (processed_video_of (final_video_width st)
                      (final_video_height st) (target_fps cfg)) infos)
              (delayed_from starts 0 infos) = Returned (Some (pv, pa))).
  { destruct Hj as [(v & a & _ & _ & _ & H)|(pv & _ & H)]; by eexists _, _. }
  clear Hj. destruct Hsome as (pv & pa & Hj).
  unfold bind at 1 2.
  set (s0 := snd ((if first_video_dims_found st then ret ()
                   else print WarnNoDimensions) s)).
  assert (Hs0 : (if first_video_dims_found st then ret ()
                 else print WarnNoDimensions) s = (Returned (), s0)
                /\ disk s0 = disk s /\ ffmpeg_runs s0 = ffmpeg_runs s).
  { subst s0. by destruct (first_video_dims_found st). }
  destruct Hs0 as (-> & Hd0 & Hr0). clearbody s0.
  unfold print at 1. unfold bind at 1. rewrite Hj.
  eexists _, pv, pa, _. split; [|split; [|reflexivity]]; done.
Qed.

(** X15: once a clip is kept and no two kept clips read the same file (a
    graph in which two clips read one file is refused before the encoder
    starts), if no probe is interrupted and the encoder ends normally
    leaving more than 1000 bytes at the output path, the job answers
    [True]. *)
Theorem encoder_success_means_true (st : filtered) (output : string)
    (s : state) :
  valid_clips_exist st = true -> inputs_info st <> [] ->
  NoDup (map info_path (inputs_info st)) ->
  (forall p sel e, probe w p sel = Raised e -> is_Exception e = true) ->
  (forall v a, exists n stderr,
     encode w v a output = {| written := Some n; ended := Returned stderr |}
     /\ (1000 < n)%Z) ->
  fst (compose_filtered w cfg st output s) = Returned true.
Proof.
  intros Hvalid Hne _ Hprobe Henc.
  destruct (compose_filtered_reaches_encoder st output s Hvalid Hne)
    as (s0 & pv & pa & total & _ & _ & ->).
  unfold bind.
  destruct (add_background_music_returns total pa s0 Hprobe)
    as (fa & s1 & ->).
  destruct (Henc pv fa) as (n & stderr & Hrun & Hn).
  by apply (encode_output_succeeds _ _ _ _ _ n stderr).
Qed.
End EncoderSuccess.

(** * The files a job touches *)

Section Frame.
Local Open Scope Q_scope.
Variable w : world.
Variable cfg : config.

Lemma keep_probed_wrapper_temp (st : filtered) (tmp : string) (d : Q) :
  temp_files (keep_probed_wrapper cfg st tmp d) = temp_files st ++ [tmp].
Proof. done. Qed.

Lemma keep_fallback_wrapper_temp (st : filtered) (tmp : string) :
  temp_files (keep_fallback_wrapper cfg st tmp) = temp_files st ++ [tmp].
Proof. done. Qed.

Lemma keep_video_temp (st : filtered) (path : string) (d : Q)
    (wd ht : option Z) (a : bool) :
  temp_files (fst (keep_video cfg st path d wd ht a)) = temp_files st.
Proof. done. Qed.

Local Opaque get_video_info keep_video keep_probed_wrapper
  keep_fallback_wrapper.

(** One iteration of the filter writes at most the wrapper of its own
    entry, and records nothing else in [temp_files]. *)
Lemma preprocess_step_frame (output_dir : string) (st : filtered) (i : nat)
    (path : string) (s : state) :
  exists r s',
    preprocess_step w cfg output_dir st i path s = (r, s')
    /\ (forall q, q ∉ wrappers_from output_dir i [path] ->
                  disk s' !! q = disk s !! q)
    /\ (forall st', r = Returned st' ->
          exists added, temp_files st' = temp_files st ++ added
                        /\ added ⊆ wrappers_from output_dir i [path]).
Proof.
  unfold preprocess_step. run_monad.
  destruct (bool_decide (path = "")
            || negb (bool_decide (is_Some (disk s !! path))))%bool.
  { eexists _, _. split; [reflexivity|]. simpl. split; [done|].
    intros st' [= <-]. exists []. split; [by rewrite app_nil_r|].
    apply list_subseteq_nil. }
  destruct (is_image_path path).
  - unfold normalize_image. run_monad.
    set (tmp := temp_video_path_of output_dir i (basename path)).
    set (d1 := match written (convert_image w path tmp) with
               | Some size => <[tmp:=size]> (disk s)
               | None => disk s
               end).
    assert (Hframe : forall q, q ∉ [tmp] ++ [] -> d1 !! q = disk s !! q).
    { intros q Hq. subst d1. destruct (written _); [|done].
      rewrite lookup_insert_ne; [done|]. intros ->. apply Hq.
      apply list_elem_of_here. }
    assert (Hsame : forall st', st = st' ->
              exists added, temp_files st' = temp_files st ++ added
                            /\ added ⊆ [tmp] ++ []).
    { intros st' <-. exists []. split; [by rewrite app_nil_r|].
      apply list_subseteq_nil. }
    assert (Hadd : forall st' : filtered,
              temp_files st' = temp_files st ++ [tmp] ->
              exists added, temp_files st' = temp_files st ++ added
                            /\ added ⊆ [tmp] ++ []).
    { intros st' H. by exists [tmp]. }
    destruct (ended (convert_image w path tmp)) as [stderr|e] eqn:Eend.
    2:{ destruct (is_Exception e) eqn:He.
        - destruct e; try done;
            (eexists _, _; split; [reflexivity|]; simpl; split; [done|];
             intros st' [= <-]; by apply Hsame).
        - eexists _, _. split; [reflexivity|]. simpl. split; [done|]. done. }
    destruct (bool_decide (is_Some (d1 !! tmp))).
    2:{ eexists _, _. split; [reflexivity|]. simpl. split; [done|].
        intros st' [= <-]. by apply Hsame. }
    match goal with
    | |- context [get_video_info w tmp ?s1] =>
        destruct (get_video_info_contract w tmp s1)
          as (r & s2 & -> & _ & Hd2 & _)
    end.
    simpl in Hd2.
    destruct r as [[[[[d|] wd] ht] a]|e]; simpl.
    + destruct (negb (Qle_bool d 0)).
      * eexists _, _. split; [reflexivity|]. simpl. rewrite Hd2.
        split; [done|]. intros st' [= <-]. apply Hadd.
        apply keep_probed_wrapper_temp.
      * eexists _, _. split; [reflexivity|]. simpl. rewrite Hd2.
        split; [done|]. intros st' [= <-]. apply Hadd.
        apply keep_fallback_wrapper_temp.
    + eexists _, _. split; [reflexivity|]. simpl. rewrite Hd2.
      split; [done|]. intros st' [= <-]. apply Hadd.
      apply keep_fallback_wrapper_temp.
    + destruct (is_Exception e) eqn:He.
      * destruct e; try done;
          (eexists _, _; split; [reflexivity|]; simpl; rewrite Hd2;
           split; [done|]; intros st' [= <-]; by apply Hsame).
      * eexists _, _. split; [reflexivity|]. rewrite Hd2.
        split; [done|]. done.
  - unfold admit_video. run_monad.
    destruct (get_video_info_contract w path s)
      as (r & s2 & -> & _ & Hd2 & _).
    assert (Hsame : forall st' : filtered,
              temp_files st' = temp_files st ->
              exists added, temp_files st' = temp_files st ++ added
                            /\ added ⊆ [] ++ []).
    { intros st' H. exists []. split; [by rewrite app_nil_r|].
      apply list_subseteq_nil. }
    destruct r as [[[[[d|] wd] ht] a]|e]; simpl.
    + destruct (negb (Qle_bool d 0)).
      * pose proof (keep_video_temp st path d wd ht a) as Hk.
        destruct (keep_video cfg st path d wd ht a) as [st1 sets] eqn:Ek.
        simpl in Hk.
        destruct sets.
        -- eexists _, _. split; [reflexivity|]. simpl. rewrite Hd2.
           split; [done|]. intros st' [= <-]. by apply Hsame.
        -- eexists _, _. split; [reflexivity|]. simpl. rewrite Hd2.
           split; [done|]. intros st' [= <-]. by apply Hsame.
      * eexists _, _. split; [reflexivity|]. simpl. rewrite Hd2.
        split; [done|]. intros st' [= <-]. by apply Hsame.
    + eexists _, _. split; [reflexivity|]. simpl. rewrite Hd2.
      split; [done|]. intros st' [= <-]. by apply Hsame.
    + eexists _, _. split; [reflexivity|]. rewrite Hd2.
      split; [done|]. done.
Qed.

Lemma wrappers_from_cons (output_dir : string) (i : nat) (p : string)
    (l : list string) :
  wrappers_from output_dir i (p :: l)
  = wrappers_from output_dir i [p] ++ wrappers_from output_dir (S i) l.
Proof. simpl. by rewrite app_nil_r. Qed.

Lemma preprocess_loop_frame (output_dir : string) (l : list string) :
  forall i st s,
    exists r s',
      for_enumerateM (preprocess_step w cfg output_dir) i l st s = (r, s')
      /\ (forall q, q ∉ wrappers_from output_dir i l ->
                    disk s' !! q = disk s !! q)
      /\ (forall st', r = Returned st' ->
            exists added, temp_files st' = temp_files st ++ added
                          /\ added ⊆ wrappers_from output_dir i l).
Proof.
  induction l as [|p l IH]; intros i st s.
  - eexists _, _. split; [reflexivity|]. split; [done|].
    intros st' [= <-]. exists []. split; [by rewrite app_nil_r|].
    apply list_subseteq_nil.
  - cbn [for_enumerateM]. unfold bind. rewrite wrappers_from_cons.
    destruct (preprocess_step_frame output_dir st i p s)
      as (r1 & s1 & -> & Hd1 & Ht1).
    destruct r1 as [st1|e].
    2:{ eexists _, _. split; [reflexivity|]. split; [|done].
        intros q Hq. apply Hd1. intros Hin. apply Hq.
        apply elem_of_app. by left. }
    destruct (IH (S i) st1 s1) as (r & s2 & -> & Hd2 & Ht2).
    eexists _, _. split; [reflexivity|]. split.
    + intros q Hq. rewrite Hd2, Hd1; [done| |];
        intros Hin; apply Hq; apply elem_of_app; auto.
    + intros st' ->. destruct (Ht2 st' eq_refl) as (add2 & -> & Hsub2).
      destruct (Ht1 st1 eq_refl) as (add1 & -> & Hsub1).
      exists (add1 ++ add2). split; [by rewrite app_assoc|].
      intros x [Hx|Hx]%elem_of_app; apply elem_of_app; [left|right]; auto.
Qed.

Local Opaque cleanup_temp_files.

(** The encoding stage writes the output file and removes temporary
    files; it touches nothing else. *)
Lemma encode_output_frame (temp_files : list string) (v : vstream)
    (a : astream) (output : string) (s : state) (q : string) :
  q <> output -> q ∉ temp_files ->
  disk (snd (encode_output w temp_files v a output s)) !! q = disk s !! q.
Proof.
  intros Hout Htemp.
  unfold encode_output, try_finally, try_except. run_monad.
  set (d1 := match written (encode w v a output) with
             | Some size => <[output:=size]> (disk s)
             | None => disk s
             end).
  assert (Hd1 : d1 !! q = disk s !! q).
  { subst d1. destruct (written _); [|done]. by rewrite lookup_insert_ne. }
  assert (Hsweep : forall s0 (r : outcome bool),
            disk s0 = d1 ->
            disk (snd (let (r0, s') := (r, s0) in
                       let (o, s'') := cleanup_temp_files w temp_files s' in
                       match o with
                       | Returned _ => (r0, s'')
                       | Raised e => (Raised e, s'')
                       end)) !! q = disk s !! q).
  { intros s0 r Hs0.
    destruct (cleanup_sweeps w temp_files s0) as (s2 & -> & _ & Hd & _).
    simpl. rewrite Hd, Hs0, Hd1.
    by rewrite bool_decide_eq_false_2. }
  destruct (ended (encode w v a output)) as [stderr|e].
  - destruct (d1 !! output) as [size|].
    + destruct (1000 <? size)%Z; by apply Hsweep.
    + by apply Hsweep.
  - destruct (is_Exception e); [|by apply Hsweep].
    destruct e; try done; by apply Hsweep.
Qed.

Local Opaque encode_output add_background_music.

Lemma compose_filtered_frame (st : filtered) (output : string) (s : state)
    (q : string) :
  q <> output -> q ∉ temp_files st ->
  disk (snd (compose_filtered w cfg st output s)) !! q = disk s !! q.
Proof.
  intros Hout Htemp.
  destruct (negb (valid_clips_exist st) || is_empty (inputs_info st))%bool
    eqn:Econd.
  - unfold compose_filtered. rewrite Econd. run_monad.
    match goal with
    | |- context [cleanup_temp_files w ?l ?s0] =>
        destruct (cleanup_sweeps w l s0) as (s1 & -> & _ & Hd & _)
    end.
    simpl. rewrite Hd. by rewrite bool_decide_eq_false_2.
  - apply orb_false_iff in Econd as [Hvalid Hne].
    apply negb_false_iff in Hvalid.
    destruct (compose_filtered_reaches_encoder w cfg st output s Hvalid)
      as (s0 & pv & pa & total & Hd0 & _ & ->).
    { by destruct (inputs_info st). }
    unfold bind.
    destruct (add_background_music_effect w cfg total pa s0)
      as (rb & s2 & -> & Hd2 & _).
    destruct rb as [fa|e]; simpl; [|by rewrite Hd2, Hd0].
    rewrite encode_output_frame by done. by rewrite Hd2, Hd0.
Qed.

(** X16: a job whose inputs have ASCII file names changes no file other
    than the output file and the wrappers of the images of [clip_paths]:
    whatever way it ends, every other path holds what it held before (or is
    absent as before).  In particular no input video or image is ever
    modified or removed, unless it sits at the output path or at a
    wrapper's path. *)
Theorem job_touches_only_its_files (clip_paths : list string)
    (output : string) (s : state) (q : string) :
  Forall (fun p => is_ascii (basename p) = true) clip_paths ->
  q <> output -> q ∉ wrappers_from (dirname output) 0 clip_paths ->
  disk (snd (compose_video_ffmpeg_with_crossfade w cfg clip_paths output s))
    !! q
  = disk s !! q.
Proof.
  intros _ Hout Hwrap.
  destruct clip_paths as [|p0 paths]; [done|].
  rewrite job_unfold. unfold preprocess.
  destruct (preprocess_loop_frame (dirname output) (p0 :: paths) 0
              (nothing_filtered cfg) s)
    as (r & s1 & -> & Hd1 & Ht).
  destruct r as [st|e]; [|by apply Hd1].
  rewrite compose_filtered_frame; [by apply Hd1|done|].
  destruct (Ht st eq_refl) as (added & Hadd & Hsub).
  simpl in Hadd. rewrite Hadd. intros Hin. apply Hwrap. by apply Hsub.
Qed.
End Frame.

(** * Further worked runs *)

Section MoreWorkedRuns.
Local Open Scope Q_scope.

Lemma get_video_info_reads_streams_witness :
  exists pv pa st,
    probe studio "/in/intro.mp4" select_v = Returned pv
    /\ probe studio "/in/intro.mp4" select_a = Returned pa
    /\ is_Some (head (streams pa))
    /\ head (streams pv) = Some st
    /\ stream_duration st = Value 6
    /\ stream_width st = Value 640%Z /\ stream_height st = Value 480%Z.
Proof.
  destruct (get_video_info_reads_streams studio "/in/intro.mp4" studio_files
              6 (Some 640%Z) (Some 480%Z) true studio_files)
    as (pv & pa & pf & Hv & Ha & _ & _ & Haud & Hdur & Hdims);
    [by vm_compute|].
  destruct Hdims as [[H _]|(st & x & y & Hst & Hw & Hh & Hx & Hy & _)];
    [discriminate H|].
  injection Hx as <-. injection Hy as <-.
  exists pv, pa, st. split; [exact Hv|]. split; [exact Ha|].
  symmetry in Haud. apply bool_decide_eq_true in Haud.
  split; [exact Haud|].
  split; [exact Hst|]. split; [|by split].
  destruct Hdur as [(st' & Hst' & Hd)|[[Hno _]|[Hno _]]].
  - rewrite Hst in Hst'. by injection Hst' as <-.
  - pose proof Hv as Hpv. vm_compute in Hpv. injection Hpv as Hpv.
    rewrite <- Hpv in Hno. by vm_compute in Hno.
  - pose proof Hv as Hpv. vm_compute in Hpv. injection Hpv as Hpv.
    rewrite <- Hpv in Hno. by vm_compute in Hno.
Defined.

Lemma kept_clips_follow_inputs_witness :
  let run := preprocess studio default_config "/out"
               ["/in/intro.mp4"; "/in/missing.mp4"; "/in/a.png"]
               studio_files in
  let st := kept default_config run in
  map info_path (inputs_info st)
  = ["/in/intro.mp4"; "/out/temp_img_2_a_png.mp4"]
  /\ map info_path (inputs_info st)
       `sublist_of` ["/in/intro.mp4"; "/in/missing.mp4";
                     "/out/temp_img_2_a_png.mp4"]
  /\ Forall (fun c => is_Some (disk (snd run) !! info_path c))
            (inputs_info st).
Proof.
  intros run st.
  destruct (kept_clips_follow_inputs studio default_config "/out"
              ["/in/intro.mp4"; "/in/missing.mp4"; "/in/a.png"]
              studio_files st (snd run))
    as (Hsub & _ & Hex & _); [by vm_compute|].
  split; [by vm_compute|]. split; [exact Hsub|exact Hex].
Defined.

Lemma missing_inputs_fail_cleanly_witness :
  compose_video_ffmpeg_with_crossfade studio default_config
    ["/in/missing.mp4"; ""] "/out/final.mp4" studio_files
  = (Returned false,
     {| disk := disk studio_files;
        console := [WarnSkipMissing "/in/missing.mp4"; WarnSkipMissing "";
                    ErrNoValidInputs];
        ffmpeg_runs := [] |}).
Proof.
  apply (missing_inputs_fail_cleanly studio default_config
           ["/in/missing.mp4"; ""] "/out/final.mp4" studio_files).
  repeat constructor; by vm_compute.
Defined.

Lemma encoder_reads_kept_clips_witness :
  let st := kept default_config
              (preprocess studio default_config "/out" three_assets
                          studio_files) in
  let job := compose_filtered studio default_config st "/out/final.mp4"
               studio_files in
  exists v a,
    ffmpeg_runs (snd job) = [RunEncode v a "/out/final.mp4"]
    /\ video_sources v
       = [("/in/intro.mp4", 6); ("/out/temp_img_1_a_png.mp4", 5);
          ("/in/outro.mp4", 4)]
    /\ xfades v = [(0.6, 5.4); (0.6, 9.80)]
    /\ audio_sources a
       = [FromFile "/in/intro.mp4" 6; Silence 5; Silence 4].
Proof.
  intros st job.
  assert (H : exists v a,
            ffmpeg_runs (snd job)
            = ffmpeg_runs studio_files ++ [RunEncode v a "/out/final.mp4"])
    by (vm_compute; by eexists _, _).
  destruct H as (v & a & H).
  destruct (encoder_reads_kept_clips studio default_config st
              "/out/final.mp4" studio_files v a H)
    as (Hv & Hx & music & Ha & Hnone).
  exists v, a. split; [exact H|].
  split; [rewrite Hv; by vm_compute|].
  split; [rewrite Hx; by vm_compute|].
  rewrite Ha, (Hnone eq_refl). by vm_compute.
Defined.

Lemma success_means_output_written_witness :
  let job := compose_video_ffmpeg_with_crossfade studio default_config
               three_assets "/out/final.mp4" studio_files in
  fst job = Returned true
  /\ exists size, disk (snd job) !! "/out/final.mp4" = Some size
                  /\ (1000 < size)%Z.
Proof.
  intros job. split; [by vm_compute|].
  destruct (success_means_output_written studio default_config three_assets
              "/out/final.mp4" studio_files (snd job))
    as (st & s1 & v & a & size & Hpre & _ & _ & _ & _ & Hbig & Hout);
    [by vm_compute|].
  exists size. split; [|exact Hbig].
  rewrite Hout.
  assert (Hst : st = kept default_config
                       (preprocess studio default_config "/out" three_assets
                                   studio_files)).
  { change (dirname "/out/final.mp4") with "/out" in Hpre.
    unfold kept. by rewrite Hpre. }
  rewrite Hst. by vm_compute.
Defined.

Lemma total_duration_bounds_witness :
  Qsum [6; 5; 4] - Qnat 2 * 0.6 <= final_duration_estimate [6; 5; 4] 0.6
  /\ final_duration_estimate [6; 5; 4] 0.6 <= Qsum [6; 5; 4]
  /\ final_duration_estimate [6; 5; 4] 0.6 == 13.8.
Proof.
  destruct (total_duration_bounds [6; 5; 4] 0.6) as (Hlo & Hhi & Heq).
  - discriminate.
  - by vm_compute.
  - repeat constructor; by vm_compute.
  - split; [exact Hlo|]. split; [exact Hhi|].
    rewrite Heq; [by vm_compute|]. repeat constructor; by vm_compute.
Defined.

Lemma image_kept_when_converted_witness :
  exists st' s' d,
    preprocess_step studio default_config "/out"
      (nothing_filtered default_config) 0 "/in/a.png" studio_files
    = (Returned st', s')
    /\ inputs_info st'
       = [wrapper_clip default_config "/out/temp_img_0_a_png.mp4" d]
    /\ temp_files st' = ["/out/temp_img_0_a_png.mp4"]
    /\ d == 5
    /\ disk s' !! "/out/temp_img_0_a_png.mp4" = Some 20000%Z.
Proof.
  destruct (image_kept_when_converted studio default_config "/out"
              (nothing_filtered default_config) 0 "/in/a.png" studio_files
              20000 "")
    as (st' & s' & d & Hrun & Hin & Htmp & _ & Hd & Hdisk & _).
  - reflexivity.
  - discriminate.
  - vm_compute. by eexists.
  - reflexivity.
  - reflexivity.
  - intros sel e. vm_compute. by destruct sel.
  - exists st', s', d. split; [exact Hrun|]. split; [exact Hin|].
    split; [exact Htmp|]. split.
    + destruct Hd as [(wd & ht & a & Hinfo & _)|[Hinfo _]];
        vm_compute in Hinfo; [|discriminate Hinfo].
      injection Hinfo as <- _ _ _. reflexivity.
    + rewrite Hdisk. by vm_compute.
Defined.

Lemma wrapper_path_facts_witness :
  dirname (temp_video_path_of (dirname "/out/final.mp4") 0 "a.png")
  = dirname "/out/final.mp4"
  /\ is_image_path
       (temp_video_path_of (dirname "/out/final.mp4") 0 "a.png") = false
  /\ (temp_video_path_of (dirname "/out/final.mp4") 0 "a.png"
      = temp_video_path_of (dirname "/out/final.mp4") 1 "b.png" ->
      0 = 1)%nat.
Proof.
  apply (wrapper_path_facts "/out/final.mp4" 0 1 "a.png" "b.png");
    reflexivity.
Defined.

Lemma studio_probe_never_interrupted (p : string) (sel : select_streams)
    (e : exn) :
  probe studio p sel = Raised e -> is_Exception e = true.
Proof.
  simpl. unfold studio_probe, probe_of.
  repeat case_match; by intros [= <-].
Qed.

Lemma encoder_success_means_true_witness :
  let st := kept default_config
              (preprocess studio default_config "/out" three_assets
                          studio_files) in
  fst (compose_filtered studio default_config st "/out/final.mp4"
         studio_files) = Returned true.
Proof.
  intros st.
  apply (encoder_success_means_true studio default_config st
           "/out/final.mp4" studio_files).
  - by vm_compute.
  - by vm_compute.
  - apply (bool_decide_unpack _). by vm_compute.
  - apply studio_probe_never_interrupted.
  - intros v a. exists 90000%Z, "". split; [reflexivity|lia].
Defined.
Lemma job_touches_only_its_files_witness :
  disk (snd (compose_video_ffmpeg_with_crossfade studio default_config
               three_assets "/out/final.mp4" studio_files))
    !! "/in/a.png"
  = Some 40000%Z.
Proof.
  rewrite (job_touches_only_its_files studio default_config three_assets
             "/out/final.mp4" studio_files "/in/a.png");
    [reflexivity | repeat constructor | discriminate |].
  vm_compute. intros [H|H]%elem_of_cons; [discriminate H|].
  by apply elem_of_nil in H.
Defined.
End MoreWorkedRuns.


(** * What fixes the job-wide resolution *)

Section Resolution.
Local Open Scope Q_scope.
Variable w : world.
Variable cfg : config.
Variable output_dir : string.









Local Opaque get_video_info keep_video keep_probed_wrapper
  keep_fallback_wrapper.







End Resolution.

Section ResolutionRun.
Local Open Scope Q_scope.

End ResolutionRun.
